(** * Polyphase rational resampler: a shallow embedding of Resampler.cpp

    The development follows the C++ source: the base class [Resampler]
    (prototype filter design in [init], path table in [resize]), the
    [COPY_INPUT] macro shared by the two [resample] methods, and the
    convolution loops of [RealResampler<T>] and [ComplexResampler<T>].

    Conventions.
    - [unsigned] is a 32-bit integer, kept as a [Z] in [0, 2^32) with the
      wrap-around of every operation written out ([wrap_unsigned]); [int] is
      the conversion [to_int] of such a value (two's complement).
    - [size_t] values are lengths of vectors; they cannot exceed the address
      space, so their sums are kept as plain [Z].
    - [double] is Rocq's primitive binary64 [float]; [sin] and [cos] come from
      the C library and are parameters of [init].
    - A call returns an [outcome]: a value, the [std::invalid_argument]
      exception, or undefined behaviour (division by zero, an access outside
      a vector, a conversion whose result does not fit).
    - Every allocation is taken to succeed: [std::bad_alloc] is not an
      outcome.  A statement about a constructor is therefore a statement
      about the engine it returns, and a statement that needs a whole run to
      succeed bounds the sizes in its hypotheses. *)

From Stdlib Require Import String.
From Stdlib Require Import ZArith List Bool Lia.
From Stdlib Require Import Floats.
From Stdlib Require Uint63.
Import ListNotations.

Set Implicit Arguments.

Local Open Scope Z_scope.

(** ** Machine integers *)

Definition UINT_BITS : Z := 32.

Definition wrap_unsigned (z : Z) : Z := z mod 2 ^ UINT_BITS.

(** Conversion [unsigned -> int]. *)
Definition to_int (u : Z) : Z :=
  if u <? 2 ^ (UINT_BITS - 1) then u else u - 2 ^ UINT_BITS.

Definition is_unsigned (z : Z) : Prop := 0 <= z < 2 ^ UINT_BITS.

(** Length of a vector, as [size()] returns it. *)
Definition size {A : Type} (v : list A) : Z := Z.of_nat (length v).

(** ** Outcomes of a call, and state threaded through a method *)

Inductive outcome (A : Type) : Type :=
| Done (a : A)
| InvalidArgument
| Undefined.

Arguments Done {A} a.
Arguments InvalidArgument {A}.
Arguments Undefined {A}.

Definition obind {A B : Type} (o : outcome A) (k : A -> outcome B) : outcome B :=
  match o with
  | Done a => k a
  | InvalidArgument => InvalidArgument
  | Undefined => Undefined
  end.

Declare Scope outcome_scope.
Delimit Scope outcome_scope with outcome.
Notation "x <- c ;; k" := (obind c (fun x => k))
  (at level 61, c at next level, right associativity) : outcome_scope.

(** A method body: it reads and updates the object, and ends in an outcome.
    The object returned with [InvalidArgument] is the object as the
    exception left it. *)
Definition method (St A : Type) : Type := St -> outcome A * St.

Definition mret {St A : Type} (a : A) : method St A := fun s => (Done a, s).

Definition mbind {St A B : Type} (m : method St A) (k : A -> method St B)
  : method St B :=
  fun s =>
    match m s with
    | (Done a, s') => k a s'
    | (InvalidArgument, s') => (InvalidArgument, s')
    | (Undefined, s') => (Undefined, s')
    end.

Definition mget {St : Type} : method St St := fun s => (Done s, s).
Definition mput {St : Type} (s' : St) : method St unit := fun _ => (Done tt, s').
Definition mthrow {St A : Type} : method St A := fun s => (InvalidArgument, s).
Definition mlift {St A : Type} (o : outcome A) : method St A := fun s => (o, s).

Declare Scope method_scope.
Delimit Scope method_scope with method.
Notation "x <- c ;; k" := (mbind c (fun x => k))
  (at level 61, c at next level, right associativity) : method_scope.
Notation "c ;;; k" := (mbind c (fun _ => k))
  (at level 61, right associativity) : method_scope.

(** Unsigned division and remainder: undefined for a zero divisor. *)
Definition udiv (a b : Z) : outcome Z := if b =? 0 then Undefined else Done (a / b).
Definition urem (a b : Z) : outcome Z := if b =? 0 then Undefined else Done (a mod b).

(** [v[i]] and [v.begin() + i] for a signed index. *)
Definition vec_at {A : Type} (v : list A) (i : Z) : outcome A :=
  if (0 <=? i) && (i <? size v)
  then match nth_error v (Z.to_nat i) with Some a => Done a | None => Undefined end
  else Undefined.

Definition advance {A : Type} (v : list A) (i : Z) : outcome (list A) :=
  if (0 <=? i) && (i <=? size v) then Done (skipn (Z.to_nat i) v) else Undefined.

(** ** Double precision *)

Definition double : Type := float.

(** Conversion of an integer to [double], rounding to nearest even. *)
Definition Z2double (z : Z) : double := SF2Prim (binary_normalize prec emax z 0 false).

(** Conversion of a [double] to an integer: truncation toward zero; no result
    for a NaN or an infinity. *)
Definition double2Z (d : double) : option Z :=
  match Prim2SF d with
  | S754_zero _ => Some 0
  | S754_finite s m e =>
      let v := if 0 <=? e then Z.shiftl (Zpos m) e else Z.shiftr (Zpos m) (- e) in
      Some (if s then - v else v)
  | S754_infinity _ | S754_nan => None
  end.

(** Conversion of a [double] to binary32 (kept as the [double] of the same
    value). *)
Definition double2float (d : double) : double :=
  match Prim2SF d with
  | S754_finite s m e => SF2Prim (binary_normalize 24 128 (cond_Zopp s (Zpos m)) e s)
  | _ => d
  end.

Definition M_PI : double := 0x1.921fb54442d18p+1%float.

(** [std::max] and [std::min] on doubles: the first argument is returned
    unless the comparison holds. *)
Definition std_max (a b : double) : double := if (a <? b)%float then b else a.
Definition std_min (a b : double) : double := if (b <? a)%float then b else a.

(** ** Element types

    What the templates use of [T]: [std::is_integral<T>], the conversions
    [(double) v] and [T(d)], [std::numeric_limits<T>::min()] and [max()],
    and the value-initialised [T()].  [of_double] has no result where the
    C++ conversion is undefined (the truncated value does not fit [T]). *)

Record elem_type : Type := {
  carrier : Type;
  is_integral : bool;
  to_double : carrier -> double;
  of_double : double -> option carrier;
  limits_min : carrier;
  limits_max : carrier;
  value_init : carrier
}.

(** Signed integers of [bits] bits ([char], [short], [int], [long]). *)
Definition int_min (bits : Z) : Z := - 2 ^ (bits - 1).
Definition int_max (bits : Z) : Z := 2 ^ (bits - 1) - 1.

Definition in_int_range (bits z : Z) : bool := (int_min bits <=? z) && (z <=? int_max bits).

Definition double2int (bits : Z) (d : double) : option Z :=
  match double2Z d with
  | Some z => if in_int_range bits z then Some z else None
  | None => None
  end.

Definition signed_type (bits : Z) : elem_type := {|
  carrier := Z;
  is_integral := true;
  to_double := Z2double;
  of_double := double2int bits;
  limits_min := int_min bits;
  limits_max := int_max bits;
  value_init := 0
|}.

Definition t_char : elem_type := signed_type 8.
Definition t_short : elem_type := signed_type 16.
Definition t_int : elem_type := signed_type 32.
Definition t_long : elem_type := signed_type 64.

Definition t_double : elem_type := {|
  carrier := double;
  is_integral := false;
  to_double := fun v => v;
  of_double := fun d => Some d;
  limits_min := 0x1p-1022%float;
  limits_max := 0x1.fffffffffffffp+1023%float;
  value_init := 0%float
|}.

Definition t_float : elem_type := {|
  carrier := double;
  is_integral := false;
  to_double := fun v => v;
  of_double := fun d => Some (double2float d);
  limits_min := 0x1p-126%float;
  limits_max := 0x1.fffffep+127%float;
  value_init := 0%float
|}.

(** [std::complex<T>]: real and imaginary part. *)
Definition complex (T : elem_type) : Type := (carrier T * carrier T)%type.

(** The SATURATE block: clamp one accumulated component for integral [T]. *)
Definition saturate (T : elem_type) (a : double) : double :=
  if is_integral T then
    let a := std_max (to_double T (limits_min T)) a in
    std_min (to_double T (limits_max T)) a
  else a.

(** ** The base class [Resampler] *)

Record Resampler : Type := {
  partitions : list (list double);
  paths : list (Z * Z);
  P : Z;
  Q : Z
}.

Definition DEFAULT_PATH_LEN : nat := 128.

(** One entry of the path table, as [resize] computes it for the counter
    value [i]: the product and the quotients are [unsigned], the stored pair
    is [pair<int, int>]. *)
Definition path_entry (P Q i : Z) : Z * Z :=
  let qi := wrap_unsigned (Q * i) in
  (to_int (qi / P), to_int (qi mod P)).

(** The loop of [resize] over the [n] entries still to fill, the counter at
    [i]. *)
Fixpoint resize_loop (P Q i : Z) (n : nat) : list (Z * Z) :=
  match n with
  | O => []
  | S n' => path_entry P Q i :: resize_loop P Q (wrap_unsigned (i + 1)) n'
  end.

(** [Resampler::resize(n)].  The body divides by [P] once per entry. *)
Definition resize (n : nat) (r : Resampler) : outcome Resampler :=
  match n with
  | O => Done {| partitions := partitions r; paths := []; P := P r; Q := Q r |}
  | S _ =>
      if P r =? 0 then Undefined
      else Done {| partitions := partitions r;
                   paths := resize_loop (P r) (Q r) 0 n;
                   P := P r; Q := Q r |}
  end.

(** [l[i] = v] for an index inside the vector. *)
Fixpoint store {A : Type} (l : list A) (i : nat) (v : A) : list A :=
  match l, i with
  | [], _ => []
  | _ :: l', O => v :: l'
  | a :: l', S i' => a :: store l' i' v
  end.

(** The decimal constants of the source are read as the compiler reads
    them, as the nearest double. *)
Set Warnings "-inexact-float".

Section Init.

(** [sin] and [cos] of the C library. *)
Variables sin cos : double -> double.

Local Open Scope float_scope.

Definition sinc (x : double) : double :=
  if x =? 0 then 1 else sin (M_PI * x) / (M_PI * x).

(** The Blackman-Harris coefficients [a[]]. *)
Definition a0 : double := 0.35875.
Definition a1 : double := 0.48829.
Definition a2 : double := 0.14128.
Definition a3 : double := 0.01168.

(** The value the loop body of [init] gives [p], for the counter [i], the
    prototype length [n] (as a double) and the cutoff. *)
Definition proto_sample (n cutoff i : double) : double :=
  let p := sinc ((i - n / 2) / cutoff) in
  p * (a0 - a1 * cos (2 * M_PI * i / n)
          + a2 * cos (4 * M_PI * i / n)
          - a3 * cos (6 * M_PI * i / n)).

(** The first loop of [init] over the [k] samples still to fill: the
    samples, and the running sum after them. *)
Fixpoint proto_loop (n cutoff : double) (k : nat) (i sum : double)
  : list double * double :=
  match k with
  | O => ([], sum)
  | S k' =>
      let p := proto_sample n cutoff i in
      let '(rest, sum') := proto_loop n cutoff k' (i + 1) (sum + p) in
      (p :: rest, sum')
  end.

(** [partitions[p][j] = v]. *)
Definition store2 (parts : list (list double)) (p j : nat) (v : double)
  : list (list double) :=
  store parts p (store (nth p parts []) j v).

(** The two nested loops that de-interleave the prototype; the index
    [j * P + p] is [unsigned]. *)
Definition proto_index (P : Z) (j p : nat) : nat :=
  Z.to_nat (wrap_unsigned (Z.of_nat j * P + Z.of_nat p)).

Definition deinterleave_row (P : Z) (proto : list double) (beta : double)
    (parts : list (list double)) (j : nat) : list (list double) :=
  fold_left
    (fun parts p => store2 parts p j (nth (proto_index P j p) proto 0 * beta))
    (seq 0 (Z.to_nat P)) parts.

Definition deinterleave (taps P : Z) (proto : list double) (beta : double)
    (parts : list (list double)) : list (list double) :=
  fold_left (deinterleave_row P proto beta) (seq 0 (Z.to_nat taps)) parts.

(** [Resampler::init(taps, cutoff)]. *)
Definition init (taps : Z) (cutoff : double) (r : Resampler) : Resampler :=
  let n := (size (partitions r) * taps)%Z in
  let '(proto, sum) := proto_loop (Z2double n) cutoff (Z.to_nat n) 0 0 in
  let beta := Z2double (size (partitions r)) / sum in
  let parts := deinterleave taps (P r) proto beta (partitions r) in
  {| partitions := map (@rev double) parts;
     paths := paths r; P := P r; Q := Q r |}.

(** [Resampler::Resampler(P, Q, taps)].  The allocations of [partitions], of
    [proto] in [init] and of [paths] in [resize] are taken to succeed. *)
Definition Resampler_ctor (P0 Q0 taps : Z) : outcome Resampler :=
  let r := {| partitions := repeat (repeat 0 (Z.to_nat taps)) (Z.to_nat P0);
              paths := []; P := P0; Q := Q0 |} in
  let r := init taps (Z2double (if (P0 >? Q0)%Z then P0 else Q0)) r in
  resize DEFAULT_PATH_LEN r.

End Init.

(** ** The derived classes: a [Resampler] and the history of the stream

    [RealResampler<T>] keeps [vector<T> history], [ComplexResampler<T>] keeps
    [vector<complex<T>> history]; [S] is the sample type of either. *)

Record Engine (S : Type) : Type := {
  base : Resampler;
  history : list S
}.

Section Constructors.

Variables sin cos : double -> double.

(** [history(taps-1)]: [taps - 1] is computed on [unsigned]; the allocation is
    taken to succeed. *)
Definition history_len (taps : Z) : nat := Z.to_nat (wrap_unsigned (taps - 1)).

Definition RealResampler_ctor (T : elem_type) (P0 Q0 taps : Z)
  : outcome (Engine (carrier T)) :=
  (r <- Resampler_ctor sin cos P0 Q0 taps ;;
   Done {| base := r; history := repeat (value_init T) (history_len taps) |})%outcome.

Definition ComplexResampler_ctor (T : elem_type) (P0 Q0 taps : Z)
  : outcome (Engine (complex T)) :=
  (r <- Resampler_ctor sin cos P0 Q0 taps ;;
   Done {| base := r;
           history := repeat (value_init T, value_init T) (history_len taps) |})%outcome.

End Constructors.

(** ** [resample] *)

Section Resample.

Context {S : Type}.

(** The [COPY_INPUT] macro: the size checks (evaluated left to right, the
    first failing one throws), the growth of the path table, the extended
    buffer [x] (history, then input), and the new history.  It yields [x]. *)
Definition COPY_INPUT (input output : list S) : method (Engine S) (list S) :=
  (e <- mget ;;
   r1 <- mlift (urem (size input) (Q (base e))) ;;
   if negb (r1 =? 0) then mthrow else
   r2 <- mlift (urem (size output) (P (base e))) ;;
   if negb (r2 =? 0) then mthrow else
   d1 <- mlift (udiv (size input) (Q (base e))) ;;
   d2 <- mlift (udiv (size output) (P (base e))) ;;
   if negb (d1 =? d2) then mthrow else
   if size input <? size (history e) then mthrow else
   (if size output >? size (paths (base e))
    then b <- mlift (resize (length output) (base e)) ;;
         mput {| base := b; history := history e |}
    else mret tt) ;;;
   e <- mget ;;
   let x := history e ++ input in
   mput {| base := base e;
           history := skipn (length input - length (history e)) input |} ;;;
   mret x)%method.

(** The outer loop of [resample]: [pi] walks the path table while [oi]
    walks the output; [kernel h xi] is the body that computes one output
    sample from the partition [h] and the position [xi] in [x]. *)
Variable kernel : list double -> list S -> outcome S.

Fixpoint convolve (parts : list (list double)) (x : list S)
    (pi : list (Z * Z)) (output : list S) {struct output} : outcome (list S) :=
  match output with
  | [] => Done []
  | _ :: output' =>
      match pi with
      | [] => Undefined
      | (first, second) :: pi' =>
          (h <- vec_at parts second ;;
           xi <- advance x first ;;
           v <- kernel h xi ;;
           rest <- convolve parts x pi' output' ;;
           Done (v :: rest))%outcome
      end
  end.

Definition resample_with (input output : list S) : method (Engine S) (list S) :=
  (x <- COPY_INPUT input output ;;
   e <- mget ;;
   mlift (convolve (partitions (base e)) x (paths (base e)) output))%method.

End Resample.

Section Kernels.

Variable T : elem_type.

Local Open Scope float_scope.

(** Inner loop of [RealResampler<T>::resample]: [hi] walks the partition,
    [xii] walks [x]. *)
Fixpoint real_accumulate (h : list double) (xii : list (carrier T))
    (accum : double) : outcome double :=
  match h with
  | [] => Done accum
  | hi :: h' =>
      match xii with
      | [] => Undefined
      | xv :: xii' => real_accumulate h' xii' (accum + hi * to_double T xv)
      end
  end.

Definition narrow (a : double) : outcome (carrier T) :=
  match of_double T a with Some v => Done v | None => Undefined end.

Definition real_kernel (h : list double) (xi : list (carrier T))
  : outcome (carrier T) :=
  (accum <- real_accumulate h xi 0 ;;
   narrow (saturate T accum))%outcome.

(** Inner loop of [ComplexResampler<T>::resample]; the accumulator is a
    [complex<double>]. *)
Fixpoint complex_accumulate (h : list double) (xii : list (complex T))
    (accum : double * double) : outcome (double * double) :=
  match h with
  | [] => Done accum
  | hi :: h' =>
      match xii with
      | [] => Undefined
      | xv :: xii' =>
          complex_accumulate h' xii'
            (fst accum + hi * to_double T (fst xv),
             snd accum + hi * to_double T (snd xv))
      end
  end.

Definition complex_kernel (h : list double) (xi : list (complex T))
  : outcome (complex T) :=
  (accum <- complex_accumulate h xi (0, 0) ;;
   re <- narrow (saturate T (fst accum)) ;;
   im <- narrow (saturate T (snd accum)) ;;
   Done (re, im))%outcome.

Definition RealResampler_resample (input output : list (carrier T))
  : method (Engine (carrier T)) (list (carrier T)) :=
  resample_with real_kernel input output.

Definition ComplexResampler_resample (input output : list (complex T))
  : method (Engine (complex T)) (list (complex T)) :=
  resample_with complex_kernel input output.

End Kernels.

Arguments complex_accumulate : clear implicits.
Arguments complex_kernel : clear implicits.
Arguments ComplexResampler_resample : clear implicits.

(** ** The words of the specification

    The contiguous window of the extended buffer and the dot product
    accumulated on doubles from 0.0, first tap first. *)

Definition window {A : Type} (x : list A) (offset : Z) (taps : Z) : list A :=
  firstn (Z.to_nat taps) (skipn (Z.to_nat offset) x).

Definition dot_product (h w : list double) : double :=
  fold_left (fun acc hx => (acc + fst hx * snd hx)%float) (combine h w) 0%float.

(** One output sample of the real and of the complex resampler, from the
    partition and the window: accumulate, saturate (integral [T] only),
    convert to [T]; [None] where the conversion is undefined. *)
Definition real_sample (T : elem_type) (h : list double) (w : list (carrier T))
  : option (carrier T) :=
  of_double T (saturate T (dot_product h (map (to_double T) w))).

Definition complex_sample (T : elem_type) (h : list double) (w : list (complex T))
  : option (complex T) :=
  match of_double T (saturate T (dot_product h (map (fun s => to_double T (fst s)) w))),
        of_double T (saturate T (dot_product h (map (fun s => to_double T (snd s)) w)))
  with
  | Some re, Some im => Some (re, im)
  | _, _ => None
  end.

Arguments real_sample : clear implicits.
Arguments complex_sample : clear implicits.

(** The size checks of [COPY_INPUT] as one test: the call is accepted. *)
Definition accepts {S : Type} (e : Engine S) (input output : list S) : bool :=
  (size input mod Q (base e) =? 0) && (size output mod P (base e) =? 0)
  && (size input / Q (base e) =? size output / P (base e))
  && (size (history e) <=? size input).

(** The invariant of an engine built for [taps] taps per partition: the ratio
    is positive, there are [P] partitions of [taps] coefficients, the history
    holds [taps - 1] samples, and the path table is what [resize] filled. *)
Definition table_ok (r : Resampler) : Prop :=
  paths r = resize_loop (P r) (Q r) 0 (length (paths r)).

Record well_formed {S : Type} (taps : Z) (e : Engine S) : Prop := {
  wf_P : 0 < P (base e) < 2 ^ UINT_BITS;
  wf_Q : 0 < Q (base e) < 2 ^ UINT_BITS;
  wf_taps : 0 < taps < 2 ^ UINT_BITS;
  wf_partitions : size (partitions (base e)) = P (base e);
  wf_partition : Forall (fun h => size h = taps) (partitions (base e));
  wf_history : size (history e) = taps - 1;
  wf_table : table_ok (base e)
}.

(** Two engines that differ at most in how far the path table is filled. *)
Definition same_stream {S : Type} (e e' : Engine S) : Prop :=
  partitions (base e) = partitions (base e') /\ P (base e) = P (base e')
  /\ Q (base e) = Q (base e') /\ history e = history e'.

(** ** Definitions for the statements and the proofs *)

(** The outcomes of a sequence of steps, run in order. *)
Fixpoint collect {A : Type} (steps : list (outcome A)) : outcome (list A) :=
  match steps with
  | [] => Done []
  | s :: rest => (v <- s ;; vs <- collect rest ;; Done (v :: vs))%outcome
  end.

(** An optional value as an outcome: none is undefined behaviour. *)
Definition of_option {A : Type} (o : option A) : outcome A :=
  match o with Some v => Done v | None => Undefined end.

(** A kernel computes [sample] on the first [length h] samples at [xi], and
    reads past the end of [x] when fewer are left. *)
Definition kernel_of {S : Type} (sample : list double -> list S -> option S)
    (kernel : list double -> list S -> outcome S) : Prop :=
  forall h xi,
    kernel h xi
    = if (length h <=? length xi)%nat
      then of_option (sample h (firstn (length h) xi))
      else Undefined.

(** The path table after the growth step of [COPY_INPUT]. *)
Definition grow (n : nat) (r : Resampler) : Resampler :=
  if Z.of_nat n >? size (paths r)
  then {| partitions := partitions r;
          paths := resize_loop (P r) (Q r) 0 n;
          P := P r; Q := Q r |}
  else r.

Section Turns.

Context {S : Type}.
Variable kernel : list double -> list S -> outcome S.

(** One turn of the outer loop, for the path entry [entry]. *)
Definition sample_at (parts : list (list double)) (x : list S) (entry : Z * Z)
  : outcome S :=
  (h <- vec_at parts (snd entry) ;;
   xi <- advance x (fst entry) ;;
   kernel h xi)%outcome.

(** The engine a successful call leaves. *)
Definition after_call (e : Engine S) (input output : list S) : Engine S :=
  {| base := grow (length output) (base e);
     history := skipn (length input - length (history e)) input |}.

(** The outputs of a call are the turns for the entries of 0, 1, ... *)
Definition turns (e : Engine S) (input : list S) (n : nat) : list (outcome S) :=
  map (fun k => sample_at (partitions (base e)) (history e ++ input)
                  (path_entry (P (base e)) (Q (base e)) (Z.of_nat k)))
      (seq 0 n).

(** A caller that feeds the blocks one call after the other, each with its
    own output vector, and concatenates what the calls write. *)
Fixpoint feed (calls : list (list S * list S)) : method (Engine S) (list S) :=
  match calls with
  | [] => mret []
  | (input, output) :: rest =>
      (o <- resample_with kernel input output ;;
       os <- feed rest ;;
       mret (o ++ os))%method
  end.

End Turns.

(** The four preconditions of [resample], in the words of the
    specification. *)
Definition preconditions {S : Type} (taps : Z) (e : Engine S) (input output : list S) : Prop :=
  size input mod Q (base e) = 0
  /\ size output mod P (base e) = 0
  /\ size input / Q (base e) = size output / P (base e)
  /\ taps - 1 <= size input.

(** The conversion that ends a turn is defined for every accumulated value. *)
Definition narrowing_defined (T : elem_type) : Prop :=
  forall a : double, exists v, of_double T (saturate T a) = Some v.

(** A rectangular table: [rows] rows of [cols] coefficients. *)
Definition rect (rows cols : nat) (parts : list (list double)) : Prop :=
  length parts = rows /\ forall p, (p < rows)%nat -> length (nth p parts []) = cols.

(** Coefficient [j] of partition [p]. *)
Definition cell (parts : list (list double)) (p j : nat) : double :=
  nth j (nth p parts []) 0%float.

(** The inner loop over [ps], writing [g p] at row [p], column [j]. *)
Definition fill_column (g : nat -> double) (j : nat) (ps : list nat)
    (parts : list (list double)) : list (list double) :=
  fold_left (fun parts p => store2 parts p j (g p)) ps parts.

(** The outer loop over the columns [js]. *)
Definition fill (g : nat -> nat -> double) (ps js : list nat)
    (parts : list (list double)) : list (list double) :=
  fold_left (fun parts j => fill_column (g j) j ps parts) js parts.

(** The value of the loop counter [i] of [init] after [m] increments from
    [i0]. *)
Definition count_from (i0 : double) (m : nat) : double :=
  Nat.iter m (fun v => (v + 1)%float) i0.

(** The counter holds every index below [n] exactly (binary64 does, below
    [2^53]). *)
Definition counting_exact (n : nat) : Prop :=
  forall k, (k < n)%nat -> count_from 0%float k = Z2double (Z.of_nat k).

Section Prototype.

Variables sin cos : double -> double.

Local Open Scope float_scope.

(** The prototype and its sum, as the first loop of [init] leaves them. *)
Definition proto_of (n : Z) (cutoff : double) : list double :=
  map (fun m => proto_sample sin cos (Z2double n) cutoff (count_from 0%float m))
    (seq 0 (Z.to_nat n)).

End Prototype.

(** ** Engines and inputs of the examples

    The examples run the model on small engines written out in full, with
    the path table [resize] fills. *)

(** Stand-ins for the C library's [sin] and [cos] in the examples that build
    an engine with the constructor (the statements hold for any functions):
    the Taylor polynomials of degree 7 and 6. *)
Definition taylor_sin (x : double) : double :=
  (x - x * x * x / 6 + x * x * x * x * x / 120 - x * x * x * x * x * x * x / 5040)%float.

Definition taylor_cos (x : double) : double :=
  (1 - x * x / 2 + x * x * x * x / 24 - x * x * x * x * x * x / 720)%float.

(** Two partitions of two taps, ratio 2/3. *)
Definition demo_base : Resampler := {|
  partitions := [[0.25; 0.5]; [0.75; 0.125]]%float;
  paths := resize_loop 2 3 0 8;
  P := 2;
  Q := 3
|}.

Definition demo_real : Engine Z := {| base := demo_base; history := [7] |}.

Definition demo_complex : Engine (Z * Z) := {| base := demo_base; history := [(7, -7)] |}.

(** An engine with five taps per partition, ratio 2/3. *)
Definition demo_long : Engine Z := {|
  base := {| partitions := [[0.125; 0.25; 0.5; 0.25; 0.125];
                            [0.0625; 0.125; 0.25; 0.5; 0.25]]%float;
             paths := resize_loop 2 3 0 8; P := 2; Q := 3 |};
  history := [0; 0; 0; 0]
|}.

(** Engines with one partition of one tap, of gain 1, ratio 1/1. *)
Definition unit_engine : Engine Z := {|
  base := {| partitions := [[1%float]]; paths := resize_loop 1 1 0 128; P := 1; Q := 1 |};
  history := []
|}.

Definition unit_complex_engine : Engine (Z * Z) := {|
  base := {| partitions := [[1%float]]; paths := resize_loop 1 1 0 128; P := 1; Q := 1 |};
  history := []
|}.

(** A decimator by [2^30], one tap. *)
Definition decimator : Engine Z := {|
  base := {| partitions := [[1%float]]; paths := resize_loop 1 1073741824 0 128;
             P := 1; Q := 1073741824 |};
  history := []
|}.

(** ** Further definitions for the statements *)

(** A finite double: neither an infinity nor a NaN. *)
Definition finite (d : double) : bool :=
  match Prim2SF d with
  | S754_zero _ | S754_finite _ _ _ => true
  | S754_infinity _ | S754_nan => false
  end.

(** The element types main.cpp instantiates the two templates with. *)
Definition element_types : list elem_type :=
  [t_double; t_float; t_long; t_int; t_short; t_char].

(** The real and the imaginary parts of a complex engine: the same base,
    the history taken componentwise. *)
Definition real_part (T : elem_type) (e : Engine (complex T)) : Engine (carrier T) :=
  {| base := base e; history := map fst (history e) |}.

Definition imag_part (T : elem_type) (e : Engine (complex T)) : Engine (carrier T) :=
  {| base := base e; history := map snd (history e) |}.

Arguments real_part : clear implicits.
Arguments imag_part : clear implicits.

(** ** The command-line front end (main.cpp)

    The program reads the input file block by block into a vector of
    samples, resamples each block and writes the output vector.
    Conventions.
    - The options are taken as [handle_options] leaves them in
      [resample_args] once [getopt_long] has parsed the command line; both
      files are taken to open.
    - A file is the list of its bytes; a vector that [read] fills is kept as
      the bytes of its samples, [type_sz] bytes each, and [decode] gives the
      samples those bytes hold.
    - The [while] loop runs on fuel: [None] means that the fuel ran out. *)

Module Main.

Definition BLOCKSIZE : Z := 4096.

Record resample_args : Type := {
  infile : string;
  outfile : string;
  type : string;
  p : Z;
  q : Z
}.

(** [sample_type_map]: the description and the size in bytes of a sample,
    for each type name ([long] has 64 bits). *)
Definition sample_type_map : list (string * (string * Z)) :=
  [("fc64", ("complex double", 16)); ("fc32", ("complex float", 8));
   ("sc64", ("complex long", 16)); ("sc32", ("complex int", 8));
   ("sc16", ("complex short", 4)); ("sc8", ("complex char", 2));
   ("f64", ("double", 8)); ("f32", ("float", 4));
   ("s64", ("long", 8)); ("s32", ("int", 4));
   ("s16", ("short", 2)); ("s8", ("char", 1))]%string.

(** [sample_type_map.count(type)]. *)
Definition count (type : string) : bool :=
  existsb (fun entry => String.eqb (fst entry) type) sample_type_map.

(** [sample_type_map[type].second]: a missing key is inserted with the
    size 0. *)
Definition type_size (type : string) : Z :=
  match find (fun entry => String.eqb (fst entry) type) sample_type_map with
  | Some entry => snd (snd entry)
  | None => 0
  end.

(** The checks that end [handle_options]: both file names, a non-zero [p]
    and [q], a known type. *)
Definition handle_options (args : resample_args) : bool :=
  if String.eqb (infile args) "" || String.eqb (outfile args) ""
     || (p args =? 0) || (q args =? 0)
  then false
  else count (type args).

(** [int * int], undefined when the product leaves [int]; [int / int] and
    [long / int], truncated toward zero and undefined for a zero divisor. *)
Definition int_mul (a b : Z) : outcome Z :=
  if in_int_range 32 (a * b) then Done (a * b) else Undefined.

Definition int_div (a b : Z) : outcome Z :=
  if b =? 0 then Undefined else Done (Z.quot a b).

(** [int blk_sz = type_sz * args.q]: the product is [unsigned]. *)
Definition blk_sz (type_sz q : Z) : Z := to_int (wrap_unsigned (type_sz * q)).

(** [int n_blks = blk_sz > BLOCKSIZE ? 1 : BLOCKSIZE / blk_sz]. *)
Definition n_blks_init (blk : Z) : outcome Z :=
  if blk >? BLOCKSIZE then Done 1 else int_div BLOCKSIZE blk.

(** [std::ifstream]: the bytes not read yet and the end-of-file flag. *)
Record ifstream : Type := {
  unread : list Byte.byte;
  eofbit : bool
}.

(** [istr.read(buf, n)] on a good stream: the bytes read, [gcount()] many,
    are the next [n] bytes or all that is left; the flag is set when fewer
    than [n] were left. *)
Definition read (n : Z) (s : ifstream) : list Byte.byte * ifstream :=
  let got := firstn (Z.to_nat n) (unread s) in
  (got, {| unread := skipn (Z.to_nat n) (unread s);
           eofbit := eofbit s || (size got <? n) |}).

(** [v.resize(n)]: the first [n] elements, padded with value-initialised
    ones. *)
Definition vector_resize {A : Type} (n : Z) (a : A) (v : list A) : list A :=
  firstn (Z.to_nat n) v ++ repeat a (Z.to_nat n - length v).

(** What the lambda [run_resampler] works on: the variables of [main] it
    captures by reference, and its three parameters. *)
Record Run (S : Type) : Type := {
  istr : ifstream;
  ostr : list S;
  n_wr : Z;
  n_blks : Z;
  resampler : Engine S;
  input : list Byte.byte;
  output : list S
}.

Section RunResampler.

Context {S : Type}.

(** [resampler.resample] is [resample_with kernel]; [zero] is the
    value-initialised sample. *)
Variable kernel : list double -> list S -> outcome S.
Variable decode : list Byte.byte -> list S.
Variable zero : S.
Variables type_sz p q : Z.

(** [resampler.resample(input, output); ostr.write(...); n_wr +=
    output.size();] on the state [s2]: the output vector holds the samples
    the call returns. *)
Definition resample_and_write (s2 : Run S) : outcome bool * Run S :=
  match resample_with kernel (decode (input s2)) (output s2) (resampler s2) with
  | (Done res, e) =>
      (Done true,
       {| istr := istr s2; ostr := ostr s2 ++ res; n_wr := n_wr s2 + size res;
          n_blks := n_blks s2; resampler := e;
          input := input s2; output := res |})
  | (InvalidArgument, e) =>
      (InvalidArgument,
       {| istr := istr s2; ostr := ostr s2; n_wr := n_wr s2; n_blks := n_blks s2;
          resampler := e; input := input s2; output := output s2 |})
  | (Undefined, e) => (Undefined, s2)
  end.

(** The body of the [while] loop: [true] to go on, [false] after [break].
    [input.size() * type_sz] is the number of bytes of [input]. *)
Definition loop_body (s : Run S) : outcome bool * Run S :=
  let blk := blk_sz type_sz q in
  let '(got, istr') := read (size (input s)) (istr s) in
  let n_rd := size got in
  let s1 := {| istr := istr'; ostr := ostr s; n_wr := n_wr s; n_blks := n_blks s;
               resampler := resampler s;
               input := got ++ skipn (length got) (input s);
               output := output s |} in
  match int_mul (n_blks s1) blk with
  | Done full =>
      if negb (n_rd =? full) then
        if n_rd <? blk then (Done false, s1)
        else
          match int_div n_rd blk with
          | Done d =>
              let n := to_int (wrap_unsigned d) in
              resample_and_write
                {| istr := istr s1; ostr := ostr s1; n_wr := n_wr s1; n_blks := n;
                   resampler := resampler s1;
                   input := vector_resize (wrap_unsigned (n * q) * type_sz) Byte.x00
                              (input s1);
                   output := vector_resize (wrap_unsigned (n * p)) zero (output s1) |}
          | InvalidArgument => (InvalidArgument, s1)
          | Undefined => (Undefined, s1)
          end
      else resample_and_write s1
  | InvalidArgument => (InvalidArgument, s1)
  | Undefined => (Undefined, s1)
  end.

(** [while (!istr.eof()) { ... }]. *)
Fixpoint run_resampler (fuel : nat) (s : Run S) : option (outcome unit * Run S) :=
  match fuel with
  | O => None
  | Datatypes.S fuel' =>
      if eofbit (istr s) then Some (Done tt, s)
      else
        match loop_body s with
        | (Done true, s') => run_resampler fuel' s'
        | (Done false, s') => Some (Done tt, s')
        | (InvalidArgument, s') => Some (InvalidArgument, s')
        | (Undefined, s') => Some (Undefined, s')
        end
  end.

(** The call of the lambda in [RUN_REAL_RESAMPLER] and
    [RUN_COMPLEX_RESAMPLER], on the engine [e] just constructed and two
    vectors of [n_blks * q] and [n_blks * p] samples; [file] is what the
    input file holds. *)
Definition start (n : Z) (e : Engine S) (file : list Byte.byte) : Run S :=
  {| istr := {| unread := file; eofbit := false |};
     ostr := [];
     n_wr := 0;
     n_blks := n;
     resampler := e;
     input := repeat Byte.x00 (Z.to_nat (wrap_unsigned (n * q) * type_sz));
     output := repeat zero (Z.to_nat (wrap_unsigned (n * p))) |}.

End RunResampler.

(** What a run leaves: the samples written, their number [n_wr] as
    [print_done] reports it, and whether the [catch] clause printed the
    message of an exception. *)
Record Report (S : Type) : Type := {
  written : list S;
  count_written : Z;
  message : bool
}.

Section Macros.

Variables sin cos : double -> double.
Variable T : elem_type.
Variables type_sz p q n : Z.

(** [try { run_resampler(RealResampler<T>(args.p, args.q), ...); }
    catch (exception &e) { cout << e.what() << endl; }]; the number of taps
    is the default of the header, 128. *)
Definition RUN_REAL_RESAMPLER (decode : list Byte.byte -> list (carrier T))
    (fuel : nat) (file : list Byte.byte) : option (outcome (Report (carrier T))) :=
  match RealResampler_ctor sin cos T p q 128 with
  | Done e =>
      match run_resampler (real_kernel T) decode (value_init T) type_sz p q fuel
              (start (value_init T) type_sz p q n e file) with
      | None => None
      | Some (Done _, s) =>
          Some (Done {| written := ostr s; count_written := n_wr s; message := false |})
      | Some (InvalidArgument, s) =>
          Some (Done {| written := ostr s; count_written := n_wr s; message := true |})
      | Some (Undefined, _) => Some Undefined
      end
  | InvalidArgument => Some InvalidArgument
  | Undefined => Some Undefined
  end.

(** The same for [ComplexResampler<T>], whose default is 384 taps. *)
Definition RUN_COMPLEX_RESAMPLER (decode : list Byte.byte -> list (complex T))
    (fuel : nat) (file : list Byte.byte) : option (outcome (Report (complex T))) :=
  match ComplexResampler_ctor sin cos T p q 384 with
  | Done e =>
      match run_resampler (complex_kernel T) decode (value_init T, value_init T)
              type_sz p q fuel
              (start (S := complex T) (value_init T, value_init T)
                 type_sz p q n e file) with
      | None => None
      | Some (Done _, s) =>
          Some (Done {| written := ostr s; count_written := n_wr s; message := false |})
      | Some (InvalidArgument, s) =>
          Some (Done {| written := ostr s; count_written := n_wr s; message := true |})
      | Some (Undefined, _) => Some Undefined
      end
  | InvalidArgument => Some InvalidArgument
  | Undefined => Some Undefined
  end.

End Macros.

Arguments RUN_REAL_RESAMPLER : clear implicits.
Arguments RUN_COMPLEX_RESAMPLER : clear implicits.

(** How [main] ends: with the usage text and the status -1 when
    [handle_options] fails, or after a run, with the number of samples
    [print_done] reports and whether an exception was reported. *)
Inductive exit : Type :=
| Usage
| Wrote (n_wr : Z) (message : bool).

Section MainFunction.

Variables sin cos : double -> double.

(** The samples the bytes of a vector hold, for a vector of [T] and for a
    vector of [complex<T>]. *)
Variable decode : forall T : elem_type, list Byte.byte -> list (carrier T).
Variable decode_complex : forall T : elem_type, list Byte.byte -> list (complex T).

Definition wrote {S : Type} (r : option (outcome (Report S))) : option (outcome exit) :=
  match r with
  | None => None
  | Some (Done report) => Some (Done (Wrote (count_written report) (message report)))
  | Some InvalidArgument => Some InvalidArgument
  | Some Undefined => Some Undefined
  end.

(** [main], from the call of [handle_options] on. *)
Definition main (args : resample_args) (fuel : nat) (file : list Byte.byte)
  : option (outcome exit) :=
  if negb (handle_options args) then Some (Done Usage)
  else
    let type_sz := type_size (type args) in
    let blk := blk_sz type_sz (q args) in
    match n_blks_init blk with
    | Done n =>
        let run_complex (T : elem_type) :=
          wrote (RUN_COMPLEX_RESAMPLER sin cos T type_sz (p args) (q args) n
                   (decode_complex T) fuel file) in
        let run_real (T : elem_type) :=
          wrote (RUN_REAL_RESAMPLER sin cos T type_sz (p args) (q args) n
                   (decode T) fuel file) in
        if String.eqb (type args) "fc64" then run_complex t_double
        else if String.eqb (type args) "fc32" then run_complex t_float
        else if String.eqb (type args) "sc64" then run_complex t_long
        else if String.eqb (type args) "sc32" then run_complex t_int
        else if String.eqb (type args) "sc16" then run_complex t_short
        else if String.eqb (type args) "sc8" then run_complex t_char
        else if String.eqb (type args) "f64" then run_real t_double
        else if String.eqb (type args) "f32" then run_real t_float
        else if String.eqb (type args) "s64" then run_real t_long
        else if String.eqb (type args) "s32" then run_real t_int
        else if String.eqb (type args) "s16" then run_real t_short
        else if String.eqb (type args) "s8" then run_real t_char
        else Some (Done (Wrote 0 false))
    | InvalidArgument => Some InvalidArgument
    | Undefined => Some Undefined
    end.

End MainFunction.

End Main.

(** What holds of the state of a run where the loop tests [eof], before the
    end of the file is met: [n_blks] still has its first value [N], the
    vectors hold [N] blocks, and the engine satisfies its invariant. *)
Record at_head {S : Type} (taps type_sz p q N : Z) (s : Main.Run S) : Prop := {
  head_eof : Main.eofbit (Main.istr s) = false;
  head_blks : Main.n_blks s = N;
  head_input : size (Main.input s) = N * (type_sz * q);
  head_output : size (Main.output s) = wrap_unsigned (N * p);
  head_engine : well_formed taps (Main.resampler s);
  head_P : P (base (Main.resampler s)) = p;
  head_Q : Q (base (Main.resampler s)) = q
}.

(** The samples a vector of [char] holds, from its bytes: one byte each,
    read as a signed number. *)
Definition decode_char : list Byte.byte -> list Z :=
  map (fun b => let n := Z.of_N (Byte.to_N b) in if n <? 128 then n else n - 256).

Definition demo_double : Engine (carrier t_double) :=
  {| base := demo_base; history := [7%float] |}.

(** ** The wrap of the path table, the filter of C4, constructed examples *)

(** Output index [i] is below the wrap of [resize]: the product [Q * i]
    fits 32 bits, and the quotient and the remainder by [P] fit an [int]. *)
Definition no_wrap (P Q i : Z) : Prop :=
  Q * i < 2 ^ 32 /\ Q * i / P < 2 ^ 31 /\ (Q * i) mod P < 2 ^ 31.

(** Stand-ins for the C library's [sin] and [cos] that are accurate to a few
    units in the last place on the arguments [init] passes: the argument is
    brought into [-pi, pi] by steps of [2 pi], and the Taylor series is
    summed to degree 31. *)
Fixpoint reduce (steps : nat) (x : double) : double :=
  match steps with
  | O => x
  | S k => if (M_PI <? x)%float then reduce k (x - 2 * M_PI)%float
           else if (x <? - M_PI)%float then reduce k (x + 2 * M_PI)%float
           else x
  end.

(** [n] terms of the alternating series from [term], of degree [d]; the next
    term is [- term * x2 / ((d + 1) (d + 2))]. *)
Fixpoint series (n : nat) (x2 d term acc : double) : double :=
  match n with
  | O => acc
  | S k => series k x2 (d + 2)%float (- term * x2 / ((d + 1) * (d + 2)))%float
             (acc + term)%float
  end.

Definition series_sin (x : double) : double :=
  let r := reduce 8 x in series 16 (r * r)%float 1%float r 0%float.

Definition series_cos (x : double) : double :=
  let r := reduce 8 x in series 16 (r * r)%float 0%float 1%float 0%float.

(** The inputs of the examples on the wrap, for the ratio 256/256 with
    one tap: [2^24] ones followed by 256 twos, so that output [2^24] has
    [Q * i = 2^32]. *)
Definition ones : list (carrier t_double) := repeat 1%float (Z.to_nat 16777216).
Definition twos : list (carrier t_double) := repeat 2%float (Z.to_nat 256).

(** One turn of the check that the double counter [i] of [init] holds its
    index: the index as a machine integer, the counter, and whether the two
    agreed so far. *)
Definition counting_step (s : PrimInt63.int * double * bool)
  : PrimInt63.int * double * bool :=
  let '(i, v, ok) := s in
  (Uint63.add i (Uint63.of_Z 1), (v + 1)%float,
   ok && PrimFloat.Leibniz.eqb v (PrimFloat.of_uint63 i)).

Definition counts_exactly (n : positive) : bool :=
  snd (Pos.iter counting_step (Uint63.of_Z 0, 0%float, true) n).

Section FilterWords.

Variables sin cos : double -> double.

Local Open Scope float_scope.

(** The words of C4 on doubles, written without the definitions of the
    model: [pi], [sinc(0) = 1] and [sinc(x) = sin(pi x) / (pi x)]
    otherwise, and the 4-term Blackman-Harris window at index [i] of [n]. *)
Definition spec_pi : double := 3.14159265358979323846.

Definition spec_sinc (x : double) : double :=
  if x =? 0 then 1 else sin (spec_pi * x) / (spec_pi * x).

Definition blackman_harris (n i : double) : double :=
  0.35875 - 0.48829 * cos (2 * spec_pi * i / n)
          + 0.14128 * cos (4 * spec_pi * i / n)
          - 0.01168 * cos (6 * spec_pi * i / n).

(** Prototype sample [i] of the filter for [(P, Q, taps)]:
    [sinc((i - N/2) / max(P, Q))] times the window, [N = P * taps]. *)
Definition prototype (P0 Q0 taps i : Z) : double :=
  let n := Z2double (P0 * taps) in
  spec_sinc ((Z2double i - n / 2) / Z2double (Z.max P0 Q0))
  * blackman_harris n (Z2double i).

(** The sum of the [N] samples, added in order from 0.0, and the
    normalisation [beta = P / sum]. *)
Definition prototype_sum (P0 Q0 taps : Z) : double :=
  fold_left PrimFloat.add
    (map (fun k => prototype P0 Q0 taps (Z.of_nat k)) (seq 0 (Z.to_nat (P0 * taps)))) 0.

Definition beta (P0 Q0 taps : Z) : double := Z2double P0 / prototype_sum P0 Q0 taps.

End FilterWords.

(** ** Machine integers: facts *)

Lemma wrap_unsigned_small (z : Z) : 0 <= z < 2 ^ UINT_BITS -> wrap_unsigned z = z.
Proof. intros H. unfold wrap_unsigned. apply Z.mod_small. exact H. Qed.

Lemma wrap_unsigned_range (z : Z) : 0 <= wrap_unsigned z < 2 ^ UINT_BITS.
Proof. unfold wrap_unsigned. apply Z.mod_pos_bound. reflexivity. Qed.

Lemma to_int_small (u : Z) : u < 2 ^ (UINT_BITS - 1) -> to_int u = u.
Proof.
  intros H. unfold to_int. destruct (Z.ltb_spec u (2 ^ (UINT_BITS - 1))); [reflexivity | lia].
Qed.

Lemma path_entry_wrap (p q a b : Z) :
  path_entry p q (wrap_unsigned a + b) = path_entry p q (a + b).
Proof.
  unfold path_entry, wrap_unsigned.
  replace ((q * (a mod 2 ^ UINT_BITS + b)) mod 2 ^ UINT_BITS)
    with ((q * (a + b)) mod 2 ^ UINT_BITS); [reflexivity |].
  rewrite (Z.mul_mod (q) (a mod 2 ^ UINT_BITS + b)) by (cbv; discriminate).
  rewrite Zplus_mod_idemp_l.
  rewrite <- Z.mul_mod by (cbv; discriminate). reflexivity.
Qed.

(** Below [2^31] nothing wraps: the entry is the mathematical pair. *)
Lemma path_entry_exact (p q i : Z) :
  0 < p -> 0 <= q * i < 2 ^ (UINT_BITS - 1) ->
  path_entry p q i = (q * i / p, (q * i) mod p).
Proof.
  intros Hp Hqi. unfold path_entry.
  assert (Hpow : 2 ^ (UINT_BITS - 1) < 2 ^ UINT_BITS) by reflexivity.
  rewrite wrap_unsigned_small by lia.
  assert (0 <= q * i / p <= q * i).
  { split; [apply Z.div_pos; lia |]. apply Z.div_le_upper_bound; nia. }
  assert (0 <= (q * i) mod p < p) by (apply Z.mod_pos_bound; lia).
  assert ((q * i) mod p <= q * i) by (apply Z.mod_le; lia).
  rewrite !to_int_small by lia. reflexivity.
Qed.

Lemma resize_loop_length (p q i : Z) (n : nat) : length (resize_loop p q i n) = n.
Proof. revert i. induction n as [| n IH]; intros i; simpl; [reflexivity | now rewrite IH]. Qed.

Lemma resize_loop_nth (p q : Z) (n : nat) : forall (i : Z) (k : nat),
  (k < n)%nat ->
  nth_error (resize_loop p q i n) k = Some (path_entry p q (i + Z.of_nat k)).
Proof.
  induction n as [| n IH]; intros i k Hk; [lia |].
  destruct k as [| k]; simpl.
  - now rewrite Z.add_0_r.
  - rewrite IH by lia. rewrite path_entry_wrap. f_equal. f_equal. lia.
Qed.

(** The table of [n] entries is the sequence of the entries of 0, 1, ... *)
Lemma resize_loop_map (p q : Z) (n : nat) :
  resize_loop p q 0 n = map (fun k => path_entry p q (Z.of_nat k)) (seq 0 n).
Proof.
  apply nth_error_ext. intros k.
  destruct (Nat.lt_ge_cases k n) as [Hk | Hk].
  - rewrite resize_loop_nth by exact Hk.
    rewrite nth_error_map, nth_error_seq.
    destruct (Nat.ltb_spec k n); [reflexivity | lia].
  - transitivity (@None (Z * Z)).
    + apply nth_error_None. rewrite resize_loop_length. exact Hk.
    + symmetry. apply nth_error_None. rewrite length_map, length_seq. exact Hk.
Qed.

Lemma resize_loop_firstn (p q : Z) (n m : nat) :
  (n <= m)%nat -> firstn n (resize_loop p q 0 m) = resize_loop p q 0 n.
Proof.
  intros H. rewrite !resize_loop_map, firstn_map. f_equal.
  replace m with (n + (m - n))%nat by lia.
  rewrite seq_app, firstn_app, length_seq, Nat.sub_diag, firstn_O, app_nil_r.
  apply firstn_all2. rewrite length_seq. lia.
Qed.

(** ** Outcomes: facts *)

Lemma obind_Done_r {A : Type} (o : outcome A) : obind o Done = o.
Proof. destruct o; reflexivity. Qed.

Lemma collect_app {A : Type} (a b : list (outcome A)) :
  collect (a ++ b)
  = (va <- collect a ;; vb <- collect b ;; Done (va ++ vb))%outcome.
Proof.
  induction a as [| s a IH]; simpl.
  - now rewrite obind_Done_r.
  - destruct s as [v | |]; simpl; try reflexivity.
    rewrite IH. destruct (collect a); simpl; try reflexivity.
    destruct (collect b); reflexivity.
Qed.

Lemma collect_Done_length {A : Type} (l : list (outcome A)) (vs : list A) :
  collect l = Done vs -> length vs = length l.
Proof.
  revert vs. induction l as [| s l IH]; simpl; intros vs H.
  - now inversion H.
  - destruct s as [v | |]; simpl in H; try discriminate.
    destruct (collect l) as [ws | |]; simpl in H; try discriminate.
    inversion H; subst. simpl. f_equal. now apply IH.
Qed.

Lemma collect_Done_nth {A : Type} (l : list (outcome A)) (vs : list A) :
  collect l = Done vs ->
  forall (i : nat) (s : outcome A), nth_error l i = Some s ->
  exists v, s = Done v /\ nth_error vs i = Some v.
Proof.
  revert vs. induction l as [| s0 l IH]; simpl; intros vs H i s Hi.
  - destruct i; discriminate.
  - destruct s0 as [v | |]; simpl in H; try discriminate.
    destruct (collect l) as [ws | |] eqn:E; simpl in H; try discriminate.
    inversion H; subst. destruct i as [| i]; simpl in *.
    + inversion Hi; subst. now exists v.
    + now apply (IH ws eq_refl i s).
Qed.

Lemma collect_all_Done {A : Type} (l : list (outcome A)) (vs : list A) :
  l = map Done vs -> collect l = Done vs.
Proof.
  intros ->. induction vs as [| v vs IH]; simpl; [reflexivity | now rewrite IH].
Qed.

Lemma collect_not_thrown {A : Type} (l : list (outcome A)) :
  Forall (fun s => s <> InvalidArgument) l -> collect l <> InvalidArgument.
Proof.
  induction 1 as [| s l Hs Hl IH]; simpl; [discriminate |].
  destruct s as [v | |]; simpl; try congruence.
  destruct (collect l); simpl; congruence.
Qed.

(** ** The loops of [resample]: facts *)

Section ConvolveFacts.

Context {S : Type}.
Variable kernel : list double -> list S -> outcome S.

Lemma convolve_collect (parts : list (list double)) (x : list S) :
  forall (output : list S) (pi : list (Z * Z)),
  (length output <= length pi)%nat ->
  convolve kernel parts x pi output
  = collect (map (sample_at kernel parts x) (firstn (length output) pi)).
Proof.
  induction output as [| o output IH]; intros pi Hlen; [simpl; reflexivity |].
  destruct pi as [| [first second] pi]; simpl in Hlen; [lia |].
  simpl. unfold sample_at at 1. simpl.
  destruct (vec_at parts second) as [h | |]; simpl; try reflexivity.
  destruct (advance x first) as [xi | |]; simpl; try reflexivity.
  destruct (kernel h xi); simpl; try reflexivity.
  now rewrite IH by lia.
Qed.

(** Past the end of the path table the loop reads outside it. *)
Lemma convolve_short_table (parts : list (list double)) (x : list S) :
  forall (output : list S) (pi : list (Z * Z)) (res : list S),
  convolve kernel parts x pi output = Done res ->
  (length output <= length pi)%nat.
Proof.
  induction output as [| o output IH]; intros pi res H; simpl; [lia |].
  destruct pi as [| [first second] pi]; simpl in H; [discriminate |].
  destruct (vec_at parts second) as [h | |]; simpl in H; try discriminate.
  destruct (advance x first) as [xi | |]; simpl in H; try discriminate.
  destruct (kernel h xi); simpl in H; try discriminate.
  destruct (convolve kernel parts x pi output) eqn:E; simpl in H; try discriminate.
  apply IH in E. simpl. lia.
Qed.

(** [resample] as a whole, for a non-zero ratio. *)
Lemma resample_with_eq (input output : list S) (e : Engine S) :
  P (base e) <> 0 -> Q (base e) <> 0 ->
  resample_with kernel input output e
  = if accepts e input output
    then (convolve kernel (partitions (base e)) (history e ++ input)
            (paths (grow (length output) (base e))) output,
          after_call e input output)
    else (InvalidArgument, e).
Proof.
  intros HP HQ.
  unfold resample_with, COPY_INPUT, accepts, after_call, grow, urem, udiv,
    mbind, mget, mlift, mthrow, mput, mret.
  apply Z.eqb_neq in HP, HQ. rewrite HP, HQ. simpl.
  destruct (size input mod Q (base e) =? 0); simpl; [| reflexivity].
  destruct (size output mod P (base e) =? 0); simpl; [| reflexivity].
  destruct (size input / Q (base e) =? size output / P (base e)); simpl;
    [| reflexivity].
  rewrite Z.leb_antisym.
  destruct (size input <? size (history e)); simpl; [reflexivity |].
  unfold size at 1.
  destruct (Z.of_nat (length output) >? size (paths (base e))) eqn:Hgrow; simpl.
  - unfold resize. destruct (length output) as [| n] eqn:Hn.
    + unfold size in Hgrow. apply Z.gtb_lt in Hgrow. lia.
    + rewrite HP. simpl.
      destruct (convolve kernel (partitions (base e)) (history e ++ input)
                  (path_entry (P (base e)) (Q (base e)) 0
                     :: resize_loop (P (base e)) (Q (base e)) (wrap_unsigned (0 + 1)) n)
                  output); reflexivity.
  - destruct (convolve kernel (partitions (base e)) (history e ++ input)
                (paths (base e)) output); destruct e; reflexivity.
Qed.

(** With a zero in the ratio the size checks divide by zero, unless the
    first check already throws. *)
Lemma resample_with_zero (input output : list S) (e : Engine S) :
  P (base e) = 0 \/ Q (base e) = 0 ->
  forall res, fst (resample_with kernel input output e) <> Done res.
Proof.
  intros H res.
  unfold resample_with, COPY_INPUT, urem, udiv,
    mbind, mget, mlift, mthrow, mput, mret. simpl.
  destruct (Q (base e) =? 0) eqn:HQ; simpl; [discriminate |].
  destruct (size input mod Q (base e) =? 0); simpl; [| discriminate].
  destruct H as [H | H]; [| apply Z.eqb_neq in HQ; contradiction].
  apply Z.eqb_eq in H. rewrite H. simpl. discriminate.
Qed.

End ConvolveFacts.

(** ** The inner loops compute the dot product of the specification *)

Section KernelFacts.

Variable T : elem_type.

Lemma real_accumulate_spec : forall (h : list double) (xii : list (carrier T)) (acc : double),
  (length h <= length xii)%nat ->
  real_accumulate T h xii acc
  = Done (fold_left (fun a hx => (a + fst hx * snd hx)%float)
            (combine h (map (to_double T) (firstn (length h) xii))) acc).
Proof.
  induction h as [| hi h IH]; intros xii acc Hlen; [reflexivity |].
  destruct xii as [| xv xii]; simpl in Hlen; [lia |].
  simpl. now rewrite IH by lia.
Qed.

Lemma real_accumulate_short : forall (h : list double) (xii : list (carrier T)) (acc : double),
  (length xii < length h)%nat -> real_accumulate T h xii acc = Undefined.
Proof.
  induction h as [| hi h IH]; intros xii acc Hlen; simpl in Hlen; [lia |].
  destruct xii as [| xv xii]; simpl in *; [reflexivity | apply IH; lia].
Qed.

Lemma real_kernel_of : kernel_of (real_sample T) (real_kernel T).
Proof.
  intros h xi. unfold real_kernel, real_sample, dot_product, narrow, of_option.
  destruct (Nat.leb_spec (length h) (length xi)) as [Hlen | Hlen].
  - now rewrite real_accumulate_spec by exact Hlen.
  - now rewrite real_accumulate_short by exact Hlen.
Qed.

Lemma complex_accumulate_spec : forall (h : list double) (xii : list (complex T))
    (re im : double),
  (length h <= length xii)%nat ->
  complex_accumulate T h xii (re, im)
  = Done (fold_left (fun a hx => (a + fst hx * snd hx)%float)
            (combine h (map (fun s => to_double T (fst s)) (firstn (length h) xii))) re,
          fold_left (fun a hx => (a + fst hx * snd hx)%float)
            (combine h (map (fun s => to_double T (snd s)) (firstn (length h) xii))) im).
Proof.
  induction h as [| hi h IH]; intros xii re im Hlen; [reflexivity |].
  destruct xii as [| xv xii]; simpl in Hlen; [lia |].
  simpl. now rewrite IH by lia.
Qed.

Lemma complex_accumulate_short : forall (h : list double) (xii : list (complex T))
    (acc : double * double),
  (length xii < length h)%nat -> complex_accumulate T h xii acc = Undefined.
Proof.
  induction h as [| hi h IH]; intros xii acc Hlen; simpl in Hlen; [lia |].
  destruct xii as [| xv xii]; simpl in *; [reflexivity | apply IH; lia].
Qed.

Lemma complex_kernel_of : kernel_of (complex_sample T) (complex_kernel T).
Proof.
  intros h xi. unfold complex_kernel, complex_sample, dot_product, narrow, of_option.
  destruct (Nat.leb_spec (length h) (length xi)) as [Hlen | Hlen].
  - rewrite complex_accumulate_spec by exact Hlen. simpl.
    destruct (of_double T _); simpl; [| reflexivity].
    destruct (of_double T _); reflexivity.
  - now rewrite complex_accumulate_short by exact Hlen.
Qed.

End KernelFacts.

Lemma kernel_of_not_thrown {S : Type} (sample : list double -> list S -> option S)
    (kernel : list double -> list S -> outcome S) :
  kernel_of sample kernel -> forall h xi, kernel h xi <> InvalidArgument.
Proof.
  intros Hk h xi. rewrite Hk.
  destruct (length h <=? length xi)%nat; [| discriminate].
  destruct (sample h (firstn (length h) xi)); discriminate.
Qed.

(** ** One call of [resample], sample by sample *)

Section CallFacts.

Context {S : Type}.
Variable sample : list double -> list S -> option S.
Variable kernel : list double -> list S -> outcome S.
Hypothesis kernel_sample : kernel_of sample kernel.

Lemma vec_at_Done {A : Type} (v : list A) (i : Z) (a : A) :
  vec_at v i = Done a <-> 0 <= i < size v /\ nth_error v (Z.to_nat i) = Some a.
Proof.
  unfold vec_at, size. split.
  - destruct (Z.leb_spec 0 i), (Z.ltb_spec i (Z.of_nat (length v))); simpl;
      try discriminate.
    destruct (nth_error v (Z.to_nat i)); [| discriminate].
    intros Heq; inversion Heq; subst. split; [lia | reflexivity].
  - intros [[Hlo Hhi] Hn].
    destruct (Z.leb_spec 0 i), (Z.ltb_spec i (Z.of_nat (length v))); simpl;
      try lia.
    now rewrite Hn.
Qed.

(** A turn of the outer loop whose entry is inside the partitions and
    whose window is inside [x] yields the sample of the window. *)
Lemma sample_at_window (parts : list (list double)) (x : list S)
    (first second : Z) (h : list double) :
  0 <= second < size parts ->
  nth_error parts (Z.to_nat second) = Some h ->
  0 <= first -> first + size h <= size x ->
  sample_at kernel parts x (first, second)
  = of_option (sample h (window x first (size h))).
Proof.
  intros Hs Hh Hf Hw. unfold sample_at. simpl.
  assert (Hv : vec_at parts second = Done h) by (apply vec_at_Done; auto).
  rewrite Hv. simpl. unfold advance, size in *.
  destruct (Z.leb_spec 0 first), (Z.leb_spec first (Z.of_nat (length x)));
    try lia.
  simpl. rewrite kernel_sample. rewrite length_skipn.
  destruct (Nat.leb_spec (length h) (length x - Z.to_nat first)); [| lia].
  unfold window. now rewrite Nat2Z.id.
Qed.

(** A turn never ends in the exception. *)
Lemma sample_at_not_thrown (parts : list (list double)) (x : list S) (entry : Z * Z) :
  sample_at kernel parts x entry <> InvalidArgument.
Proof.
  unfold sample_at, vec_at, advance.
  destruct ((0 <=? snd entry) && (snd entry <? size parts)); simpl;
    [| discriminate].
  destruct (nth_error parts (Z.to_nat (snd entry))); simpl; [| discriminate].
  destruct ((0 <=? fst entry) && (fst entry <=? size x)); simpl;
    [| discriminate].
  apply (kernel_of_not_thrown kernel_sample).
Qed.

Lemma grow_table_ok (n : nat) (r : Resampler) : table_ok r -> table_ok (grow n r).
Proof.
  intros H. unfold grow. destruct (Z.of_nat n >? size (paths r)); [| exact H].
  unfold table_ok. simpl. now rewrite resize_loop_length.
Qed.

Lemma grow_covers (n : nat) (r : Resampler) :
  table_ok r ->
  (n <= length (paths (grow n r)))%nat
  /\ firstn n (paths (grow n r)) = resize_loop (P r) (Q r) 0 n.
Proof.
  intros H. unfold grow, size.
  destruct (Z.gtb_spec (Z.of_nat n) (Z.of_nat (length (paths r)))) as [Hn | Hn]; simpl.
  - rewrite resize_loop_length. split; [lia |].
    apply firstn_all2. rewrite resize_loop_length. lia.
  - split; [lia |]. rewrite H. apply resize_loop_firstn. lia.
Qed.

Lemma grow_fields (n : nat) (r : Resampler) :
  partitions (grow n r) = partitions r /\ P (grow n r) = P r /\ Q (grow n r) = Q r.
Proof. unfold grow. destruct (Z.of_nat n >? size (paths r)); auto. Qed.

Lemma resample_with_turns (input output : list S) (e : Engine S) :
  P (base e) <> 0 -> Q (base e) <> 0 -> table_ok (base e) ->
  resample_with kernel input output e
  = if accepts e input output
    then (collect (turns kernel e input (length output)), after_call e input output)
    else (InvalidArgument, e).
Proof.
  intros HP HQ Ht. rewrite resample_with_eq by assumption.
  destruct (accepts e input output); [| reflexivity].
  f_equal. destruct (grow_covers (length output) Ht) as [Hlen Hfirst].
  rewrite convolve_collect by exact Hlen.
  rewrite Hfirst, resize_loop_map, map_map. reflexivity.
Qed.

End CallFacts.

(** ** The filter design: facts *)

Lemma store_length {A : Type} (l : list A) : forall (i : nat) (v : A),
  length (store l i v) = length l.
Proof.
  induction l as [| a l IH]; intros [| i] v; simpl; auto.
Qed.

Lemma store_nth_same {A : Type} (l : list A) : forall (i : nat) (v d : A),
  (i < length l)%nat -> nth i (store l i v) d = v.
Proof.
  induction l as [| a l IH]; intros [| i] v d Hi; simpl in *; try lia; auto.
  apply IH. lia.
Qed.

Lemma store_nth_other {A : Type} (l : list A) : forall (i k : nat) (v d : A),
  k <> i -> nth k (store l i v) d = nth k l d.
Proof.
  induction l as [| a l IH]; intros [| i] [| k] v d Hk; simpl; auto; try lia.
Qed.

Section StoreFacts.

Lemma store2_rect (rows cols : nat) (parts : list (list double)) (p j : nat) (v : double) :
  rect rows cols parts -> (p < rows)%nat -> rect rows cols (store2 parts p j v).
Proof.
  intros [Hlen Hrow] Hp. unfold store2. split.
  - now rewrite store_length.
  - intros p' Hp'. destruct (Nat.eq_dec p' p) as [-> | Hne].
    + rewrite store_nth_same by lia. rewrite store_length. now apply Hrow.
    + rewrite store_nth_other by exact Hne. now apply Hrow.
Qed.

Lemma store2_cell_same (rows cols : nat) (parts : list (list double)) (p j : nat) (v : double) :
  rect rows cols parts -> (p < rows)%nat -> (j < cols)%nat ->
  cell (store2 parts p j v) p j = v.
Proof.
  intros [Hlen Hrow] Hp Hj. unfold cell, store2.
  rewrite store_nth_same by lia. apply store_nth_same. rewrite Hrow; lia.
Qed.

Lemma store2_cell_other (rows cols : nat) (parts : list (list double))
    (p j p' j' : nat) (v : double) :
  rect rows cols parts -> (p < rows)%nat -> p' <> p \/ j' <> j ->
  cell (store2 parts p j v) p' j' = cell parts p' j'.
Proof.
  intros [Hlen Hrow] Hp Hne. unfold cell, store2.
  destruct (Nat.eq_dec p' p) as [-> | Hp'].
  - rewrite store_nth_same by lia. apply store_nth_other. tauto.
  - now rewrite store_nth_other by exact Hp'.
Qed.

Lemma fill_column_rect (rows cols : nat) (g : nat -> double) (j : nat) (ps : list nat) :
  (forall p, In p ps -> (p < rows)%nat) ->
  forall parts, rect rows cols parts -> rect rows cols (fill_column g j ps parts).
Proof.
  induction ps as [| p ps IH]; intros Hps parts Hr; simpl; [exact Hr |].
  apply IH; [intros q Hq; apply Hps; now right |].
  apply store2_rect; [exact Hr | apply Hps; now left].
Qed.

Lemma fill_column_other (rows cols : nat) (g : nat -> double) (j : nat) (ps : list nat)
    (p' j' : nat) :
  (forall p, In p ps -> (p < rows)%nat) ->
  ~ In p' ps \/ j' <> j ->
  forall parts, rect rows cols parts ->
  cell (fill_column g j ps parts) p' j' = cell parts p' j'.
Proof.
  induction ps as [| p ps IH]; intros Hps Hne parts Hr; simpl; [reflexivity |].
  rewrite IH.
  - eapply store2_cell_other; [exact Hr | apply Hps; now left |].
    destruct Hne as [Hn | Hn]; [left | now right].
    intros ->. apply Hn. now left.
  - intros q Hq. apply Hps. now right.
  - destruct Hne as [Hn | Hn]; [left | now right].
    intros Hin. apply Hn. now right.
  - apply store2_rect; [exact Hr | apply Hps; now left].
Qed.

Lemma fill_column_same (rows cols : nat) (g : nat -> double) (j : nat) (ps : list nat)
    (p' : nat) :
  (forall p, In p ps -> (p < rows)%nat) -> (j < cols)%nat -> In p' ps ->
  forall parts, rect rows cols parts ->
  cell (fill_column g j ps parts) p' j = g p'.
Proof.
  induction ps as [| p ps IH]; intros Hps Hj Hin parts Hr; simpl; [destruct Hin |].
  assert (Hp : (p < rows)%nat) by (apply Hps; now left).
  assert (Hps' : forall q, In q ps -> (q < rows)%nat)
    by (intros q Hq; apply Hps; now right).
  destruct (in_dec Nat.eq_dec p' ps) as [Hlater | Hlast].
  - apply IH; auto. now apply store2_rect.
  - destruct Hin as [-> | Hin]; [| contradiction].
    change (cell (fill_column g j ps (store2 parts p' j (g p'))) p' j = g p').
    rewrite fill_column_other with (rows := rows) (cols := cols);
      [| exact Hps' | now left | apply store2_rect; [exact Hr | exact Hp]].
    apply store2_cell_same with (rows := rows) (cols := cols);
      [exact Hr | exact Hp | exact Hj].
Qed.

Lemma fill_rect (rows cols : nat) (g : nat -> nat -> double) (ps js : list nat) :
  (forall p, In p ps -> (p < rows)%nat) ->
  forall parts, rect rows cols parts -> rect rows cols (fill g ps js parts).
Proof.
  intros Hps. induction js as [| j js IH]; intros parts Hr; simpl; [exact Hr |].
  apply IH. now apply fill_column_rect.
Qed.

Lemma fill_other (rows cols : nat) (g : nat -> nat -> double) (ps js : list nat)
    (p' j' : nat) :
  (forall p, In p ps -> (p < rows)%nat) -> ~ In j' js ->
  forall parts, rect rows cols parts ->
  cell (fill g ps js parts) p' j' = cell parts p' j'.
Proof.
  intros Hps. induction js as [| j js IH]; intros Hnot parts Hr; simpl;
    [reflexivity |].
  rewrite IH.
  - eapply fill_column_other; [exact Hps | | exact Hr].
    right. intros ->. apply Hnot. now left.
  - intros Hin. apply Hnot. now right.
  - now apply fill_column_rect.
Qed.

Lemma fill_same (rows cols : nat) (g : nat -> nat -> double) (ps js : list nat)
    (p' j' : nat) :
  (forall p, In p ps -> (p < rows)%nat) ->
  (forall j, In j js -> (j < cols)%nat) ->
  In p' ps -> In j' js ->
  forall parts, rect rows cols parts ->
  cell (fill g ps js parts) p' j' = g j' p'.
Proof.
  intros Hps. induction js as [| j js IH]; intros Hjs Hp' Hj' parts Hr; simpl;
    [destruct Hj' |].
  assert (Hjs' : forall k, In k js -> (k < cols)%nat)
    by (intros k Hk; apply Hjs; now right).
  destruct (in_dec Nat.eq_dec j' js) as [Hlater | Hlast].
  - apply IH; auto. now apply fill_column_rect.
  - destruct Hj' as [-> | Hj']; [| contradiction].
    rewrite fill_other with (rows := rows) (cols := cols);
      [| exact Hps | exact Hlast | apply fill_column_rect; [exact Hps | exact Hr]].
    apply fill_column_same with (rows := rows) (cols := cols);
      [exact Hps | apply Hjs; now left | exact Hp' | exact Hr].
Qed.

Lemma deinterleave_fill (taps p0 : Z) (proto : list double) (beta : double)
    (parts : list (list double)) :
  deinterleave taps p0 proto beta parts
  = fill (fun j p => (nth (proto_index p0 j p) proto 0 * beta)%float)
      (seq 0 (Z.to_nat p0)) (seq 0 (Z.to_nat taps)) parts.
Proof. reflexivity. Qed.

Lemma repeat_rect (rows cols : nat) : rect rows cols (repeat (repeat 0%float cols) rows).
Proof.
  split; [apply repeat_length |].
  intros p Hp. rewrite nth_repeat_lt by exact Hp. apply repeat_length.
Qed.

End StoreFacts.

Section InitFacts.

Variables sin cos : double -> double.

Lemma count_from_next (i0 : double) (m : nat) :
  count_from (i0 + 1)%float m = count_from i0 (Datatypes.S m).
Proof.
  unfold count_from. induction m as [| m IH]; [reflexivity |].
  simpl in *. now rewrite IH.
Qed.

Lemma proto_loop_spec (n cutoff : double) : forall (k : nat) (i sum : double),
  proto_loop sin cos n cutoff k i sum
  = (map (fun m => proto_sample sin cos n cutoff (count_from i m)) (seq 0 k),
     fold_left PrimFloat.add
       (map (fun m => proto_sample sin cos n cutoff (count_from i m)) (seq 0 k)) sum).
Proof.
  induction k as [| k IH]; intros i sum; [reflexivity |].
  cbn [proto_loop]. rewrite IH.
  cbn [seq map fold_left]. rewrite <- seq_shift, map_map.
  assert (E : map (fun m => proto_sample sin cos n cutoff (count_from (i + 1)%float m)) (seq 0 k)
              = map (fun m => proto_sample sin cos n cutoff (count_from i (Datatypes.S m))) (seq 0 k)).
  { apply map_ext. intros m. now rewrite count_from_next. }
  rewrite E. reflexivity.
Qed.

Lemma rect_Forall (rows cols : nat) (parts : list (list double)) :
  rect rows cols parts -> Forall (fun h => length h = cols) parts.
Proof.
  intros [Hlen Hrow]. apply Forall_forall. intros h Hin.
  destruct (In_nth _ _ [] Hin) as [p [Hp Hnth]]. rewrite <- Hnth.
  apply Hrow. lia.
Qed.

Lemma map_rev_rect (rows cols : nat) (parts : list (list double)) :
  rect rows cols parts -> rect rows cols (map (@rev double) parts).
Proof.
  intros [Hlen Hrow]. split; [now rewrite length_map |].
  intros p Hp. change (@nil double) with (rev (@nil double)).
  rewrite map_nth, length_rev. now apply Hrow.
Qed.

Lemma map_rev_cell (rows cols : nat) (parts : list (list double)) (p j : nat) :
  rect rows cols parts -> (p < rows)%nat -> (j < cols)%nat ->
  cell (map (@rev double) parts) p j = cell parts p (cols - Datatypes.S j).
Proof.
  intros [Hlen Hrow] Hp Hj. unfold cell.
  change (@nil double) with (rev (@nil double)) at 1.
  rewrite map_nth. rewrite rev_nth by (rewrite Hrow; lia).
  now rewrite Hrow by exact Hp.
Qed.

Lemma init_partitions (taps : Z) (cutoff : double) (r : Resampler) :
  partitions (init sin cos taps cutoff r)
  = let n := size (partitions r) * taps in
    let proto := proto_of sin cos n cutoff in
    let beta := (Z2double (size (partitions r)) / fold_left PrimFloat.add proto 0)%float in
    map (@rev double) (deinterleave taps (P r) proto beta (partitions r)).
Proof. unfold init. rewrite proto_loop_spec. reflexivity. Qed.

Lemma init_fields (taps : Z) (cutoff : double) (r : Resampler) :
  paths (init sin cos taps cutoff r) = paths r
  /\ P (init sin cos taps cutoff r) = P r /\ Q (init sin cos taps cutoff r) = Q r.
Proof. unfold init. rewrite proto_loop_spec. auto. Qed.

Lemma seq_bound (n p : nat) : In p (seq 0 n) <-> (p < n)%nat.
Proof. rewrite in_seq. lia. Qed.

Lemma init_rect (taps : Z) (cutoff : double) (r : Resampler) :
  rect (Z.to_nat (P r)) (Z.to_nat taps) (partitions r) ->
  rect (Z.to_nat (P r)) (Z.to_nat taps) (partitions (init sin cos taps cutoff r)).
Proof.
  intros Hr. rewrite init_partitions. cbv zeta.
  apply map_rev_rect. rewrite deinterleave_fill.
  apply fill_rect; [| exact Hr]. intros p. apply seq_bound.
Qed.

(** After [init], coefficient [j] of partition [p] is the prototype sample
    at the [unsigned] index [(taps-1-j) * P + p], times [beta]. *)
Lemma init_cell (taps : Z) (cutoff : double) (r : Resampler) (p j : nat) :
  rect (Z.to_nat (P r)) (Z.to_nat taps) (partitions r) ->
  (p < Z.to_nat (P r))%nat -> (j < Z.to_nat taps)%nat ->
  cell (partitions (init sin cos taps cutoff r)) p j
  = let n := size (partitions r) * taps in
    let proto := proto_of sin cos n cutoff in
    let beta := (Z2double (size (partitions r)) / fold_left PrimFloat.add proto 0)%float in
    (nth (proto_index (P r) (Z.to_nat taps - Datatypes.S j) p) proto 0 * beta)%float.
Proof.
  intros Hr Hp Hj. rewrite init_partitions. cbv zeta.
  rewrite map_rev_cell with (rows := Z.to_nat (P r)) (cols := Z.to_nat taps);
    [| | exact Hp | exact Hj].
  - rewrite deinterleave_fill.
    rewrite fill_same with (rows := Z.to_nat (P r)) (cols := Z.to_nat taps);
      [reflexivity | | | | | exact Hr].
    + intros q. apply seq_bound.
    + intros q. apply seq_bound.
    + apply seq_bound. exact Hp.
    + apply seq_bound. lia.
  - rewrite deinterleave_fill. apply fill_rect; [| exact Hr].
    intros q. apply seq_bound.
Qed.

(** The constructor succeeds for a non-zero [P], and fails on the division
    by zero of [resize] for [P = 0]. *)
Lemma Resampler_ctor_Done (P0 Q0 taps : Z) :
  P0 <> 0 ->
  exists r, Resampler_ctor sin cos P0 Q0 taps = Done r
    /\ r = {| partitions :=
                partitions
                  (init sin cos taps (Z2double (if P0 >? Q0 then P0 else Q0))
                     {| partitions := repeat (repeat 0%float (Z.to_nat taps)) (Z.to_nat P0);
                        paths := []; P := P0; Q := Q0 |});
              paths := resize_loop P0 Q0 0 DEFAULT_PATH_LEN;
              P := P0; Q := Q0 |}.
Proof.
  intros HP0. unfold Resampler_ctor.
  set (r0 := {| partitions := repeat (repeat 0%float (Z.to_nat taps)) (Z.to_nat P0);
                paths := []; P := P0; Q := Q0 |}).
  set (c := Z2double (if P0 >? Q0 then P0 else Q0)).
  destruct (init_fields taps c r0) as [_ [HP HQ]].
  unfold resize, DEFAULT_PATH_LEN. rewrite HP, HQ. simpl P. simpl Q.
  apply Z.eqb_neq in HP0. rewrite HP0.
  eexists. split; reflexivity.
Qed.

Lemma Resampler_ctor_zero (Q0 taps : Z) :
  Resampler_ctor sin cos 0 Q0 taps = Undefined.
Proof.
  unfold Resampler_ctor.
  set (r0 := {| partitions := repeat (repeat 0%float (Z.to_nat taps)) (Z.to_nat 0);
                paths := []; P := 0; Q := Q0 |}).
  set (c := Z2double (if 0 >? Q0 then 0 else Q0)).
  destruct (init_fields taps c r0) as [_ [HP HQ]].
  unfold resize, DEFAULT_PATH_LEN. rewrite HP. reflexivity.
Qed.

End InitFacts.

Unset Implicit Arguments.

(** ** The size checks and the preconditions *)

Section Validation.

Context {S : Type}.
Variable sample : list double -> list S -> option S.
Variable kernel : list double -> list S -> outcome S.
Hypothesis kernel_sample : kernel_of sample kernel.

Lemma accepts_iff (taps : Z) (e : Engine S) (input output : list S) :
  size (history e) = taps - 1 ->
  accepts e input output = true <-> preconditions taps e input output.
Proof.
  intros Hh. unfold accepts, preconditions. rewrite Hh.
  rewrite !andb_true_iff, !Z.eqb_eq, Z.leb_le. tauto.
Qed.

Lemma convolve_not_thrown (parts : list (list double)) (x : list S) :
  forall (output : list S) (pi : list (Z * Z)),
  convolve kernel parts x pi output <> InvalidArgument.
Proof.
  induction output as [| o output IH]; intros pi; simpl; [discriminate |].
  destruct pi as [| [first second] pi]; [discriminate |].
  destruct (vec_at parts second) as [h | |] eqn:Eh; simpl; try discriminate.
  - destruct (advance x first) as [xi | |] eqn:Ex; simpl; try discriminate.
    + destruct (kernel h xi) as [v | |] eqn:Ek; simpl; try discriminate.
      * specialize (IH pi).
        destruct (convolve kernel parts x pi output); simpl; congruence.
      * exfalso. now apply (kernel_of_not_thrown kernel_sample h xi).
    + unfold advance in Ex.
      destruct ((0 <=? first) && (first <=? size x)); discriminate.
  - unfold vec_at in Eh.
    destruct ((0 <=? second) && (second <? size parts)); [| discriminate].
    destruct (nth_error parts (Z.to_nat second)); discriminate.
Qed.

(** The exception leaves the whole object as it was. *)
Lemma thrown_state (input output : list S) (e e' : Engine S) :
  resample_with kernel input output e = (InvalidArgument, e') -> e' = e.
Proof.
  destruct (Z.eq_dec (Q (base e)) 0) as [HQ | HQ];
    [| destruct (Z.eq_dec (P (base e)) 0) as [HP | HP]].
  - unfold resample_with, COPY_INPUT, urem, mbind, mget, mlift. simpl.
    rewrite HQ. simpl. discriminate.
  - unfold resample_with, COPY_INPUT, urem, mbind, mget, mlift, mthrow. simpl.
    apply Z.eqb_neq in HQ. rewrite HQ, HP. simpl.
    destruct (size input mod Q (base e) =? 0); simpl; [discriminate |].
    intros H. now inversion H.
  - rewrite resample_with_eq by assumption.
    destruct (accepts e input output).
    + intros H. inversion H as [[Hc He]]. exfalso.
      now apply (convolve_not_thrown _ _ _ _ Hc).
    + intros H. now inversion H.
Qed.

(** The call throws exactly when a precondition fails. *)
Lemma thrown_iff (taps : Z) (input output : list S) (e : Engine S) :
  well_formed taps e ->
  fst (resample_with kernel input output e) = InvalidArgument
  <-> ~ preconditions taps e input output.
Proof.
  intros Hwf. destruct Hwf as [HP HQ _ _ _ Hh _].
  rewrite <- (accepts_iff taps e input output Hh).
  rewrite resample_with_eq by lia.
  destruct (accepts e input output); simpl; split; intros H; try congruence.
  exfalso. now apply (convolve_not_thrown _ _ _ _ H).
Qed.

(** What a successful call leaves: the new history is the tail of the
    input; the partitions and the ratio are untouched, the path table is
    the old one or a longer one. *)
Lemma done_state (input output res : list S) (e e' : Engine S) :
  resample_with kernel input output e = (Done res, e') ->
  P (base e) <> 0 /\ Q (base e) <> 0
  /\ accepts e input output = true
  /\ e' = after_call e input output.
Proof.
  intros H.
  destruct (Z.eq_dec (P (base e)) 0) as [HP | HP].
  { exfalso. apply (@resample_with_zero S kernel input output e (or_introl HP) res).
    now rewrite H. }
  destruct (Z.eq_dec (Q (base e)) 0) as [HQ | HQ].
  { exfalso. apply (@resample_with_zero S kernel input output e (or_intror HQ) res).
    now rewrite H. }
  rewrite resample_with_eq in H by assumption.
  destruct (accepts e input output); [| discriminate].
  inversion H. auto.
Qed.

Lemma after_call_history (taps : Z) (input output : list S) (e : Engine S) :
  size (history e) = taps - 1 -> accepts e input output = true ->
  history (after_call e input output)
  = skipn (Z.to_nat (size input - (taps - 1))) input
  /\ size (history (after_call e input output)) = taps - 1.
Proof.
  intros Hh Ha. unfold accepts in Ha. rewrite !andb_true_iff, Z.leb_le in Ha.
  destruct Ha as [_ Hle]. unfold size in *. simpl. split.
  - f_equal. lia.
  - rewrite length_skipn. lia.
Qed.

Lemma after_call_well_formed (taps : Z) (input output : list S) (e : Engine S) :
  well_formed taps e -> accepts e input output = true ->
  well_formed taps (after_call e input output).
Proof.
  intros [HP HQ Ht Hn Hp Hh Htab] Ha.
  destruct (grow_fields (length output) (base e)) as [Ep [EP EQ]].
  destruct (after_call_history taps input output e Hh Ha) as [_ Hlen].
  split; simpl; rewrite ?Ep, ?EP, ?EQ; auto.
  now apply grow_table_ok.
Qed.

End Validation.

(** ** Construction establishes the invariant *)

Section CtorFacts.

Variables sin cos : double -> double.

Lemma Resampler_ctor_shape (P0 Q0 taps : Z) :
  0 < P0 ->
  exists r, Resampler_ctor sin cos P0 Q0 taps = Done r
    /\ P r = P0 /\ Q r = Q0
    /\ paths r = resize_loop P0 Q0 0 DEFAULT_PATH_LEN
    /\ rect (Z.to_nat P0) (Z.to_nat taps) (partitions r).
Proof.
  intros HP0.
  destruct (@Resampler_ctor_Done sin cos P0 Q0 taps) as [r [Hr Er]]; [lia |].
  exists r. split; [exact Hr |]. subst r. simpl.
  repeat split; try reflexivity.
  - rewrite init_partitions. cbv zeta. simpl P. simpl partitions.
    rewrite length_map, deinterleave_fill.
    apply (@fill_rect (Z.to_nat P0) (Z.to_nat taps)).
    + intros p. apply seq_bound.
    + apply repeat_rect.
  - apply (@init_rect sin cos taps _
             {| partitions := repeat (repeat 0%float (Z.to_nat taps)) (Z.to_nat P0);
                paths := []; P := P0; Q := Q0 |}).
    apply repeat_rect.
Qed.

Lemma ctor_well_formed {S : Type} (zero : S) (P0 Q0 taps : Z) (r : Resampler) :
  0 < P0 < 2 ^ UINT_BITS -> 0 < Q0 < 2 ^ UINT_BITS -> 0 < taps < 2 ^ UINT_BITS ->
  P r = P0 -> Q r = Q0 ->
  paths r = resize_loop P0 Q0 0 DEFAULT_PATH_LEN ->
  rect (Z.to_nat P0) (Z.to_nat taps) (partitions r) ->
  well_formed taps {| base := r; history := repeat zero (history_len taps) |}.
Proof.
  intros HP HQ Ht EP EQ Epaths Hrect.
  pose proof (@rect_Forall _ _ _ Hrect) as Hall. destruct Hrect as [Hlen _].
  split; simpl; rewrite ?EP, ?EQ; try assumption.
  - unfold size. rewrite Hlen. lia.
  - eapply Forall_impl; [| exact Hall]. intros h Hh. unfold size. rewrite Hh. lia.
  - unfold size, history_len. rewrite repeat_length, wrap_unsigned_small by lia. lia.
  - unfold table_ok. rewrite Epaths, EP, EQ, resize_loop_length. reflexivity.
Qed.

Lemma RealResampler_ctor_well_formed (T : elem_type) (P0 Q0 taps : Z) :
  0 < P0 < 2 ^ UINT_BITS -> 0 < Q0 < 2 ^ UINT_BITS -> 0 < taps < 2 ^ UINT_BITS ->
  exists e, RealResampler_ctor sin cos T P0 Q0 taps = Done e /\ well_formed taps e.
Proof.
  intros HP HQ Ht.
  destruct (Resampler_ctor_shape P0 Q0 taps) as [r [Hr [EP [EQ [Epaths Hrect]]]]];
    [lia |].
  unfold RealResampler_ctor. rewrite Hr. simpl. eexists. split; [reflexivity |].
  now apply ctor_well_formed with (P0 := P0) (Q0 := Q0).
Qed.

Lemma ComplexResampler_ctor_well_formed (T : elem_type) (P0 Q0 taps : Z) :
  0 < P0 < 2 ^ UINT_BITS -> 0 < Q0 < 2 ^ UINT_BITS -> 0 < taps < 2 ^ UINT_BITS ->
  exists e, ComplexResampler_ctor sin cos T P0 Q0 taps = Done e /\ well_formed taps e.
Proof.
  intros HP HQ Ht.
  destruct (Resampler_ctor_shape P0 Q0 taps) as [r [Hr [EP [EQ [Epaths Hrect]]]]];
    [lia |].
  unfold ComplexResampler_ctor. rewrite Hr. simpl. eexists. split; [reflexivity |].
  now apply ctor_well_formed with (P0 := P0) (Q0 := Q0).
Qed.

End CtorFacts.

(** ** The engines of the examples satisfy the invariant *)

Lemma demo_real_well_formed : @well_formed (carrier t_short) 2 demo_real.
Proof.
  split; try (vm_compute; intuition congruence).
  repeat constructor.
Qed.

Lemma demo_complex_well_formed : @well_formed (complex t_short) 2 demo_complex.
Proof.
  split; try (vm_compute; intuition congruence).
  repeat constructor.
Qed.

(** ** Validation (C2, C10) *)

(** C10.  When [resample] ends in the [InvalidArgument] exception the whole
    engine is as before the call: partitions, ratio, history and the path
    table, which is neither grown nor rewritten.  Real and complex
    resampler alike. *)
Theorem failed_call_leaves_engine (T : elem_type) :
  (forall (input output : list (carrier T)) (e e' : Engine (carrier T)),
      RealResampler_resample T input output e = (InvalidArgument, e') -> e' = e)
  /\ (forall (input output : list (complex T)) (e e' : Engine (complex T)),
      ComplexResampler_resample T input output e = (InvalidArgument, e') -> e' = e).
Proof.
  split; intros input output e e'.
  - apply (thrown_state (real_sample T) (real_kernel T) (@real_kernel_of T)).
  - apply (thrown_state (complex_sample T) (complex_kernel T) (@complex_kernel_of T)).
Qed.

Lemma failed_call_leaves_engine_witness :
  fst (RealResampler_resample t_short [1; 2; 3; 4] (repeat 0 200) demo_real) = InvalidArgument
  /\ snd (RealResampler_resample t_short [1; 2; 3; 4] (repeat 0 200) demo_real) = demo_real
  /\ snd (ComplexResampler_resample t_short [(1, 2)] [] demo_complex) = demo_complex.
Proof.
  split; [vm_compute; reflexivity |]. split.
  - apply (proj1 (failed_call_leaves_engine t_short) [1; 2; 3; 4] (repeat 0 200)).
    vm_compute. reflexivity.
  - apply (proj2 (failed_call_leaves_engine t_short) [(1, 2)] []).
    vm_compute. reflexivity.
Defined.

(** C2.  On an engine built for [taps] taps, [resample] ends in
    [InvalidArgument] if and only if one of the four preconditions fails:
    [|input| mod Q = 0], [|output| mod P = 0], [|input| / Q = |output| / P],
    [|input| >= taps - 1]; and then the history is unchanged. *)
Theorem invalid_argument_iff_precondition_fails (T : elem_type) (taps : Z) :
  (forall (e : Engine (carrier T)) (input output : list (carrier T)),
      well_formed taps e ->
      (fst (RealResampler_resample T input output e) = InvalidArgument
       <-> ~ preconditions taps e input output)
      /\ (fst (RealResampler_resample T input output e) = InvalidArgument ->
          history (snd (RealResampler_resample T input output e)) = history e))
  /\ (forall (e : Engine (complex T)) (input output : list (complex T)),
      well_formed taps e ->
      (fst (ComplexResampler_resample T input output e) = InvalidArgument
       <-> ~ preconditions taps e input output)
      /\ (fst (ComplexResampler_resample T input output e) = InvalidArgument ->
          history (snd (ComplexResampler_resample T input output e)) = history e)).
Proof.
  split; intros e input output Hwf; split.
  - apply (thrown_iff (real_sample T) (real_kernel T) (@real_kernel_of T) taps _ _ _ Hwf).
  - intros H. destruct (RealResampler_resample T input output e) as [o e'] eqn:E.
    simpl in *. subst o.
    now rewrite (thrown_state (real_sample T) (real_kernel T) (@real_kernel_of T) _ _ _ _ E).
  - apply (thrown_iff (complex_sample T) (complex_kernel T) (@complex_kernel_of T)
             taps _ _ _ Hwf).
  - intros H. destruct (ComplexResampler_resample T input output e) as [o e'] eqn:E.
    simpl in *. subst o.
    now rewrite (thrown_state (complex_sample T) (complex_kernel T) (@complex_kernel_of T)
                   _ _ _ _ E).
Qed.

Lemma invalid_argument_iff_precondition_fails_witness :
  (fst (RealResampler_resample t_short [1; 2; 3; 4] [0; 0] demo_real) = InvalidArgument
   <-> ~ preconditions 2 demo_real [1; 2; 3; 4] [0; 0])
  /\ (fst (ComplexResampler_resample t_short [(1, 2); (3, 4); (5, 6)] [(0, 0); (0, 0)] demo_complex)
      = InvalidArgument
      <-> ~ preconditions 2 demo_complex [(1, 2); (3, 4); (5, 6)] [(0, 0); (0, 0)]).
Proof.
  split.
  - apply (proj1 (invalid_argument_iff_precondition_fails t_short 2) demo_real).
    exact demo_real_well_formed.
  - apply (proj2 (invalid_argument_iff_precondition_fails t_short 2) demo_complex).
    exact demo_complex_well_formed.
Defined.

(** ** The history buffer (C6) *)

Lemma history_after_call {S : Type} (kernel : list double -> list S -> outcome S)
    (taps : Z) (input output res : list S) (e e' : Engine S) :
  size (history e) = taps - 1 ->
  resample_with kernel input output e = (Done res, e') ->
  history e' = skipn (Z.to_nat (size input - (taps - 1))) input
  /\ size (history e') = taps - 1
  /\ partitions (base e') = partitions (base e)
  /\ P (base e') = P (base e) /\ Q (base e') = Q (base e).
Proof.
  intros Hh Hcall.
  destruct (done_state kernel input output res e e' Hcall) as [_ [_ [Ha ->]]].
  destruct (after_call_history taps input output e Hh Ha) as [H1 H2].
  destruct (grow_fields (length output) (base e)) as [Ep [EP EQ]].
  simpl. auto.
Qed.

(** C6.  The history has length [taps - 1] and holds value-initialised
    (zero) samples right after construction; after every successful
    [resample] it holds the last [taps - 1] samples of the input, its length
    is still [taps - 1], and partitions and ratio are untouched. *)
Theorem history_is_tail_of_input (sin cos : double -> double) (T : elem_type)
    (P0 Q0 taps : Z) :
  0 < P0 -> 0 < taps < 2 ^ UINT_BITS ->
  (exists e, RealResampler_ctor sin cos T P0 Q0 taps = Done e
     /\ history e = repeat (value_init T) (Z.to_nat (taps - 1)))
  /\ (exists e, ComplexResampler_ctor sin cos T P0 Q0 taps = Done e
     /\ history e = repeat (value_init T, value_init T) (Z.to_nat (taps - 1)))
  /\ (forall (input output res : list (carrier T)) (e e' : Engine (carrier T)),
       size (history e) = taps - 1 ->
       RealResampler_resample T input output e = (Done res, e') ->
       history e' = skipn (Z.to_nat (size input - (taps - 1))) input
       /\ size (history e') = taps - 1
       /\ partitions (base e') = partitions (base e)
       /\ P (base e') = P (base e) /\ Q (base e') = Q (base e))
  /\ (forall (input output res : list (complex T)) (e e' : Engine (complex T)),
       size (history e) = taps - 1 ->
       ComplexResampler_resample T input output e = (Done res, e') ->
       history e' = skipn (Z.to_nat (size input - (taps - 1))) input
       /\ size (history e') = taps - 1
       /\ partitions (base e') = partitions (base e)
       /\ P (base e') = P (base e) /\ Q (base e') = Q (base e)).
Proof.
  intros HP Ht.
  destruct (Resampler_ctor_shape sin cos P0 Q0 taps HP) as [r [Hr _]].
  assert (Hlen : history_len taps = Z.to_nat (taps - 1)).
  { unfold history_len. now rewrite wrap_unsigned_small by lia. }
  split; [| split; [| split]].
  - unfold RealResampler_ctor. rewrite Hr. simpl. eexists. split; [reflexivity |].
    simpl. now rewrite Hlen.
  - unfold ComplexResampler_ctor. rewrite Hr. simpl. eexists. split; [reflexivity |].
    simpl. now rewrite Hlen.
  - intros input output res e e'. apply history_after_call.
  - intros input output res e e'. apply history_after_call.
Qed.

Lemma history_is_tail_of_input_witness :
  (exists e, RealResampler_ctor taylor_sin taylor_cos t_short 2 3 4 = Done e
     /\ history e = [0; 0; 0])
  /\ history (snd (RealResampler_resample t_short [1; 2; 3] [0; 0] demo_real)) = [3]
  /\ history (snd (ComplexResampler_resample t_short [(1, 2); (3, 4); (5, 6)]
                     [(0, 0); (0, 0)] demo_complex)) = [(5, 6)].
Proof.
  assert (H4 : 0 < 4 < 2 ^ UINT_BITS) by (vm_compute; split; reflexivity).
  assert (H2 : 0 < 2 < 2 ^ UINT_BITS) by (vm_compute; split; reflexivity).
  split; [| split].
  - exact (proj1 (history_is_tail_of_input taylor_sin taylor_cos t_short 2 3 4
                    eq_refl H4)).
  - apply (proj1 (proj2 (proj2 (history_is_tail_of_input taylor_sin taylor_cos t_short
                                  2 3 2 eq_refl H2)))
             [1; 2; 3] [0; 0] [2; 1] demo_real); vm_compute; reflexivity.
  - apply (proj2 (proj2 (proj2 (history_is_tail_of_input taylor_sin taylor_cos t_short
                                  2 3 2 eq_refl H2)))
             [(1, 2); (3, 4); (5, 6)] [(0, 0); (0, 0)] [(2, 0); (1, 2)] demo_complex);
      vm_compute; reflexivity.
Defined.

(** ** The output samples (C1) *)

(** With the preconditions, the window of output [i] ends inside the extended
    buffer: [floor(Q i / P) < |input|]. *)
Lemma offset_below_input (p q n_in n_out i : Z) :
  0 < p -> 0 < q ->
  n_in mod q = 0 -> n_out mod p = 0 -> n_in / q = n_out / p ->
  0 <= i < n_out ->
  0 <= q * i / p < n_in.
Proof.
  intros Hp Hq Hin Hout Heq Hi.
  assert (Ein : n_in = q * (n_in / q)).
  { pose proof (Z.div_mod n_in q ltac:(lia)). lia. }
  assert (Eout : n_out = p * (n_out / p)).
  { pose proof (Z.div_mod n_out p ltac:(lia)). lia. }
  set (n := n_out / p) in *. rewrite Heq in Ein.
  split; [apply Z.div_pos; nia |].
  apply Z.div_lt_upper_bound; [lia |]. nia.
Qed.

(** Nothing wraps while the product fits 32 bits and the quotient and the
    remainder fit [int]. *)
Lemma path_entry_no_wrap (p q i : Z) :
  0 < p -> 0 <= q * i < 2 ^ UINT_BITS ->
  q * i / p < 2 ^ (UINT_BITS - 1) -> (q * i) mod p < 2 ^ (UINT_BITS - 1) ->
  path_entry p q i = (q * i / p, (q * i) mod p).
Proof.
  intros Hp Hqi Hd Hm. unfold path_entry.
  rewrite wrap_unsigned_small by lia. now rewrite !to_int_small by lia.
Qed.

Lemma no_wrap_entry (p q i : Z) :
  0 < p -> 0 <= q -> 0 <= i -> no_wrap p q i ->
  path_entry p q i = (q * i / p, (q * i) mod p).
Proof.
  intros Hp Hq Hi [H1 [H2 H3]].
  apply path_entry_no_wrap; try assumption. split; [nia | exact H1].
Qed.

Lemma no_wrap_below (p q i : Z) :
  0 < p -> 0 <= q -> 0 <= i -> q * i < 2 ^ 31 -> no_wrap p q i.
Proof.
  intros Hp Hq Hi H.
  assert (0 <= q * i) by nia.
  assert (q * i / p <= q * i) by (apply Z.div_le_upper_bound; nia).
  assert ((q * i) mod p <= q * i) by (apply Z.mod_le; lia).
  unfold no_wrap. lia.
Qed.

(** The entry that [resize] stores for the counter value [i] is the pair
    [(floor(Q i / P), (Q i) mod P)] exactly when nothing wraps: the product
    [Q * i] fits 32 bits, and the quotient and the remainder fit an [int]. *)
Theorem path_entry_exact_iff_no_wrap (p q i : Z) :
  0 < p < 2 ^ 32 -> 0 <= q < 2 ^ 32 -> 0 <= i < 2 ^ 32 ->
  path_entry p q i = (q * i / p, (q * i) mod p) <-> no_wrap p q i.
Proof.
  intros Hp [Hq _] [Hi _]. split; [| now apply no_wrap_entry].
  intros E. unfold path_entry in E. injection E as E1 E2.
  assert (Hqi : 0 <= q * i) by nia.
  pose proof (wrap_unsigned_range (q * i)) as Hw. change (2 ^ UINT_BITS) with (2 ^ 32) in Hw.
  assert (Hle : wrap_unsigned (q * i) <= q * i).
  { unfold wrap_unsigned. apply Z.mod_le; [lia | reflexivity]. }
  assert (Hq1 : 0 <= wrap_unsigned (q * i) / p) by (apply Z.div_pos; lia).
  assert (Hq2 : wrap_unsigned (q * i) / p <= q * i / p) by (apply Z.div_le_mono; lia).
  assert (Hpow : 2 ^ 32 = 2 * 2 ^ 31 /\ 0 < 2 ^ 31) by (split; reflexivity).
  assert (Hint : forall u, 0 <= u < 2 ^ 32 -> to_int u <= u /\ to_int u < 2 ^ 31).
  { intros u Hu. unfold to_int. change (2 ^ (UINT_BITS - 1)) with (2 ^ 31).
    change (2 ^ UINT_BITS) with (2 ^ 32).
    destruct (Z.ltb_spec u (2 ^ 31)); lia. }
  assert (Hq3 : wrap_unsigned (q * i) / p <= wrap_unsigned (q * i)).
  { apply Z.div_le_upper_bound; nia. }
  destruct (Hint (wrap_unsigned (q * i) / p) ltac:(lia)) as [Ha Hb].
  assert (Hm : 0 <= wrap_unsigned (q * i) mod p < p) by (apply Z.mod_pos_bound; lia).
  destruct (Hint (wrap_unsigned (q * i) mod p) ltac:(lia)) as [Hc Hd].
  destruct (Z.lt_ge_cases (q * i) (2 ^ 32)) as [Hlt | Hge].
  - unfold no_wrap. lia.
  - exfalso.
    assert (Hk : wrap_unsigned (q * i) + 2 ^ 32 <= q * i).
    { unfold wrap_unsigned. change (2 ^ UINT_BITS) with (2 ^ 32).
      pose proof (Z.div_mod (q * i) (2 ^ 32) ltac:(lia)) as D.
      assert (1 <= q * i / 2 ^ 32) by (apply Z.div_le_lower_bound; lia).
      lia. }
    assert (Hs : wrap_unsigned (q * i) / p + 1 <= q * i / p).
    { replace (wrap_unsigned (q * i) / p + 1) with ((wrap_unsigned (q * i) + 1 * p) / p)
        by (rewrite Z.div_add by lia; reflexivity).
      apply Z.div_le_mono; lia. }
    lia.
Qed.

Lemma path_entry_exact_iff_no_wrap_witness :
  path_entry 160 147 29217464 = (147 * 29217464 / 160, (147 * 29217464) mod 160)
  <-> no_wrap 160 147 29217464.
Proof.
  apply (path_entry_exact_iff_no_wrap 160 147 29217464).
  - split; reflexivity.
  - split; [discriminate | reflexivity].
  - split; [discriminate | reflexivity].
Defined.

Section Samples.

Context {S : Type}.
Variable sample : list double -> list S -> option S.
Variable kernel : list double -> list S -> outcome S.
Hypothesis kernel_sample : kernel_of sample kernel.

Lemma turns_nth (e : Engine S) (input : list S) (n k : nat) :
  (k < n)%nat ->
  nth_error (turns kernel e input n) k
  = Some (sample_at kernel (partitions (base e)) (history e ++ input)
            (path_entry (P (base e)) (Q (base e)) (Z.of_nat k))).
Proof.
  intros Hk. unfold turns. rewrite nth_error_map, nth_error_seq.
  destruct (Nat.ltb_spec k n); [reflexivity | lia].
Qed.

Lemma partition_at (taps : Z) (e : Engine S) (second : Z) :
  well_formed taps e -> 0 <= second < P (base e) ->
  exists h, nth_error (partitions (base e)) (Z.to_nat second) = Some h /\ size h = taps.
Proof.
  intros [_ _ _ Hn Hp _ _] Hs.
  destruct (nth_error (partitions (base e)) (Z.to_nat second)) as [h |] eqn:E.
  - exists h. split; [reflexivity |].
    rewrite Forall_forall in Hp. apply Hp. eapply nth_error_In. exact E.
  - apply nth_error_None in E. unfold size in Hn. lia.
Qed.

(** The turn of output [i], when its path entry does not wrap: the sample of
    partition [(Q i) mod P] and of the [taps] samples of the extended buffer
    from [floor(Q i / P)]. *)
Lemma turn_below_wrap (taps : Z) (e : Engine S) (input output : list S) (i : Z) :
  well_formed taps e -> accepts e input output = true ->
  0 <= i < size output -> no_wrap (P (base e)) (Q (base e)) i ->
  exists h,
    nth_error (partitions (base e)) (Z.to_nat ((Q (base e) * i) mod P (base e))) = Some h
    /\ size h = taps
    /\ length (window (history e ++ input) (Q (base e) * i / P (base e)) taps)
       = Z.to_nat taps
    /\ sample_at kernel (partitions (base e)) (history e ++ input)
         (path_entry (P (base e)) (Q (base e)) i)
       = of_option (sample h (window (history e ++ input)
                                (Q (base e) * i / P (base e)) taps)).
Proof.
  intros Hwf Ha Hi Hrange.
  pose proof Hwf as [HP HQ Ht Hn Hp Hh Htab].
  apply (accepts_iff taps e input output Hh) in Ha.
  destruct Ha as [Hin [Hout [Heq Hlen]]].
  pose proof (offset_below_input (P (base e)) (Q (base e)) (size input) (size output) i
                ltac:(lia) ltac:(lia) Hin Hout Heq Hi) as Hoff.
  assert (Hmod : 0 <= (Q (base e) * i) mod P (base e) < P (base e))
    by (apply Z.mod_pos_bound; lia).
  destruct (partition_at taps e _ Hwf Hmod) as [h [Hh' Hsz]].
  exists h. split; [exact Hh' |]. split; [exact Hsz |].
  assert (Hx : size (history e ++ input) = taps - 1 + size input).
  { unfold size in *. rewrite length_app. lia. }
  split.
  - unfold window. rewrite length_firstn, length_skipn. unfold size in *. lia.
  - rewrite no_wrap_entry by (assumption || lia).
    rewrite (@sample_at_window S sample kernel kernel_sample
               (partitions (base e)) (history e ++ input)
               (Q (base e) * i / P (base e)) ((Q (base e) * i) mod P (base e)) h);
      try lia.
    + now rewrite Hsz.
    + exact Hh'.
Qed.

Lemma output_below_wrap (taps : Z) (e e' : Engine S) (input output res : list S) (i : Z) :
  well_formed taps e ->
  resample_with kernel input output e = (Done res, e') ->
  0 <= i < size output -> no_wrap (P (base e)) (Q (base e)) i ->
  exists h v,
    nth_error (partitions (base e)) (Z.to_nat ((Q (base e) * i) mod P (base e))) = Some h
    /\ size h = taps
    /\ length (window (history e ++ input) (Q (base e) * i / P (base e)) taps)
       = Z.to_nat taps
    /\ sample h (window (history e ++ input) (Q (base e) * i / P (base e)) taps) = Some v
    /\ nth_error res (Z.to_nat i) = Some v.
Proof.
  intros Hwf Hcall Hi Hrange.
  destruct (done_state kernel input output res e e' Hcall) as [HP [HQ [Ha _]]].
  rewrite (resample_with_turns kernel input output e HP HQ (wf_table Hwf)), Ha in Hcall.
  inversion Hcall as [[Hcollect He']]. clear Hcall.
  destruct (turn_below_wrap taps e input output i Hwf Ha Hi Hrange)
    as [h [Hh [Hsz [Hwin Hturn]]]].
  assert (Hk : (Z.to_nat i < length output)%nat) by (unfold size in Hi; lia).
  pose proof (turns_nth e input (length output) (Z.to_nat i) Hk) as Hnth.
  rewrite Z2Nat.id in Hnth by lia.
  destruct (@collect_Done_nth S _ _ Hcollect _ _ Hnth) as [v [Hv Hres]].
  exists h, v. repeat split; try assumption.
  rewrite Hturn in Hv. unfold of_option in Hv.
  destruct (sample h _); [now inversion Hv | discriminate].
Qed.

(** In particular when [Q * i] does not leave the range of [int]. *)
Lemma turn_in_range (taps : Z) (e : Engine S) (input output : list S) (i : Z) :
  well_formed taps e -> accepts e input output = true ->
  0 <= i < size output -> Q (base e) * i < 2 ^ (UINT_BITS - 1) ->
  exists h,
    nth_error (partitions (base e)) (Z.to_nat ((Q (base e) * i) mod P (base e))) = Some h
    /\ size h = taps
    /\ length (window (history e ++ input) (Q (base e) * i / P (base e)) taps)
       = Z.to_nat taps
    /\ sample_at kernel (partitions (base e)) (history e ++ input)
         (path_entry (P (base e)) (Q (base e)) i)
       = of_option (sample h (window (history e ++ input)
                                (Q (base e) * i / P (base e)) taps)).
Proof.
  intros Hwf Ha Hi Hrange. apply (turn_below_wrap taps e input output); try assumption.
  change (2 ^ (UINT_BITS - 1)) with (2 ^ 31) in Hrange.
  apply no_wrap_below; try assumption; destruct Hwf; lia.
Qed.

Lemma output_sample (taps : Z) (e e' : Engine S) (input output res : list S) (i : Z) :
  well_formed taps e ->
  resample_with kernel input output e = (Done res, e') ->
  0 <= i < size output -> Q (base e) * i < 2 ^ (UINT_BITS - 1) ->
  exists h v,
    nth_error (partitions (base e)) (Z.to_nat ((Q (base e) * i) mod P (base e))) = Some h
    /\ size h = taps
    /\ length (window (history e ++ input) (Q (base e) * i / P (base e)) taps)
       = Z.to_nat taps
    /\ sample h (window (history e ++ input) (Q (base e) * i / P (base e)) taps) = Some v
    /\ nth_error res (Z.to_nat i) = Some v.
Proof.
  intros Hwf Hcall Hi Hrange.
  apply (output_below_wrap taps e e' input output); try assumption.
  change (2 ^ (UINT_BITS - 1)) with (2 ^ 31) in Hrange.
  apply no_wrap_below; try assumption; destruct Hwf; lia.
Qed.

End Samples.



(** ** Feeding a stream block by block (C7) *)

Lemma window_app_l {A : Type} (x y : list A) (offset taps : Z) :
  0 <= offset -> 0 <= taps -> offset + taps <= size x ->
  window (x ++ y) offset taps = window x offset taps.
Proof.
  intros Ho Ht Hle. unfold window, size in *.
  rewrite skipn_app, firstn_app, length_skipn.
  replace (Z.to_nat taps - (length x - Z.to_nat offset))%nat with 0%nat by lia.
  now rewrite firstn_O, app_nil_r.
Qed.

Lemma window_shift {A : Type} (hist a b : list A) (offset taps : Z) :
  size hist <= size a -> 0 <= offset ->
  window (hist ++ a ++ b) (size a + offset) taps
  = window (skipn (length a - length hist) a ++ b) offset taps.
Proof.
  intros Hh Ho. unfold window, size in *.
  replace (Z.to_nat (Z.of_nat (length a) + offset))
    with (Z.to_nat offset + length a)%nat by lia.
  rewrite <- skipn_skipn. f_equal. f_equal.
  rewrite skipn_app, skipn_all2 by lia. simpl.
  rewrite skipn_app. f_equal.
  replace (length a - length hist - length a)%nat with 0%nat by lia.
  reflexivity.
Qed.

Lemma seq_offset (start len : nat) :
  seq start len = map (fun j => (start + j)%nat) (seq 0 len).
Proof.
  revert start. induction len as [| len IH]; intros start; [reflexivity |].
  simpl. rewrite Nat.add_0_r. f_equal.
  rewrite IH, <- seq_shift, map_map. apply map_ext. intros j. lia.
Qed.

Lemma well_formed_same_stream {S : Type} (taps : Z) (e e' : Engine S) :
  well_formed taps e -> same_stream e e' -> table_ok (base e') -> well_formed taps e'.
Proof.
  intros [HP HQ Ht Hn Hp Hh _] [Ep [EP [EQ Eh]]] Htab.
  split; rewrite <- ?Ep, <- ?EP, <- ?EQ, <- ?Eh; assumption.
Qed.

Section Blocks.

Context {S : Type}.
Variable sample : list double -> list S -> option S.
Variable kernel : list double -> list S -> outcome S.
Hypothesis kernel_sample : kernel_of sample kernel.

Lemma accepts_app (taps : Z) (e e1 : Engine S) (a oa b ob : list S) :
  well_formed taps e -> well_formed taps e1 ->
  P (base e1) = P (base e) -> Q (base e1) = Q (base e) ->
  accepts e a oa = true -> accepts e1 b ob = true ->
  accepts e (a ++ b) (oa ++ ob) = true
  /\ Q (base e) * size oa = P (base e) * size a.
Proof.
  intros Hwf Hwf1 EP EQ Ha Hb.
  pose proof Hwf as [HP HQ Ht _ _ Hh _].
  apply (accepts_iff taps e a oa Hh) in Ha.
  apply (accepts_iff taps e1 b ob (wf_history Hwf1)) in Hb.
  unfold preconditions in Ha, Hb. rewrite EP, EQ in Hb.
  destruct Ha as [Ha1 [Ha2 [Ha3 Ha4]]]. destruct Hb as [Hb1 [Hb2 [Hb3 Hb4]]].
  pose proof (Z.div_mod (size a) (Q (base e)) ltac:(lia)) as Da.
  pose proof (Z.div_mod (size oa) (P (base e)) ltac:(lia)) as Doa.
  pose proof (Z.div_mod (size b) (Q (base e)) ltac:(lia)) as Db.
  pose proof (Z.div_mod (size ob) (P (base e)) ltac:(lia)) as Dob.
  assert (Esz : forall (u v : list S), size (u ++ v) = size u + size v).
  { intros u v. unfold size. rewrite length_app. lia. }
  split; [| nia].
  apply (accepts_iff taps e (a ++ b) (oa ++ ob) Hh).
  unfold preconditions. rewrite !Esz.
  assert (Ea : size a + size b = (size a / Q (base e) + size b / Q (base e)) * Q (base e))
    by lia.
  assert (Eo : size oa + size ob = (size oa / P (base e) + size ob / P (base e)) * P (base e))
    by lia.
  repeat split.
  - rewrite Ea. apply Z.mod_mul. lia.
  - rewrite Eo. apply Z.mod_mul. lia.
  - rewrite Ea, Eo, !Z.div_mul by lia. lia.
  - unfold size in *. lia.
Qed.

(** The turns of one call on [a ++ b] are the turns of a call on [a]
    followed by the turns of a call on [b] made with the history the first
    call leaves, when no path entry of the joined call wraps. *)
Lemma turns_app_below_wrap (taps : Z) (e e1 : Engine S) (a oa b ob : list S) :
  well_formed taps e -> well_formed taps e1 ->
  same_stream (after_call e a oa) e1 ->
  accepts e a oa = true -> accepts e1 b ob = true ->
  (forall i, 0 <= i < size oa + size ob -> no_wrap (P (base e)) (Q (base e)) i) ->
  turns kernel e (a ++ b) (length (oa ++ ob))
  = turns kernel e a (length oa) ++ turns kernel e1 b (length ob).
Proof.
  intros Hwf Hwf1 [Ep [EP [EQ Eh]]] Ha Hb Hrange.
  destruct (grow_fields (length oa) (base e)) as [Gp [GP GQ]].
  simpl in Ep, EP, EQ, Eh. rewrite Gp in Ep. rewrite GP in EP. rewrite GQ in EQ.
  destruct (accepts_app taps e e1 a oa b ob Hwf Hwf1 (eq_sym EP) (eq_sym EQ) Ha Hb)
    as [Hab Hratio].
  pose proof Hwf as [HP HQ Ht _ _ Hh _].
  assert (Hha : size (history e) <= size a).
  { unfold accepts in Ha. rewrite !andb_true_iff, Z.leb_le in Ha. tauto. }
  unfold turns. rewrite length_app, seq_app, map_app. f_equal.
  - apply map_ext_in. intros k Hk. apply seq_bound in Hk.
    assert (Hi : 0 <= Z.of_nat k < size oa) by (unfold size; lia).
    assert (Hi' : 0 <= Z.of_nat k < size (oa ++ ob)).
    { unfold size in *. rewrite length_app. lia. }
    assert (Hr : no_wrap (P (base e)) (Q (base e)) (Z.of_nat k)).
    { apply Hrange. unfold size in *. lia. }
    destruct (turn_below_wrap sample kernel kernel_sample taps e (a ++ b) (oa ++ ob)
                (Z.of_nat k) Hwf Hab Hi' Hr) as [h [Hh1 [_ [_ ->]]]].
    destruct (turn_below_wrap sample kernel kernel_sample taps e a oa
                (Z.of_nat k) Hwf Ha Hi Hr) as [h' [Hh2 [_ [_ ->]]]].
    rewrite Hh1 in Hh2. inversion Hh2; subst h'. do 2 f_equal.
    rewrite app_assoc. apply window_app_l; try lia.
    + apply Z.div_pos; nia.
    + apply (accepts_iff taps e a oa Hh) in Ha. destruct Ha as [Ha1 [Ha2 [Ha3 _]]].
      pose proof (offset_below_input (P (base e)) (Q (base e)) (size a) (size oa)
                    (Z.of_nat k) ltac:(lia) ltac:(lia) Ha1 Ha2 Ha3 Hi).
      unfold size in *. rewrite length_app. lia.
  - rewrite Nat.add_0_l, (seq_offset (length oa)), map_map.
    apply map_ext_in. intros j Hj. apply seq_bound in Hj.
    assert (Hi : 0 <= Z.of_nat j < size ob) by (unfold size; lia).
    assert (Hi' : 0 <= Z.of_nat (length oa + j) < size (oa ++ ob)).
    { unfold size in *. rewrite length_app. lia. }
    assert (Hr' : no_wrap (P (base e)) (Q (base e)) (Z.of_nat (length oa + j))).
    { apply Hrange. unfold size in *. lia. }
    assert (Hr : no_wrap (P (base e1)) (Q (base e1)) (Z.of_nat j)).
    { rewrite <- EP, <- EQ. apply Hrange. unfold size in *. lia. }
    destruct (turn_below_wrap sample kernel kernel_sample taps e (a ++ b) (oa ++ ob)
                (Z.of_nat (length oa + j)) Hwf Hab Hi' Hr') as [h [Hh1 [_ [_ ->]]]].
    destruct (turn_below_wrap sample kernel kernel_sample taps e1 b ob
                (Z.of_nat j) Hwf1 Hb Hi Hr) as [h' [Hh2 [_ [_ ->]]]].
    clear Hr Hr' Hrange.
    rewrite <- Ep, <- EP, <- EQ, <- Eh in *.
    assert (Hsplit : Q (base e) * Z.of_nat (length oa + j)
                     = Q (base e) * Z.of_nat j + size a * P (base e)).
    { unfold size in *. nia. }
    rewrite Hsplit in *. rewrite Z.mod_add in Hh1 by lia.
    rewrite Hh1 in Hh2. inversion Hh2; subst h'. do 2 f_equal.
    rewrite Z.div_add by lia.
    rewrite (Z.add_comm _ (size a)).
    apply window_shift; [exact Hha |]. apply Z.div_pos; nia.
Qed.

End Blocks.

Section OneCall.

Context {S : Type}.
Variable sample : list double -> list S -> option S.
Variable kernel : list double -> list S -> outcome S.
Hypothesis kernel_sample : kernel_of sample kernel.

(** Two calls in a row give what one call on the joined blocks gives. *)
Lemma resample_app_below_wrap (taps : Z) (e e1 e1' e2 : Engine S)
    (a oa o1 b ob o2 : list S) :
  well_formed taps e ->
  resample_with kernel a oa e = (Done o1, e1) ->
  same_stream e1 e1' -> table_ok (base e1') ->
  resample_with kernel b ob e1' = (Done o2, e2) ->
  (forall i, 0 <= i < size oa + size ob -> no_wrap (P (base e)) (Q (base e)) i) ->
  exists e12,
    resample_with kernel (a ++ b) (oa ++ ob) e = (Done (o1 ++ o2), e12)
    /\ same_stream e12 e2.
Proof.
  intros Hwf Hc1 Hsame Htab Hc2 Hrange.
  destruct (done_state kernel a oa o1 e e1 Hc1) as [HP [HQ [Ha He1]]].
  destruct (done_state kernel b ob o2 e1' e2 Hc2) as [HP' [HQ' [Hb He2]]].
  assert (Hwf1 : well_formed taps e1).
  { subst e1. now apply after_call_well_formed. }
  assert (Hwf1' : well_formed taps e1')
    by (apply (well_formed_same_stream taps e1 e1'); assumption).
  rewrite (resample_with_turns kernel a oa e HP HQ (wf_table Hwf)), Ha in Hc1.
  rewrite (resample_with_turns kernel b ob e1' HP' HQ' Htab), Hb in Hc2.
  injection Hc1 as Ho1 _. injection Hc2 as Ho2 _.
  pose proof Hsame as [Ep [EP [EQ Eh]]]. rewrite He1 in Ep, EP, EQ, Eh.
  destruct (grow_fields (length oa) (base e)) as [Gp [GP GQ]].
  simpl in Ep, EP, EQ, Eh. rewrite Gp in Ep. rewrite GP in EP. rewrite GQ in EQ.
  destruct (accepts_app taps e e1' a oa b ob Hwf Hwf1' (eq_sym EP) (eq_sym EQ) Ha Hb)
    as [Hab _].
  exists (after_call e (a ++ b) (oa ++ ob)). split.
  - rewrite (resample_with_turns kernel (a ++ b) (oa ++ ob) e HP HQ (wf_table Hwf)), Hab.
    f_equal.
    rewrite (turns_app_below_wrap sample kernel kernel_sample taps e e1' a oa b ob);
      try assumption; [| now rewrite <- He1].
    rewrite collect_app, Ho1, Ho2. reflexivity.
  - subst e2.
    destruct (grow_fields (length (oa ++ ob)) (base e)) as [Gp2 [GP2 GQ2]].
    destruct (grow_fields (length ob) (base e1')) as [Gp3 [GP3 GQ3]].
    unfold same_stream. simpl. rewrite Gp2, GP2, GQ2, Gp3, GP3, GQ3.
    repeat split; try assumption.
    rewrite <- Eh.
    assert (Hha : (length (history e) <= length a)%nat).
    { unfold accepts, size in Ha. rewrite !andb_true_iff, Z.leb_le in Ha. lia. }
    assert (Hhb : (length (history e) <= length b)%nat).
    { unfold accepts, size in Hb. rewrite !andb_true_iff, Z.leb_le in Hb.
      rewrite <- Eh, length_skipn in Hb. lia. }
    rewrite length_skipn, length_app, skipn_app.
    rewrite skipn_all2 by lia. simpl. f_equal. lia.
Qed.

Lemma feed_after_below_wrap (taps : Z) : forall (calls : list (list S * list S))
    (e e1 e1' e' : Engine S) (a oa o1 outs : list S),
  well_formed taps e ->
  resample_with kernel a oa e = (Done o1, e1) ->
  same_stream e1 e1' -> table_ok (base e1') ->
  feed kernel calls e1' = (Done outs, e') ->
  (forall i, 0 <= i < size oa + size (concat (map snd calls)) ->
             no_wrap (P (base e)) (Q (base e)) i) ->
  exists e'',
    resample_with kernel (a ++ concat (map fst calls)) (oa ++ concat (map snd calls)) e
    = (Done (o1 ++ outs), e'')
    /\ same_stream e'' e'.
Proof.
  induction calls as [| [b ob] rest IH];
    intros e e1 e1' e' a oa o1 outs Hwf Hc1 Hsame Htab Hfeed Hrange.
  - simpl in *. unfold mret in Hfeed. inversion Hfeed; subst.
    rewrite !app_nil_r. exists e1. split; assumption.
  - simpl in Hfeed, Hrange |- *. unfold mbind in Hfeed.
    destruct (resample_with kernel b ob e1') as [[o2 | |] e2] eqn:Hc2; try discriminate.
    destruct (feed kernel rest e2) as [[os | |] e3] eqn:Hrest; try discriminate.
    unfold mret in Hfeed. inversion Hfeed; subst outs e3. clear Hfeed.
    assert (Hsz : size (ob ++ concat (map snd rest))
                  = size ob + size (concat (map snd rest))).
    { unfold size. rewrite length_app. lia. }
    rewrite Hsz in Hrange.
    pose proof (Nat2Z.is_nonneg (length (concat (map snd rest)))) as Hnn.
    destruct (resample_app_below_wrap taps e e1 e1' e2 a oa o1 b ob o2
                Hwf Hc1 Hsame Htab Hc2)
      as [e12 [Hc12 Hsame12]].
    { intros i Hi. apply Hrange. unfold size in *. lia. }
    destruct (done_state kernel b ob o2 e1' e2 Hc2) as [_ [_ [_ He2]]].
    assert (Htab2 : table_ok (base e2)).
    { subst e2. simpl. now apply grow_table_ok. }
    destruct (IH e e12 e2 e' (a ++ b) (oa ++ ob) (o1 ++ o2) os Hwf Hc12 Hsame12 Htab2 Hrest)
      as [e'' [Hall Hsame']].
    { assert (Hsz2 : size (oa ++ ob) = size oa + size ob).
      { unfold size. rewrite length_app. lia. }
      rewrite Hsz2. intros i Hi. apply Hrange. lia. }
    exists e''. rewrite <- !app_assoc in Hall. split; assumption.
Qed.

(** One call on the whole sequence gives what the block-by-block feed
    gives, and leaves the same history, when no path entry of the one call
    wraps. *)
Lemma feed_one_call_below_wrap (taps : Z) (calls : list (list S * list S))
    (e e' : Engine S) (outs : list S) :
  well_formed taps e -> calls <> [] ->
  feed kernel calls e = (Done outs, e') ->
  (forall i, 0 <= i < size (concat (map snd calls)) ->
             no_wrap (P (base e)) (Q (base e)) i) ->
  exists e'',
    resample_with kernel (concat (map fst calls)) (concat (map snd calls)) e
    = (Done outs, e'')
    /\ history e'' = history e'.
Proof.
  intros Hwf Hne Hfeed Hrange.
  destruct calls as [| [a oa] rest]; [contradiction |].
  simpl in Hfeed, Hrange |- *. unfold mbind in Hfeed.
  destruct (resample_with kernel a oa e) as [[o1 | |] e1] eqn:Hc1; try discriminate.
  destruct (feed kernel rest e1) as [[os | |] e3] eqn:Hrest; try discriminate.
  unfold mret in Hfeed. inversion Hfeed; subst outs e3. clear Hfeed.
  destruct (done_state kernel a oa o1 e e1 Hc1) as [_ [_ [_ He1]]].
  assert (Htab1 : table_ok (base e1)).
  { subst e1. simpl. apply grow_table_ok. exact (wf_table Hwf). }
  assert (Hsz : size (oa ++ concat (map snd rest)) = size oa + size (concat (map snd rest))).
  { unfold size. rewrite length_app. lia. }
  rewrite Hsz in Hrange.
  destruct (feed_after_below_wrap taps rest e e1 e1 e' a oa o1 os Hwf Hc1)
    as [e'' [Hall Hsame]]; try assumption.
  { repeat split. }
  exists e''. split; [exact Hall |]. apply Hsame.
Qed.

(** In particular when [Q * i] stays in the range of [int] for every
    output of the sequence. *)
Lemma feed_one_call (taps : Z) (calls : list (list S * list S))
    (e e' : Engine S) (outs : list S) :
  well_formed taps e -> calls <> [] ->
  feed kernel calls e = (Done outs, e') ->
  Q (base e) * size (concat (map snd calls)) <= 2 ^ (UINT_BITS - 1) ->
  exists e'',
    resample_with kernel (concat (map fst calls)) (concat (map snd calls)) e
    = (Done outs, e'')
    /\ history e'' = history e'.
Proof.
  intros Hwf Hne Hfeed Hrange.
  apply (feed_one_call_below_wrap taps calls e e' outs Hwf Hne Hfeed).
  intros i Hi. pose proof (wf_P Hwf). pose proof (wf_Q Hwf).
  change (2 ^ (UINT_BITS - 1)) with (2 ^ 31) in Hrange.
  apply no_wrap_below; try lia. nia.
Qed.

End OneCall.

(** C7, as amended.  Take an engine built for [taps] taps and a non-empty
    sequence of blocks that [resample] accepts one after the other, the
    history carried from call to call (every block is a multiple of [Q] long
    and at least [taps - 1] long, every output vector is [P/Q] times as
    long), such that no path entry of the whole output wraps ([Q * i] below
    [2^32], [floor(Q i / P)] and [(Q i) mod P] below [2^31], for every index
    [i] of the joined outputs).  Then one call on the whole input, from the
    same engine, succeeds and writes exactly the outputs of the block calls,
    in order, and leaves the same history. *)
Theorem one_call_equals_block_feed (T : elem_type) (taps : Z) :
  (forall (calls : list (list (carrier T) * list (carrier T)))
          (e e' : Engine (carrier T)) (outs : list (carrier T)),
      well_formed taps e -> calls <> [] ->
      feed (real_kernel T) calls e = (Done outs, e') ->
      (forall i, 0 <= i < size (concat (map snd calls)) ->
                 no_wrap (P (base e)) (Q (base e)) i) ->
      exists e'',
        RealResampler_resample T (concat (map fst calls)) (concat (map snd calls)) e
        = (Done outs, e'')
        /\ history e'' = history e')
  /\ (forall (calls : list (list (complex T) * list (complex T)))
          (e e' : Engine (complex T)) (outs : list (complex T)),
      well_formed taps e -> calls <> [] ->
      feed (complex_kernel T) calls e = (Done outs, e') ->
      (forall i, 0 <= i < size (concat (map snd calls)) ->
                 no_wrap (P (base e)) (Q (base e)) i) ->
      exists e'',
        ComplexResampler_resample T (concat (map fst calls)) (concat (map snd calls)) e
        = (Done outs, e'')
        /\ history e'' = history e').
Proof.
  split; intros calls e e' outs Hwf Hne Hfeed Hrange.
  - exact (feed_one_call_below_wrap (real_sample T) (real_kernel T) (@real_kernel_of T)
             taps calls e e' outs Hwf Hne Hfeed Hrange).
  - exact (feed_one_call_below_wrap (complex_sample T) (complex_kernel T)
             (@complex_kernel_of T) taps calls e e' outs Hwf Hne Hfeed Hrange).
Qed.

Lemma one_call_equals_block_feed_witness :
  (exists e'',
      RealResampler_resample t_short [1; 2; 3; 4; 5; 6] [0; 0; 0; 0] demo_real
      = (Done [2; 1; 2; 3], e'')
      /\ history e'' = [6])
  /\ (exists e'',
      ComplexResampler_resample t_short
        [(1, 2); (3, 4); (5, 6); (7, 8); (9, 10); (11, 12)]
        [(0, 0); (0, 0); (0, 0); (0, 0)] demo_complex
      = (Done [(2, 0); (1, 2); (4, 5); (6, 7)], e'')
      /\ history e'' = [(11, 12)]).
Proof.
  assert (Hrange : forall i, 0 <= i < 4 -> no_wrap 2 3 i).
  { intros i Hi. apply no_wrap_below; lia. }
  split.
  - apply (proj1 (one_call_equals_block_feed t_short 2)
             [([1; 2; 3], [0; 0]); ([4; 5; 6], [0; 0])] demo_real
             (snd (feed (real_kernel t_short)
                     [([1; 2; 3], [0; 0]); ([4; 5; 6], [0; 0])] demo_real))
             [2; 1; 2; 3] demo_real_well_formed);
      [discriminate | vm_compute; reflexivity | exact Hrange].
  - apply (proj2 (one_call_equals_block_feed t_short 2)
             [([(1, 2); (3, 4); (5, 6)], [(0, 0); (0, 0)]);
              ([(7, 8); (9, 10); (11, 12)], [(0, 0); (0, 0)])] demo_complex
             (snd (feed (complex_kernel t_short)
                     [([(1, 2); (3, 4); (5, 6)], [(0, 0); (0, 0)]);
                      ([(7, 8); (9, 10); (11, 12)], [(0, 0); (0, 0)])] demo_complex))
             [(2, 0); (1, 2); (4, 5); (6, 7)] demo_complex_well_formed);
      [discriminate | vm_compute; reflexivity | exact Hrange].
Defined.

(** ** Construction with a zero parameter (C8) *)

Lemma resample_zero_Q {S : Type} (kernel : list double -> list S -> outcome S)
    (input output : list S) (e : Engine S) :
  Q (base e) = 0 -> resample_with kernel input output e = (Undefined, e).
Proof.
  intros HQ. unfold resample_with, COPY_INPUT, urem, mbind, mget, mlift. simpl.
  rewrite HQ. reflexivity.
Qed.

Lemma ctor_not_thrown (sin cos : double -> double) (P0 Q0 taps : Z) :
  Resampler_ctor sin cos P0 Q0 taps <> InvalidArgument.
Proof.
  destruct (Z.eq_dec P0 0) as [-> | HP].
  - rewrite Resampler_ctor_zero. discriminate.
  - destruct (@Resampler_ctor_Done sin cos P0 Q0 taps HP) as [r [-> _]]. discriminate.
Qed.

Lemma ctor_fields (sin cos : double -> double) (P0 Q0 taps : Z) (r : Resampler) :
  Resampler_ctor sin cos P0 Q0 taps = Done r -> P r = P0 /\ Q r = Q0.
Proof.
  intros H. destruct (Z.eq_dec P0 0) as [-> | HP].
  - rewrite Resampler_ctor_zero in H. discriminate.
  - destruct (@Resampler_ctor_Done sin cos P0 Q0 taps HP) as [r' [Hr' Er]].
    rewrite Hr' in H. inversion H; subst r'. subst r. split; reflexivity.
Qed.

(** C8, as amended.  The constructors check nothing and report no
    configuration error ([P], [Q] and [taps] are [unsigned], so no negative
    value reaches them).  With [P = 0] the construction is undefined:
    filling the path table divides by [P].  A constructor that returns gives
    an engine with the [P] and the [Q] it was given, [Q = 0] included, and a
    history of [(taps - 1) mod 2^32] samples; on an engine with [Q = 0]
    every call of [resample] is undefined, its first size check dividing by
    [Q]. *)
Theorem construction_checks_nothing (sin cos : double -> double) (T : elem_type)
    (P0 Q0 taps : Z) :
  (RealResampler_ctor sin cos T P0 Q0 taps <> InvalidArgument
   /\ ComplexResampler_ctor sin cos T P0 Q0 taps <> InvalidArgument)
  /\ (P0 = 0 ->
      RealResampler_ctor sin cos T P0 Q0 taps = Undefined
      /\ ComplexResampler_ctor sin cos T P0 Q0 taps = Undefined)
  /\ (forall e : Engine (carrier T),
      RealResampler_ctor sin cos T P0 Q0 taps = Done e ->
      P (base e) = P0 /\ Q (base e) = Q0
      /\ length (history e) = Z.to_nat ((taps - 1) mod 2 ^ 32))
  /\ (forall e : Engine (complex T),
      ComplexResampler_ctor sin cos T P0 Q0 taps = Done e ->
      P (base e) = P0 /\ Q (base e) = Q0
      /\ length (history e) = Z.to_nat ((taps - 1) mod 2 ^ 32))
  /\ (forall (e : Engine (carrier T)) (input output : list (carrier T)),
      Q (base e) = 0 -> RealResampler_resample T input output e = (Undefined, e))
  /\ (forall (e : Engine (complex T)) (input output : list (complex T)),
      Q (base e) = 0 -> ComplexResampler_resample T input output e = (Undefined, e)).
Proof.
  split; [| split; [| split; [| split; [| split]]]].
  - pose proof (ctor_not_thrown sin cos P0 Q0 taps) as H.
    unfold RealResampler_ctor, ComplexResampler_ctor.
    destruct (Resampler_ctor sin cos P0 Q0 taps); cbn [obind];
      split; congruence.
  - intros ->. unfold RealResampler_ctor, ComplexResampler_ctor.
    rewrite Resampler_ctor_zero. split; reflexivity.
  - intros e H. unfold RealResampler_ctor in H.
    destruct (Resampler_ctor sin cos P0 Q0 taps) as [r | |] eqn:Hr; try discriminate.
    destruct (ctor_fields sin cos P0 Q0 taps r Hr) as [HP HQ].
    cbn [obind] in H. inversion H; subst e. cbn [base history].
    rewrite repeat_length. auto.
  - intros e H. unfold ComplexResampler_ctor in H.
    destruct (Resampler_ctor sin cos P0 Q0 taps) as [r | |] eqn:Hr; try discriminate.
    destruct (ctor_fields sin cos P0 Q0 taps r Hr) as [HP HQ].
    cbn [obind] in H. inversion H; subst e. cbn [base history].
    rewrite repeat_length. auto.
  - intros e input output. apply resample_zero_Q.
  - intros e input output. apply resample_zero_Q.
Qed.

Lemma construction_checks_nothing_witness :
  (RealResampler_ctor series_sin series_cos t_short 0 3 4 = Undefined
   /\ ComplexResampler_ctor series_sin series_cos t_short 0 3 4 = Undefined)
  /\ (exists e, RealResampler_ctor series_sin series_cos t_short 1 0 1 = Done e
        /\ (P (base e) = 1 /\ Q (base e) = 0
            /\ length (history e) = Z.to_nat ((1 - 1) mod 2 ^ 32))
        /\ RealResampler_resample t_short [1; 2; 3] [0; 0] e = (Undefined, e))
  /\ (exists e, ComplexResampler_ctor series_sin series_cos t_short 1 0 1 = Done e
        /\ (P (base e) = 1 /\ Q (base e) = 0
            /\ length (history e) = Z.to_nat ((1 - 1) mod 2 ^ 32))
        /\ ComplexResampler_resample t_short [(1, 2)] [(0, 0)] e = (Undefined, e)).
Proof.
  split; [| split].
  - exact (proj1 (proj2 (construction_checks_nothing series_sin series_cos t_short 0 3 4))
             eq_refl).
  - eexists. split; [vm_compute; reflexivity |]. split.
    + apply (proj1 (proj2 (proj2 (construction_checks_nothing series_sin series_cos t_short
                                    1 0 1)))).
      vm_compute. reflexivity.
    + apply (proj1 (proj2 (proj2 (proj2 (proj2
               (construction_checks_nothing series_sin series_cos t_short 1 0 1)))))).
      reflexivity.
  - eexists. split; [vm_compute; reflexivity |]. split.
    + apply (proj1 (proj2 (proj2 (proj2 (construction_checks_nothing series_sin series_cos
                                           t_short 1 0 1))))).
      vm_compute. reflexivity.
    + apply (proj2 (proj2 (proj2 (proj2 (proj2
               (construction_checks_nothing series_sin series_cos t_short 1 0 1)))))).
      reflexivity.
Defined.

(** C8 as stated fails: construction with [Q = 0] ends in no error and
    returns an engine, with one partition, the path table filled and an
    empty history; the error shows only later, every call of [resample] on
    it being undefined. *)
Lemma zero_denominator_builds_an_engine :
  exists e, RealResampler_ctor series_sin series_cos t_short 1 0 1 = Done e
    /\ P (base e) = 1 /\ Q (base e) = 0 /\ history e = []
    /\ partitions (base e) = [[1%float]]
    /\ length (paths (base e)) = DEFAULT_PATH_LEN
    /\ RealResampler_resample t_short [] [] e = (Undefined, e).
Proof.
  eexists. split; [vm_compute; reflexivity |]. repeat split.
Qed.

(** ** The prototype filter and its partitions (C4) *)

Lemma of_uint63_Z2double (k : Z) :
  0 <= k < 2 ^ 63 -> PrimFloat.of_uint63 (Uint63.of_Z k) = Z2double k.
Proof.
  intros Hk. rewrite <- (SF2Prim_Prim2SF (PrimFloat.of_uint63 (Uint63.of_Z k))).
  rewrite of_uint63_spec, Uint63.of_Z_spec. unfold Z2double.
  rewrite Z.mod_small; [reflexivity |]. exact Hk.
Qed.

Lemma counting_steps (k : nat) :
  Z.of_nat k <= 2 ^ 62 ->
  exists ok,
    nat_rect (fun _ => (PrimInt63.int * double * bool)%type)
      (Uint63.of_Z 0, 0%float, true) (fun _ => counting_step) k
    = (Uint63.of_Z (Z.of_nat k), count_from 0%float k, ok)
    /\ (ok = true -> counting_exact k).
Proof.
  induction k as [| k IH]; intros Hk.
  - exists true. split; [reflexivity |]. intros _ j Hj. lia.
  - destruct IH as [ok [E Hok]]; [lia |].
    exists (ok && PrimFloat.Leibniz.eqb (count_from 0%float k)
                    (PrimFloat.of_uint63 (Uint63.of_Z (Z.of_nat k)))).
    split.
    + cbn [nat_rect]. rewrite E. unfold counting_step.
      replace (Uint63.of_Z (Z.of_nat (S k)))
        with (Uint63.add (Uint63.of_Z (Z.of_nat k)) (Uint63.of_Z 1)); [reflexivity |].
      apply Uint63.to_Z_inj.
      rewrite Uint63.add_spec, !Uint63.of_Z_spec.
      rewrite <- Zplus_mod. f_equal. lia.
    + intros H. apply andb_true_iff in H. destruct H as [H1 H2].
      apply Leibniz.eqb_spec in H2.
      intros j Hj. destruct (Nat.eq_dec j k) as [-> | Hne].
      * rewrite H2. apply of_uint63_Z2double.
        assert (2 ^ 62 < 2 ^ 63) by reflexivity. lia.
      * apply (Hok H1). lia.
Qed.

Lemma counts_exactly_sound (n : positive) :
  counts_exactly n = true -> Z.pos n <= 2 ^ 62 -> counting_exact (Pos.to_nat n).
Proof.
  unfold counts_exactly. rewrite Pos2Nat.inj_iter. intros H Hn.
  destruct (counting_steps (Pos.to_nat n)) as [ok [E Hok]]; [lia |].
  rewrite E in H. exact (Hok H).
Qed.

(** The counter of [init] holds every index below [2^22] exactly (an
    addition of 1.0 per index, checked by running the additions). *)
Lemma counting_exact_upto (n : Z) : n <= 4194304 -> counting_exact (Z.to_nat n).
Proof.
  intros Hn k Hk.
  apply (counts_exactly_sound 4194304); [vm_compute; reflexivity | discriminate | lia].
Qed.

Section FilterSpec.

Variables sin cos : double -> double.

(** The samples the first loop of [init] computes are the prototype samples
    of the claim. *)
Lemma proto_of_prototype (P0 Q0 taps : Z) :
  counting_exact (Z.to_nat (P0 * taps)) ->
  proto_of sin cos (P0 * taps) (Z2double (if (P0 >? Q0)%Z then P0 else Q0))
  = map (fun k => prototype sin cos P0 Q0 taps (Z.of_nat k)) (seq 0 (Z.to_nat (P0 * taps))).
Proof.
  intros Hcount. unfold proto_of. apply map_ext_in. intros k Hk.
  apply seq_bound in Hk. rewrite (Hcount k Hk).
  replace (if (P0 >? Q0)%Z then P0 else Q0) with (Z.max P0 Q0).
  - reflexivity.
  - destruct (Z.gtb_spec P0 Q0); lia.
Qed.

End FilterSpec.

(** After construction with [(P, Q, taps)], with at most [2^22]
    coefficients in all, coefficient [j] of partition [p] is prototype
    sample [(taps-1-j) * P + p] times [beta]: the prototype de-interleaved
    into [P] partitions, each reversed; the sample is [sinc] times the
    Blackman-Harris window and [beta] is [P] over the sum of the samples,
    added in order from 0.0. *)
Theorem partition_is_reversed_phase (sin cos : double -> double)
    (P0 Q0 taps : Z) (r : Resampler) (p j : Z) :
  0 < P0 -> 0 < taps -> P0 * taps <= 2 ^ 22 ->
  Resampler_ctor sin cos P0 Q0 taps = Done r ->
  0 <= p < P0 -> 0 <= j < taps ->
  size (partitions r) = P0
  /\ exists h, nth_error (partitions r) (Z.to_nat p) = Some h
       /\ size h = taps
       /\ nth_error h (Z.to_nat j)
          = Some (prototype sin cos P0 Q0 taps ((taps - 1 - j) * P0 + p)
                  * beta sin cos P0 Q0 taps)%float.
Proof.
  intros HP Ht Hn Hctor Hp Hj.
  assert (Hcount : counting_exact (Z.to_nat (P0 * taps))).
  { apply counting_exact_upto. exact Hn. }
  destruct (@Resampler_ctor_Done sin cos P0 Q0 taps ltac:(lia)) as [r' [Hr' Er]].
  rewrite Hr' in Hctor. inversion Hctor; subst r'. clear Hctor Hr'.
  set (r0 := {| partitions := repeat (repeat 0%float (Z.to_nat taps)) (Z.to_nat P0);
                paths := []; P := P0; Q := Q0 |}) in *.
  set (c := Z2double (if P0 >? Q0 then P0 else Q0)) in *.
  assert (Hrect0 : rect (Z.to_nat (P r0)) (Z.to_nat taps) (partitions r0))
    by apply repeat_rect.
  pose proof (@init_rect sin cos taps c r0 Hrect0) as [Hlen Hrow].
  assert (Hsz0 : size (partitions r0) = P0).
  { unfold size. simpl. rewrite repeat_length. lia. }
  assert (Hpn : (Z.to_nat p < Z.to_nat (P r0))%nat) by (simpl; lia).
  assert (Hjn : (Z.to_nat j < Z.to_nat taps)%nat) by lia.
  pose proof (@init_cell sin cos taps c r0 (Z.to_nat p) (Z.to_nat j) Hrect0 Hpn Hjn)
    as Hcell.
  cbv zeta in Hcell. rewrite Hsz0 in Hcell.
  unfold c in Hcell. rewrite (proto_of_prototype sin cos P0 Q0 taps Hcount) in Hcell.
  fold (prototype_sum sin cos P0 Q0 taps) in Hcell.
  fold (beta sin cos P0 Q0 taps) in Hcell. fold c in Hcell.
  subst r. simpl partitions. fold c.
  split; [unfold size; rewrite Hlen; simpl; lia |].
  exists (nth (Z.to_nat p) (partitions (init sin cos taps c r0)) []).
  split; [apply nth_error_nth'; rewrite Hlen; exact Hpn |].
  split; [unfold size; rewrite (Hrow _ Hpn); lia |].
  rewrite (@nth_error_nth' double _ _ 0%float) by (rewrite (Hrow _ Hpn); exact Hjn).
  f_equal. unfold cell in Hcell. rewrite Hcell. f_equal.
  assert (Hidx : proto_index (P r0) (Z.to_nat taps - S (Z.to_nat j)) (Z.to_nat p)
                 = Z.to_nat ((taps - 1 - j) * P0 + p)).
  { unfold proto_index. simpl P. f_equal.
    replace (Z.of_nat (Z.to_nat taps - S (Z.to_nat j))) with (taps - 1 - j) by lia.
    replace (Z.of_nat (Z.to_nat p)) with p by lia.
    apply wrap_unsigned_small. change (2 ^ UINT_BITS) with 4294967296.
    change (2 ^ 22) with 4194304 in Hn. nia. }
  rewrite Hidx.
  assert (Hk : (Z.to_nat ((taps - 1 - j) * P0 + p) < Z.to_nat (P0 * taps))%nat) by nia.
  rewrite (nth_indep _ 0%float
             (prototype sin cos P0 Q0 taps (Z.of_nat 0))).
  - rewrite (map_nth (fun k => prototype sin cos P0 Q0 taps (Z.of_nat k))).
    rewrite seq_nth by exact Hk. f_equal.
    assert (0 <= (taps - 1 - j) * P0 + p) by nia. lia.
  - rewrite length_map, length_seq. exact Hk.
Qed.

Lemma partition_is_reversed_phase_witness :
  exists r, Resampler_ctor series_sin series_cos 2 3 4 = Done r
    /\ size (partitions r) = 2
    /\ exists h, nth_error (partitions r) (Z.to_nat 1) = Some h
         /\ size h = 4
         /\ nth_error h (Z.to_nat 0)
            = Some (prototype series_sin series_cos 2 3 4 ((4 - 1 - 0) * 2 + 1)
                    * beta series_sin series_cos 2 3 4)%float.
Proof.
  destruct (Resampler_ctor_shape series_sin series_cos 2 3 4 eq_refl) as [r [Hr _]].
  exists r. split; [exact Hr |].
  assert (Hp : 0 <= 1 < 2) by (split; [discriminate | reflexivity]).
  assert (Hj : 0 <= 0 < 4) by (split; [discriminate | reflexivity]).
  assert (Hn : 2 * 4 <= 2 ^ 22) by discriminate.
  exact (partition_is_reversed_phase series_sin series_cos 2 3 4 r 1 0
           eq_refl eq_refl Hn Hr Hp Hj).
Defined.

(** Coefficient [j] of partition [p] after construction, whatever the
    sizes: the prototype sample at the [unsigned] index, times [beta]. *)
Lemma ctor_cell (sin cos : double -> double) (P0 Q0 taps : Z) (r : Resampler)
    (p j idx : nat) (c : double) :
  0 < P0 -> Resampler_ctor sin cos P0 Q0 taps = Done r ->
  (p < Z.to_nat P0)%nat -> (j < Z.to_nat taps)%nat ->
  c = Z2double (if P0 >? Q0 then P0 else Q0) ->
  idx = proto_index P0 (Z.to_nat taps - S j) p ->
  cell (partitions r) p j
  = (nth idx (proto_of sin cos (P0 * taps) c) 0
     * (Z2double P0 / fold_left PrimFloat.add (proto_of sin cos (P0 * taps) c) 0))%float.
Proof.
  intros HP Hctor Hp Hj -> ->.
  destruct (@Resampler_ctor_Done sin cos P0 Q0 taps ltac:(lia)) as [r' [Hr' Er]].
  rewrite Hr' in Hctor. inversion Hctor; subst r'. clear Hctor Hr'.
  set (r0 := {| partitions := repeat (repeat 0%float (Z.to_nat taps)) (Z.to_nat P0);
                paths := []; P := P0; Q := Q0 |}) in *.
  assert (Hrect0 : rect (Z.to_nat (P r0)) (Z.to_nat taps) (partitions r0))
    by apply repeat_rect.
  assert (Hsz0 : size (partitions r0) = P0).
  { unfold size. simpl. rewrite repeat_length. lia. }
  subst r. cbn [partitions].
  rewrite (@init_cell sin cos taps _ r0 p j Hrect0 Hp Hj).
  cbv zeta. rewrite Hsz0. reflexivity.
Qed.

(** C4 fails where the [unsigned] index [j * P + p] of [init] leaves 32
    bits.  With [P = 65536] and [taps = 65537] the prototype has
    [2^32 + 65536] samples.  For coefficient 0 of partition 5 the claim
    names the prototype sample of flat index [(taps-1-0) * P + 5 = 2^32 + 5];
    [init] reads the sample of index 5, the one that coefficient 65536 of
    the partition carries as well, so the two coefficients are the same
    product. *)
Lemma prototype_index_wraps :
  (65537 - 1 - 0) * 65536 + 5 = 4294967301
  /\ proto_index 65536 (Z.to_nat 65537 - 1) 5 = 5%nat
  /\ exists r, Resampler_ctor series_sin series_cos 65536 1 65537 = Done r
       /\ cell (partitions r) 5 0
          = (nth 5 (proto_of series_sin series_cos (65536 * 65537) (Z2double 65536)) 0
             * (Z2double 65536
                / fold_left PrimFloat.add
                    (proto_of series_sin series_cos (65536 * 65537) (Z2double 65536)) 0))%float
       /\ cell (partitions r) 5 (Z.to_nat 65536) = cell (partitions r) 5 0.
Proof.
  assert (Hidx : proto_index 65536 (Z.to_nat 65537 - 1) 5 = 5%nat).
  { unfold proto_index.
    replace (Z.of_nat (Z.to_nat 65537 - 1)) with 65536 by lia.
    reflexivity. }
  assert (Hidx' : 5%nat = proto_index 65536 (Z.to_nat 65537 - S (Z.to_nat 65536)) 5).
  { replace (Z.to_nat 65537 - S (Z.to_nat 65536))%nat with 0%nat by lia. reflexivity. }
  split; [reflexivity |]. split; [exact Hidx |].
  destruct (@Resampler_ctor_Done series_sin series_cos 65536 1 65537 ltac:(discriminate))
    as [r [Hr _]].
  exists r. split; [exact Hr |].
  assert (H1 : 0 < 65536) by reflexivity.
  assert (Hp : (5 < Z.to_nat 65536)%nat) by lia.
  assert (Hj0 : (0 < Z.to_nat 65537)%nat) by lia.
  assert (Hj1 : (Z.to_nat 65536 < Z.to_nat 65537)%nat) by lia.
  pose proof (ctor_cell series_sin series_cos 65536 1 65537 r 5 0 5 (Z2double 65536)
                H1 Hr Hp Hj0 eq_refl (eq_sym Hidx)) as H0.
  pose proof (ctor_cell series_sin series_cos 65536 1 65537 r 5 (Z.to_nat 65536) 5
                (Z2double 65536) H1 Hr Hp Hj1 eq_refl Hidx') as H2.
  split; [exact H0 |]. rewrite H0. exact H2.
Qed.

(** ** The path table (C3) *)

(** C3 fails where [Q * i] leaves 32 bits.  After construction with
    [P = 1], [Q = 2^26] the table of 128 entries holds [(0, 0)] at index 64,
    where [floor(Q i / P) = 2^32], and a negative offset at index 63; with
    the ratio 160/147 the entry of index 29217465 is [(0, 59)] instead of
    [(26843545, 155)]. *)
Lemma path_table_wraps :
  (exists r, Resampler_ctor taylor_sin taylor_cos 1 67108864 1 = Done r
     /\ nth_error (paths r) 63 = Some (-67108864, 0)
     /\ nth_error (paths r) 64 = Some (0, 0))
  /\ (67108864 * 63 / 1, (67108864 * 63) mod 1) = (4227858432, 0)
  /\ (67108864 * 64 / 1, (67108864 * 64) mod 1) = (4294967296, 0)
  /\ path_entry 160 147 29217465 = (0, 59)
  /\ (147 * 29217465 / 160, (147 * 29217465) mod 160) = (26843545, 155).
Proof.
  split; [| repeat split; vm_compute; reflexivity].
  eexists. split; [vm_compute; reflexivity |]. split; vm_compute; reflexivity.
Qed.

(** Below the wrap the table is the one of the specification: on an engine
    that satisfies the invariant, every entry [i] of the table with
    [Q * i < 2^31] is [(floor(Q i / P), (Q i) mod P)]; its partition index
    lies in [0, P) and the offsets do not decrease up to [i]. *)
Theorem path_table_below_wrap {S : Type} (taps : Z) (e : Engine S) (i : Z) :
  well_formed taps e ->
  0 <= i < size (paths (base e)) -> Q (base e) * i < 2 ^ 31 ->
  nth_error (paths (base e)) (Z.to_nat i)
  = Some (Q (base e) * i / P (base e), (Q (base e) * i) mod P (base e))
  /\ 0 <= (Q (base e) * i) mod P (base e) < P (base e)
  /\ forall j, 0 <= j <= i -> Q (base e) * j / P (base e) <= Q (base e) * i / P (base e).
Proof.
  intros [HP HQ _ _ _ _ Htab] Hi Hrange. unfold size in Hi.
  split; [| split].
  - rewrite Htab, resize_loop_nth by lia.
    rewrite Z.add_0_l, Z2Nat.id by lia. f_equal.
    apply path_entry_exact; [lia |]. change (UINT_BITS - 1) with 31. nia.
  - apply Z.mod_pos_bound. lia.
  - intros j Hj. apply Z.div_le_mono; [lia | nia].
Qed.

Lemma path_table_below_wrap_witness :
  nth_error (paths (base demo_real)) (Z.to_nat 5) = Some (3 * 5 / 2, (3 * 5) mod 2)
  /\ 0 <= (3 * 5) mod 2 < 2
  /\ forall j, 0 <= j <= 5 -> 3 * j / 2 <= 3 * 5 / 2.
Proof.
  apply (path_table_below_wrap 2 demo_real 5 demo_real_well_formed);
    vm_compute; intuition congruence.
Defined.

(** ** Accesses of the loop (C9) *)

Section Accesses.

Context {S : Type}.
Variable sample : list double -> list S -> option S.
Variable kernel : list double -> list S -> outcome S.
Hypothesis kernel_sample : kernel_of sample kernel.

Lemma sample_at_negative (parts : list (list double)) (x : list S) (first second : Z) :
  first < 0 -> sample_at kernel parts x (first, second) = Undefined.
Proof.
  intros Hneg. unfold sample_at, vec_at, advance. simpl.
  destruct ((0 <=? second) && (second <? size parts)); [| reflexivity].
  destruct (nth_error parts (Z.to_nat second)); [| reflexivity]. simpl.
  destruct (Z.leb_spec 0 first); [lia | reflexivity].
Qed.

Lemma convolve_bad_entry (parts : list (list double)) (x : list S) :
  forall (output : list S) (pi : list (Z * Z)) (k : nat) (entry : Z * Z),
  (k < length output)%nat -> nth_error pi k = Some entry ->
  sample_at kernel parts x entry = Undefined ->
  convolve kernel parts x pi output = Undefined.
Proof.
  induction output as [| o output IH]; intros pi k entry Hk Hnth Hbad;
    simpl in Hk; [lia |].
  destruct pi as [| [first second] pi]; [destruct k; discriminate |].
  pose proof (sample_at_not_thrown kernel_sample parts x (first, second)) as Hnt.
  simpl. unfold sample_at in *. simpl in Hnt.
  destruct k as [| k]; simpl in Hnth.
  - inversion Hnth; subst entry. simpl in Hbad.
    destruct (vec_at parts second) as [h | |]; simpl in *; try congruence.
    destruct (advance x first) as [xi | |]; simpl in *; try congruence.
    now rewrite Hbad.
  - destruct (vec_at parts second) as [h | |]; simpl in *; try congruence.
    destruct (advance x first) as [xi | |]; simpl in *; try congruence.
    destruct (kernel h xi) as [v | |]; simpl in *; try congruence.
    rewrite (IH pi k entry) by (assumption || lia). reflexivity.
Qed.

(** A call whose sizes pass the checks, with a negative offset among the
    path entries it uses, reads before the start of the buffer. *)
Lemma negative_offset_undefined (input output : list S) (e : Engine S)
    (k : nat) (first second : Z) :
  P (base e) <> 0 -> Q (base e) <> 0 -> accepts e input output = true ->
  (k < length output)%nat ->
  nth_error (paths (grow (length output) (base e))) k = Some (first, second) ->
  first < 0 ->
  fst (resample_with kernel input output e) = Undefined.
Proof.
  intros HP HQ Ha Hk Hnth Hneg.
  rewrite resample_with_eq, Ha by assumption. simpl.
  apply (convolve_bad_entry _ _ _ _ k (first, second) Hk Hnth).
  now apply sample_at_negative.
Qed.

(** In range, every access of a turn is inside its vector: the path table
    has the entry, the entry names a partition, and the [taps] samples the
    inner loop reads lie inside the extended buffer. *)
Lemma accesses_in_bounds (taps : Z) (e : Engine S) (input output : list S) (i : Z) :
  well_formed taps e -> preconditions taps e input output ->
  0 <= i < size output -> Q (base e) * i < 2 ^ (UINT_BITS - 1) ->
  exists (first second : Z) (h : list double) (xi : list S),
    nth_error (paths (grow (length output) (base e))) (Z.to_nat i) = Some (first, second)
    /\ first = Q (base e) * i / P (base e)
    /\ second = (Q (base e) * i) mod P (base e)
    /\ vec_at (partitions (base e)) second = Done h
    /\ advance (history e ++ input) first = Done xi
    /\ size h = taps
    /\ 0 <= first /\ first + taps <= taps - 1 + size input
    /\ size h <= size xi.
Proof.
  intros Hwf Hpre Hi Hrange.
  pose proof Hwf as [HP HQ Ht Hn Hp Hh Htab].
  destruct Hpre as [Hin [Hout [Heq Hlen]]].
  pose proof (offset_below_input (P (base e)) (Q (base e)) (size input) (size output) i
                ltac:(lia) ltac:(lia) Hin Hout Heq Hi) as Hoff.
  assert (Hmod : 0 <= (Q (base e) * i) mod P (base e) < P (base e))
    by (apply Z.mod_pos_bound; lia).
  destruct (partition_at taps e _ Hwf Hmod) as [h [Hh' Hsz]].
  destruct (grow_covers (length output) Htab) as [Hcov Hfirst].
  assert (Hk : (Z.to_nat i < length output)%nat) by (unfold size in Hi; lia).
  assert (Hentry : nth_error (paths (grow (length output) (base e))) (Z.to_nat i)
                   = Some (path_entry (P (base e)) (Q (base e)) i)).
  { rewrite <- (firstn_skipn (length output) (paths (grow (length output) (base e)))).
    rewrite nth_error_app1 by (rewrite length_firstn; lia).
    rewrite Hfirst, resize_loop_nth by exact Hk.
    now rewrite Z.add_0_l, Z2Nat.id by lia. }
  rewrite path_entry_exact in Hentry by nia.
  assert (Hx : size (history e ++ input) = taps - 1 + size input).
  { unfold size in *. rewrite length_app. lia. }
  exists (Q (base e) * i / P (base e)), ((Q (base e) * i) mod P (base e)), h,
    (skipn (Z.to_nat (Q (base e) * i / P (base e))) (history e ++ input)).
  repeat split; try assumption; try lia.
  - apply vec_at_Done. split; [lia | exact Hh'].
  - unfold advance.
    destruct (Z.leb_spec 0 (Q (base e) * i / P (base e))),
      (Z.leb_spec (Q (base e) * i / P (base e)) (size (history e ++ input)));
      try lia. reflexivity.
  - unfold size in *. rewrite length_skipn. lia.
Qed.

End Accesses.

(** C9 fails where the offset leaves the range of [int].  The engine has
    [P = 1], [Q = 2^30], [taps = 1]; the input has [3 * 2^30] samples and the
    output 3, so the four preconditions hold.  The path entry of output 2
    holds the offset [-2^31] (the conversion of [2^31] to [int]), and the
    loop reads before the start of the extended buffer. *)
Lemma window_before_buffer :
  well_formed 1 decimator
  /\ preconditions 1 decimator (repeat 0 (Z.to_nat 3221225472)) [0; 0; 0]
  /\ nth_error (paths (base decimator)) 2 = Some (-2147483648, 0)
  /\ fst (RealResampler_resample t_char (repeat 0 (Z.to_nat 3221225472)) [0; 0; 0] decimator)
     = Undefined.
Proof.
  assert (Hsize : size (repeat 0 (Z.to_nat 3221225472)) = 3221225472).
  { unfold size. rewrite repeat_length. apply Z2Nat.id. discriminate. }
  assert (Hwf : @well_formed Z 1 decimator).
  { split; try (vm_compute; intuition congruence). repeat constructor. }
  assert (Hpre : preconditions 1 decimator (repeat 0 (Z.to_nat 3221225472)) [0; 0; 0]).
  { unfold preconditions. rewrite Hsize. vm_compute. intuition congruence. }
  split; [exact Hwf |]. split; [exact Hpre |]. split; [vm_compute; reflexivity |].
  apply (negative_offset_undefined (real_sample t_char) (real_kernel t_char)
           (@real_kernel_of t_char) (repeat 0 (Z.to_nat 3221225472)) [0; 0; 0]
           decimator 2 (-2147483648) 0).
  - discriminate.
  - discriminate.
  - apply (accepts_iff 1 decimator _ _ (wf_history Hwf)). exact Hpre.
  - simpl. lia.
  - vm_compute. reflexivity.
  - reflexivity.
Qed.

(** ** Saturation (C5) *)

(** C5 fails for [long].  The upper bound of the clamp is
    [(double) numeric_limits<long>::max()], and the conversion rounds
    [2^63 - 1] up to [2^63]: a full-scale sample through a unit coefficient
    accumulates [2^63], the clamp leaves [2^63], which is above the maximum
    of [long], and the conversion of [2^63] to [long] is undefined. *)
Lemma long_clamp_exceeds_max :
  limits_max t_long = 9223372036854775807
  /\ to_double t_long (limits_max t_long) = 0x1p+63%float
  /\ saturate t_long (to_double t_long 9223372036854775807) = 0x1p+63%float
  /\ double2Z 0x1p+63%float = Some 9223372036854775808
  /\ of_double t_long (saturate t_long 0x1p+63%float) = None
  /\ fst (RealResampler_resample t_long [9223372036854775807] [0] unit_engine) = Undefined
  /\ fst (ComplexResampler_resample t_long [(0, 9223372036854775807)] [(0, 0)]
            unit_complex_engine) = Undefined.
Proof. repeat split; vm_compute; reflexivity. Qed.

Lemma pos_below_pow2_digits (m : positive) : Zpos m < 2 ^ Zpos (digits2_pos m).
Proof.
  induction m as [m IH | m IH |]; simpl digits2_pos.
  - rewrite Pos2Z.inj_succ, Z.pow_succ_r, Pos2Z.inj_xI by lia. lia.
  - rewrite Pos2Z.inj_succ, Z.pow_succ_r, Pos2Z.inj_xO by lia. lia.
  - reflexivity.
Qed.

(** The mantissa of a binary64 number has at most 53 bits. *)
Lemma valid_mantissa_bound (s : bool) (m : positive) (e : Z) :
  valid_binary (S754_finite s m e) = true -> Zpos m < 2 ^ 53.
Proof.
  unfold SpecFloat.valid_binary, bounded, canonical_mantissa, fexp.
  rewrite andb_true_iff. intros [H _]. apply Z.eqb_eq in H.
  pose proof (pos_below_pow2_digits m) as Hm.
  assert (Hd : Zpos (digits2_pos m) <= 53) by (unfold prec in H; lia).
  eapply Z.lt_le_trans; [exact Hm | apply Z.pow_le_mono_r; lia].
Qed.

Lemma shifted_mantissa_le (m : positive) (e el bound : Z) :
  Zpos m < 2 ^ 53 -> e < el -> el < 0 ->
  2 ^ 53 / 2 ^ (- el + 1) <= bound ->
  Zpos m / 2 ^ (- e) <= bound.
Proof.
  intros Hm He Hel Hb.
  eapply Z.le_trans; [| exact Hb].
  eapply Z.le_trans.
  - apply Z.div_le_compat_l with (q := 2 ^ (- el + 1)); [lia |].
    split; [apply Z.pow_pos_nonneg; lia | apply Z.pow_le_mono_r; lia].
  - apply Z.div_le_mono; [apply Z.pow_pos_nonneg; lia | lia].
Qed.

(** A double strictly between the doubles of two integer bounds truncates
    to an integer between the bounds. *)
Lemma in_open_range_fits (lo hi a : double) (ml mh : positive) (el eh zmin zmax : Z) :
  Prim2SF lo = S754_finite true ml el -> Prim2SF hi = S754_finite false mh eh ->
  el < 0 -> eh < 0 ->
  Zpos ml / 2 ^ (- el) <= - zmin ->
  2 ^ 53 / 2 ^ (- el + 1) <= - zmin ->
  Zpos mh / 2 ^ (- eh) <= zmax ->
  2 ^ 53 / 2 ^ (- eh + 1) <= zmax ->
  zmin <= 0 <= zmax ->
  (lo <? a)%float = true -> (a <? hi)%float = true ->
  exists v, double2Z a = Some v /\ zmin <= v <= zmax.
Proof.
  intros Hlo Hhi Hel Heh Hl1 Hl2 Hh1 Hh2 Hz H1 H2.
  rewrite ltb_spec, Hlo in H1. rewrite ltb_spec, Hhi in H2.
  pose proof (Prim2SF_valid a) as Hv. unfold double2Z.
  destruct (Prim2SF a) as [s | s | | s m e].
  - exists 0. split; [reflexivity | lia].
  - destruct s; discriminate.
  - discriminate.
  - pose proof (valid_mantissa_bound s m e Hv) as Hm.
    unfold SFltb, SFcompare in H1, H2.
    destruct s.
    + clear H2.
      assert (He : e < el \/ (e = el /\ Zpos m < Zpos ml)).
      { destruct (Z.compare_spec el e) as [E | E | E]; try discriminate.
        - right. split; [lia |].
          rewrite Pos.compare_cont_spec in H1. simpl in H1.
          destruct (Pos.compare_spec ml m); try discriminate. lia.
        - left. lia. }
      assert (Hneg : (0 <=? e) = false) by (apply Z.leb_gt; lia).
      rewrite Hneg, Z.shiftr_div_pow2 by lia.
      assert (0 <= Zpos m / 2 ^ (- e)).
      { apply Z.div_pos; [lia | apply Z.pow_pos_nonneg; lia]. }
      assert (Zpos m / 2 ^ (- e) <= - zmin).
      { destruct He as [He | [-> Hlt]].
        - now apply shifted_mantissa_le with (el := el).
        - eapply Z.le_trans; [| exact Hl1].
          apply Z.div_le_mono; [apply Z.pow_pos_nonneg; lia | lia]. }
      eexists. split; [reflexivity | lia].
    + clear H1.
      assert (He : e < eh \/ (e = eh /\ Zpos m < Zpos mh)).
      { destruct (Z.compare_spec e eh) as [E | E | E]; try discriminate.
        - right. split; [lia |].
          rewrite Pos.compare_cont_spec in H2. simpl in H2.
          destruct (Pos.compare_spec m mh); try discriminate. lia.
        - left. lia. }
      assert (Hneg : (0 <=? e) = false) by (apply Z.leb_gt; lia).
      rewrite Hneg, Z.shiftr_div_pow2 by lia.
      assert (0 <= Zpos m / 2 ^ (- e)).
      { apply Z.div_pos; [lia | apply Z.pow_pos_nonneg; lia]. }
      assert (Zpos m / 2 ^ (- e) <= zmax).
      { destruct He as [He | [-> Hlt]].
        - now apply shifted_mantissa_le with (el := eh).
        - eapply Z.le_trans; [| exact Hh1].
          apply Z.div_le_mono; [apply Z.pow_pos_nonneg; lia | lia]. }
      eexists. split; [reflexivity | lia].
Qed.

(** For [char], [short] and [int] the clamp works as the specification says:
    whatever the accumulated double (a NaN or an infinity included), the
    clamped value converts to an integer of the type, inside
    [typeMin, typeMax]. *)
Lemma saturate_fits (bits : Z) :
  bits = 8 \/ bits = 16 \/ bits = 32 ->
  forall a : double,
  exists v, of_double (signed_type bits) (saturate (signed_type bits) a) = Some v
            /\ int_min bits <= v <= int_max bits.
Proof.
  intros Hbits a.
  assert (Hgen : forall lo hi ml mh el eh,
             Z2double (int_min bits) = lo -> Z2double (int_max bits) = hi ->
             Prim2SF lo = S754_finite true ml el -> Prim2SF hi = S754_finite false mh eh ->
             el < 0 -> eh < 0 ->
             Zpos ml / 2 ^ (- el) <= - int_min bits ->
             2 ^ 53 / 2 ^ (- el + 1) <= - int_min bits ->
             Zpos mh / 2 ^ (- eh) <= int_max bits ->
             2 ^ 53 / 2 ^ (- eh + 1) <= int_max bits ->
             int_min bits <= 0 <= int_max bits ->
             (lo <? hi)%float = true ->
             double2int bits lo = Some (int_min bits) ->
             double2int bits hi = Some (int_max bits) ->
             exists v, of_double (signed_type bits) (saturate (signed_type bits) a) = Some v
                       /\ int_min bits <= v <= int_max bits).
  { intros lo hi ml mh el eh Elo Ehi Hlo Hhi Hel Heh Hl1 Hl2 Hh1 Hh2 Hz Hlt Hclo Hchi.
    unfold saturate, std_min, std_max. simpl. rewrite Elo, Ehi.
    destruct (lo <? a)%float eqn:E1.
    - destruct (a <? hi)%float eqn:E2.
      + destruct (in_open_range_fits lo hi a ml mh el eh (int_min bits) (int_max bits)
                    Hlo Hhi Hel Heh Hl1 Hl2 Hh1 Hh2 Hz E1 E2) as [v [Hv Hr]].
        exists v. split; [| exact Hr]. unfold double2int. rewrite Hv.
        unfold in_int_range.
        destruct (Z.leb_spec (int_min bits) v), (Z.leb_spec v (int_max bits)); try lia.
        reflexivity.
      + exists (int_max bits). split; [exact Hchi | lia].
    - rewrite Hlt. exists (int_min bits). split; [exact Hclo | lia]. }
  destruct Hbits as [-> | [-> | ->]].
  - apply (Hgen (-128)%float 127%float 4503599627370496%positive 8936830510563328%positive (-45) (-46));
      vm_compute; try reflexivity; try discriminate; intuition discriminate.
  - eapply Hgen; try (vm_compute; reflexivity); vm_compute; try discriminate; intuition discriminate.
  - eapply Hgen; try (vm_compute; reflexivity); vm_compute; try discriminate; intuition discriminate.
Qed.

Lemma narrowing_defined_types :
  narrowing_defined t_char /\ narrowing_defined t_short /\ narrowing_defined t_int
  /\ narrowing_defined t_float /\ narrowing_defined t_double.
Proof.
  repeat split; intros a.
  - destruct (saturate_fits 8 (or_introl eq_refl) a) as [v [Hv _]]. now exists v.
  - destruct (saturate_fits 16 (or_intror (or_introl eq_refl)) a) as [v [Hv _]].
    now exists v.
  - destruct (saturate_fits 32 (or_intror (or_intror eq_refl)) a) as [v [Hv _]].
    now exists v.
  - eexists. reflexivity.
  - eexists. reflexivity.
Qed.

(** Clamping at work where C5 holds: the integer types of at most
    32 bits are clamped into their range, the floating types are not
    clamped. *)
Theorem saturation_of_narrow_types (a : double) :
  (forall bits, bits = 8 \/ bits = 16 \/ bits = 32 ->
     exists v, of_double (signed_type bits) (saturate (signed_type bits) a) = Some v
               /\ int_min bits <= v <= int_max bits)
  /\ saturate t_float a = a /\ saturate t_double a = a.
Proof.
  split; [| split; reflexivity].
  intros bits Hbits. now apply saturate_fits.
Qed.

Lemma saturation_of_narrow_types_witness :
  (exists v, of_double t_char (saturate t_char 1e30%float) = Some v
             /\ int_min 8 <= v <= int_max 8)
  /\ (exists v, of_double t_int (saturate t_int nan) = Some v
             /\ int_min 32 <= v <= int_max 32).
Proof.
  split.
  - exact (proj1 (saturation_of_narrow_types 1e30%float) 8 (or_introl eq_refl)).
  - exact (proj1 (saturation_of_narrow_types nan) 32 (or_intror (or_intror eq_refl))).
Defined.

(** ** No failure once the preconditions pass, below the wrap *)

Lemma collect_Done_all {A : Type} (l : list (outcome A)) :
  Forall (fun s => exists v, s = Done v) l ->
  exists vs, collect l = Done vs /\ length vs = length l.
Proof.
  induction 1 as [| s l [v ->] _ [vs [IH Hlen]]]; simpl.
  - exists []. split; reflexivity.
  - rewrite IH. simpl. exists (v :: vs). split; [reflexivity | simpl; now rewrite Hlen].
Qed.

Lemma resample_succeeds {S : Type} (sample : list double -> list S -> option S)
    (kernel : list double -> list S -> outcome S) (taps : Z)
    (e : Engine S) (input output : list S) :
  kernel_of sample kernel ->
  (forall h w, exists v, sample h w = Some v) ->
  well_formed taps e -> preconditions taps e input output ->
  Q (base e) * size output <= 2 ^ (UINT_BITS - 1) ->
  exists res e',
    resample_with kernel input output e = (Done res, e')
    /\ length res = length output.
Proof.
  intros Hk Htotal Hwf Hpre Hrange.
  pose proof Hwf as [HP HQ _ _ _ Hh Htab].
  assert (Ha : accepts e input output = true)
    by (apply (accepts_iff taps e input output Hh); exact Hpre).
  rewrite (resample_with_turns kernel input output e) by (assumption || lia).
  rewrite Ha.
  destruct (collect_Done_all (turns kernel e input (length output))) as [res [Hres Hlen]].
  - apply Forall_forall. intros s Hs. unfold turns in Hs.
    apply in_map_iff in Hs. destruct Hs as [k [<- Hin]]. apply seq_bound in Hin.
    assert (Hi : 0 <= Z.of_nat k < size output) by (unfold size; lia).
    assert (Hr : Q (base e) * Z.of_nat k < 2 ^ (UINT_BITS - 1)).
    { unfold size in *. nia. }
    destruct (turn_in_range sample kernel Hk taps e input output (Z.of_nat k)
                Hwf Ha Hi Hr) as [h [_ [_ [_ ->]]]].
    destruct (Htotal h (window (history e ++ input)
                          (Q (base e) * Z.of_nat k / P (base e)) taps)) as [v ->].
    exists v. reflexivity.
  - exists res, (after_call e input output). rewrite Hres. split; [reflexivity |].
    rewrite Hlen. unfold turns. now rewrite length_map, length_seq.
Qed.

(** Below the wrap, once the preconditions pass, [resample] cannot fail:
    every path entry, partition and window access is inside its vector, and
    for [char], [short], [int], [float] and [double] samples (types whose
    final conversion is always defined) the call returns all the outputs. *)
Theorem no_failure_below_wrap (T : elem_type) (taps : Z) :
  narrowing_defined T ->
  (forall (e : Engine (carrier T)) (input output : list (carrier T)),
      well_formed taps e -> preconditions taps e input output ->
      Q (base e) * size output <= 2 ^ 31 ->
      (exists res e',
          RealResampler_resample T input output e = (Done res, e')
          /\ length res = length output)
      /\ forall i, 0 <= i < size output ->
           exists (first second : Z) (h : list double) (xi : list (carrier T)),
             nth_error (paths (grow (length output) (base e))) (Z.to_nat i)
             = Some (first, second)
             /\ vec_at (partitions (base e)) second = Done h
             /\ advance (history e ++ input) first = Done xi
             /\ 0 <= first /\ first + taps <= taps - 1 + size input
             /\ size h <= size xi)
  /\ (forall (e : Engine (complex T)) (input output : list (complex T)),
      well_formed taps e -> preconditions taps e input output ->
      Q (base e) * size output <= 2 ^ 31 ->
      (exists res e',
          ComplexResampler_resample T input output e = (Done res, e')
          /\ length res = length output)
      /\ forall i, 0 <= i < size output ->
           exists (first second : Z) (h : list double) (xi : list (complex T)),
             nth_error (paths (grow (length output) (base e))) (Z.to_nat i)
             = Some (first, second)
             /\ vec_at (partitions (base e)) second = Done h
             /\ advance (history e ++ input) first = Done xi
             /\ 0 <= first /\ first + taps <= taps - 1 + size input
             /\ size h <= size xi).
Proof.
  intros Hnarrow.
  assert (Hreal : forall h w, exists v, real_sample T h w = Some v).
  { intros h w. unfold real_sample. apply Hnarrow. }
  assert (Hcomplex : forall h w, exists v, complex_sample T h w = Some v).
  { intros h w. unfold complex_sample.
    destruct (Hnarrow (dot_product h (map (fun s => to_double T (fst s)) w))) as [re ->].
    destruct (Hnarrow (dot_product h (map (fun s => to_double T (snd s)) w))) as [im ->].
    now exists (re, im). }
  split; intros e input output Hwf Hpre Hrange; split.
  - exact (resample_succeeds (real_sample T) (real_kernel T) taps e input output
             (@real_kernel_of T) Hreal Hwf Hpre Hrange).
  - intros i Hi.
    assert (Hr : Q (base e) * i < 2 ^ (UINT_BITS - 1)).
    { pose proof (wf_Q Hwf). change (UINT_BITS - 1) with 31. nia. }
    destruct (accesses_in_bounds taps e input output i Hwf Hpre Hi Hr)
      as [first [second [h [xi [H1 [_ [_ [H2 [H3 [_ [H4 [H5 H6]]]]]]]]]]]].
    exists first, second, h, xi. auto 10.
  - exact (resample_succeeds (complex_sample T) (complex_kernel T) taps e input output
             (@complex_kernel_of T) Hcomplex Hwf Hpre Hrange).
  - intros i Hi.
    assert (Hr : Q (base e) * i < 2 ^ (UINT_BITS - 1)).
    { pose proof (wf_Q Hwf). change (UINT_BITS - 1) with 31. nia. }
    destruct (accesses_in_bounds taps e input output i Hwf Hpre Hi Hr)
      as [first [second [h [xi [H1 [_ [_ [H2 [H3 [_ [H4 [H5 H6]]]]]]]]]]]].
    exists first, second, h, xi. auto 10.
Qed.

Lemma demo_preconditions : preconditions 2 demo_real [1; 2; 3] [0; 0].
Proof. vm_compute. intuition congruence. Qed.

Lemma no_failure_below_wrap_witness :
  exists res e',
    RealResampler_resample t_short [1; 2; 3] [0; 0] demo_real = (Done res, e')
    /\ length res = length [0; 0].
Proof.
  assert (Hrange : Q (base demo_real) * size [0; 0] <= 2 ^ 31) by discriminate.
  exact (proj1 (proj1 (no_failure_below_wrap t_short 2
                         (proj1 (proj2 narrowing_defined_types)))
                  demo_real [1; 2; 3] [0; 0]
                  demo_real_well_formed demo_preconditions Hrange)).
Defined.

Lemma window_one {A : Type} (x : list A) (offset : Z) (v : A) :
  nth_error x (Z.to_nat offset) = Some v -> window x offset 1 = [v].
Proof.
  intros H. unfold window. rewrite <- hd_error_skipn in H.
  destruct (skipn (Z.to_nat offset) x) as [| a rest]; [discriminate |].
  simpl in H. inversion H; subst. reflexivity.
Qed.

(** ** What a call keeps and what it ignores *)

Lemma convolve_length {S : Type} (kernel : list double -> list S -> outcome S)
    (parts : list (list double)) (x : list S) :
  forall (output : list S) (pi : list (Z * Z)) (res : list S),
  convolve kernel parts x pi output = Done res -> length res = length output.
Proof.
  induction output as [| o output IH]; intros pi res H; simpl in H.
  - now inversion H.
  - destruct pi as [| [first second] pi']; [discriminate |].
    destruct (vec_at parts second) as [h | |]; simpl in H; try discriminate.
    destruct (advance x first) as [xi | |]; simpl in H; try discriminate.
    destruct (kernel h xi) as [v | |]; simpl in H; try discriminate.
    destruct (convolve kernel parts x pi' output) as [rest | |] eqn:E;
      simpl in H; try discriminate.
    inversion H; subst. simpl. f_equal. exact (IH pi' rest E).
Qed.

Lemma convolve_ignores_output {S : Type} (kernel : list double -> list S -> outcome S)
    (parts : list (list double)) (x : list S) :
  forall (output output' : list S) (pi : list (Z * Z)),
  length output = length output' ->
  convolve kernel parts x pi output = convolve kernel parts x pi output'.
Proof.
  induction output as [| o output IH]; intros [| o' output'] pi Hlen;
    simpl in Hlen; try discriminate; [reflexivity |].
  simpl. destruct pi as [| [first second] pi']; [reflexivity |].
  destruct (vec_at parts second) as [h | |]; simpl; try reflexivity.
  destruct (advance x first) as [xi | |]; simpl; try reflexivity.
  destruct (kernel h xi) as [v | |]; simpl; try reflexivity.
  rewrite (IH output' pi') by (now injection Hlen). reflexivity.
Qed.

Lemma resample_ignores_output {S : Type} (kernel : list double -> list S -> outcome S)
    (input output output' : list S) (e : Engine S) :
  length output = length output' ->
  resample_with kernel input output e = resample_with kernel input output' e.
Proof.
  intros Hlen.
  assert (Hcopy : COPY_INPUT input output e = COPY_INPUT input output' e).
  { unfold COPY_INPUT, size. rewrite Hlen. reflexivity. }
  unfold resample_with, mbind. rewrite Hcopy.
  destruct (COPY_INPUT input output' e) as [[x | |] e1]; try reflexivity.
  unfold mget, mlift.
  now rewrite (convolve_ignores_output kernel _ x output output').
Qed.

Lemma done_length {S : Type} (kernel : list double -> list S -> outcome S)
    (input output res : list S) (e e' : Engine S) :
  resample_with kernel input output e = (Done res, e') -> length res = length output.
Proof.
  intros H. destruct (done_state kernel input output res e e' H) as [HP [HQ [Ha He]]].
  rewrite (resample_with_eq kernel input output e HP HQ), Ha in H.
  injection H as Hc _. exact (convolve_length kernel _ _ _ _ _ Hc).
Qed.

(** The content of the output vector is irrelevant: [resample] reads
    its length and overwrites every element, so two calls that differ only
    in what the output vector held return the same samples and leave the
    same engine. *)
Theorem output_vector_is_overwritten (T : elem_type) :
  (forall (input output output' : list (carrier T)) (e : Engine (carrier T)),
      length output = length output' ->
      RealResampler_resample T input output e = RealResampler_resample T input output' e)
  /\ (forall (input output output' : list (complex T)) (e : Engine (complex T)),
      length output = length output' ->
      ComplexResampler_resample T input output e
      = ComplexResampler_resample T input output' e).
Proof.
  split; intros input output output' e Hlen.
  - exact (resample_ignores_output (real_kernel T) input output output' e Hlen).
  - exact (resample_ignores_output (complex_kernel T) input output output' e Hlen).
Qed.

Lemma output_vector_is_overwritten_witness :
  RealResampler_resample t_short [1; 2; 3] [0; 0] demo_real
  = RealResampler_resample t_short [1; 2; 3] [-5; 9] demo_real
  /\ ComplexResampler_resample t_short [(1, 2); (3, 4); (5, 6)] [(0, 0); (0, 0)] demo_complex
     = ComplexResampler_resample t_short [(1, 2); (3, 4); (5, 6)] [(4, 4); (8, 8)]
         demo_complex.
Proof.
  split.
  - apply (proj1 (output_vector_is_overwritten t_short)). reflexivity.
  - apply (proj2 (output_vector_is_overwritten t_short)). reflexivity.
Defined.

(** ** The invariant of an engine *)

Lemma call_keeps_invariant {S : Type} (kernel : list double -> list S -> outcome S)
    (taps : Z) (input output res : list S) (e e' : Engine S) :
  well_formed taps e ->
  resample_with kernel input output e = (Done res, e') ->
  well_formed taps e'
  /\ partitions (base e') = partitions (base e)
  /\ P (base e') = P (base e) /\ Q (base e') = Q (base e)
  /\ length res = length output.
Proof.
  intros Hwf H.
  pose proof (done_length kernel input output res e e' H) as Hlen.
  destruct (done_state kernel input output res e e' H) as [_ [_ [Ha ->]]].
  split; [exact (after_call_well_formed taps input output e Hwf Ha) |].
  destruct (grow_fields (length output) (base e)) as [Ep [EP EQ]].
  cbn [after_call base]. auto.
Qed.

Lemma constructed_engines (sin cos : double -> double) (T : elem_type) (P0 Q0 taps : Z) :
  0 < P0 < 2 ^ 32 -> 0 < Q0 < 2 ^ 32 -> 0 < taps < 2 ^ 32 ->
  (exists e, RealResampler_ctor sin cos T P0 Q0 taps = Done e
     /\ well_formed taps e /\ P (base e) = P0 /\ Q (base e) = Q0
     /\ length (paths (base e)) = DEFAULT_PATH_LEN)
  /\ (exists e, ComplexResampler_ctor sin cos T P0 Q0 taps = Done e
     /\ well_formed taps e /\ P (base e) = P0 /\ Q (base e) = Q0
     /\ length (paths (base e)) = DEFAULT_PATH_LEN).
Proof.
  intros HP HQ Ht.
  assert (HP0 : 0 < P0) by lia.
  destruct (Resampler_ctor_shape sin cos P0 Q0 taps HP0) as [r [Hr [EP [EQ [Epaths Hrect]]]]].
  split.
  - exists {| base := r; history := repeat (value_init T) (history_len taps) |}.
    split; [unfold RealResampler_ctor; now rewrite Hr |].
    split; [exact (ctor_well_formed (value_init T) P0 Q0 taps r HP HQ Ht EP EQ Epaths Hrect) |].
    cbn [base]. rewrite Epaths, resize_loop_length. auto.
  - exists {| base := r;
              history := repeat (value_init T, value_init T) (history_len taps) |}.
    split; [unfold ComplexResampler_ctor; now rewrite Hr |].
    split; [exact (ctor_well_formed (value_init T, value_init T) P0 Q0 taps r
                     HP HQ Ht EP EQ Epaths Hrect) |].
    cbn [base]. rewrite Epaths, resize_loop_length. auto.
Qed.

(** The engine a constructor returns, for a ratio and a number of taps
    that are positive, satisfies the invariant: [P] partitions of [taps]
    coefficients each, a history of [taps - 1] samples, and a path table of
    128 entries that [resize] computed for the ratio of the engine. *)
Theorem constructor_establishes_invariant (sin cos : double -> double) (T : elem_type)
    (P0 Q0 taps : Z) :
  0 < P0 < 2 ^ 32 -> 0 < Q0 < 2 ^ 32 -> 0 < taps < 2 ^ 32 ->
  (forall e : Engine (carrier T),
      RealResampler_ctor sin cos T P0 Q0 taps = Done e ->
      well_formed taps e /\ P (base e) = P0 /\ Q (base e) = Q0
      /\ length (paths (base e)) = DEFAULT_PATH_LEN)
  /\ (forall e : Engine (complex T),
      ComplexResampler_ctor sin cos T P0 Q0 taps = Done e ->
      well_formed taps e /\ P (base e) = P0 /\ Q (base e) = Q0
      /\ length (paths (base e)) = DEFAULT_PATH_LEN).
Proof.
  intros HP HQ Ht.
  destruct (constructed_engines sin cos T P0 Q0 taps HP HQ Ht)
    as [[e1 [He1 H1]] [e2 [He2 H2]]].
  split; intros e He.
  - rewrite He1 in He. inversion He; subst e. exact H1.
  - rewrite He2 in He. inversion He; subst e. exact H2.
Qed.

Lemma constructor_establishes_invariant_witness :
  (exists e, RealResampler_ctor series_sin series_cos t_short 2 3 4 = Done e
     /\ well_formed 4 e /\ P (base e) = 2 /\ Q (base e) = 3
     /\ length (paths (base e)) = DEFAULT_PATH_LEN)
  /\ (exists e, ComplexResampler_ctor series_sin series_cos t_short 2 3 4 = Done e
     /\ well_formed 4 e /\ P (base e) = 2 /\ Q (base e) = 3
     /\ length (paths (base e)) = DEFAULT_PATH_LEN).
Proof.
  assert (H2 : 0 < 2 < 2 ^ 32) by (split; reflexivity).
  assert (H3 : 0 < 3 < 2 ^ 32) by (split; reflexivity).
  assert (H4 : 0 < 4 < 2 ^ 32) by (split; reflexivity).
  split.
  - eexists. split; [vm_compute; reflexivity |].
    apply (proj1 (constructor_establishes_invariant series_sin series_cos t_short 2 3 4
                    H2 H3 H4)).
    vm_compute. reflexivity.
  - eexists. split; [vm_compute; reflexivity |].
    apply (proj2 (constructor_establishes_invariant series_sin series_cos t_short 2 3 4
                    H2 H3 H4)).
    vm_compute. reflexivity.
Defined.

(** A successful call keeps the invariant: the engine it leaves has the
    same partitions and the same ratio, a history of [taps - 1] samples and
    a path table that [resize] computed; the call returns as many samples
    as the output vector holds. *)
Theorem successful_call_keeps_invariant (T : elem_type) (taps : Z) :
  (forall (input output res : list (carrier T)) (e e' : Engine (carrier T)),
      well_formed taps e ->
      RealResampler_resample T input output e = (Done res, e') ->
      well_formed taps e'
      /\ partitions (base e') = partitions (base e)
      /\ P (base e') = P (base e) /\ Q (base e') = Q (base e)
      /\ length res = length output)
  /\ (forall (input output res : list (complex T)) (e e' : Engine (complex T)),
      well_formed taps e ->
      ComplexResampler_resample T input output e = (Done res, e') ->
      well_formed taps e'
      /\ partitions (base e') = partitions (base e)
      /\ P (base e') = P (base e) /\ Q (base e') = Q (base e)
      /\ length res = length output).
Proof.
  split; intros input output res e e' Hwf H.
  - exact (call_keeps_invariant (real_kernel T) taps input output res e e' Hwf H).
  - exact (call_keeps_invariant (complex_kernel T) taps input output res e e' Hwf H).
Qed.

Lemma successful_call_keeps_invariant_witness :
  well_formed 2 (snd (RealResampler_resample t_short [1; 2; 3] [0; 0] demo_real))
  /\ well_formed 2
       (snd (ComplexResampler_resample t_short [(1, 2); (3, 4); (5, 6)] [(0, 0); (0, 0)]
               demo_complex)).
Proof.
  split.
  - apply (proj1 (successful_call_keeps_invariant t_short 2) [1; 2; 3] [0; 0] [2; 1]
             demo_real _ demo_real_well_formed).
    vm_compute. reflexivity.
  - apply (proj2 (successful_call_keeps_invariant t_short 2)
             [(1, 2); (3, 4); (5, 6)] [(0, 0); (0, 0)] [(2, 0); (1, 2)]
             demo_complex _ demo_complex_well_formed).
    vm_compute. reflexivity.
Defined.

(** ** The path table as a cache *)

Lemma table_entry {S : Type} (taps : Z) (e : Engine S) (k : nat) :
  well_formed taps e -> (k < length (paths (base e)))%nat ->
  nth_error (paths (base e)) k
  = Some (path_entry (P (base e)) (Q (base e)) (Z.of_nat k)).
Proof.
  intros Hwf Hk. rewrite (wf_table Hwf).
  rewrite resize_loop_nth by exact Hk. now rewrite Z.add_0_l.
Qed.

Lemma grow_paths (n : nat) (r : Resampler) :
  table_ok r ->
  length (paths (grow n r)) = Nat.max (length (paths r)) n
  /\ firstn (length (paths r)) (paths (grow n r)) = paths r.
Proof.
  intros Htab. unfold grow, size.
  destruct (Z.of_nat n >? Z.of_nat (length (paths r))) eqn:E; cbn [paths].
  - apply Z.gtb_lt in E. rewrite resize_loop_length. split; [lia |].
    rewrite resize_loop_firstn by lia. symmetry. exact Htab.
  - assert (Hle : (n <= length (paths r))%nat).
    { destruct (Z.gtb_spec (Z.of_nat n) (Z.of_nat (length (paths r)))); [discriminate | lia]. }
    split; [lia | apply firstn_all].
Qed.

Lemma call_grows_table {S : Type} (kernel : list double -> list S -> outcome S)
    (taps : Z) (input output res : list S) (e e' : Engine S) :
  well_formed taps e ->
  resample_with kernel input output e = (Done res, e') ->
  length (paths (base e')) = Nat.max (length (paths (base e))) (length output)
  /\ firstn (length (paths (base e))) (paths (base e')) = paths (base e).
Proof.
  intros Hwf H.
  destruct (done_state kernel input output res e e' H) as [_ [_ [_ ->]]].
  cbn [after_call base]. apply grow_paths. exact (wf_table Hwf).
Qed.

(** The path table only grows, and growing never changes an entry: after
    a successful call the table has [max(old length, |output|)] entries and
    its old entries are the first ones of the new table, although [resize]
    writes every entry again. *)
Theorem path_table_only_grows (T : elem_type) (taps : Z) :
  (forall (input output res : list (carrier T)) (e e' : Engine (carrier T)),
      well_formed taps e ->
      RealResampler_resample T input output e = (Done res, e') ->
      length (paths (base e')) = Nat.max (length (paths (base e))) (length output)
      /\ firstn (length (paths (base e))) (paths (base e')) = paths (base e))
  /\ (forall (input output res : list (complex T)) (e e' : Engine (complex T)),
      well_formed taps e ->
      ComplexResampler_resample T input output e = (Done res, e') ->
      length (paths (base e')) = Nat.max (length (paths (base e))) (length output)
      /\ firstn (length (paths (base e))) (paths (base e')) = paths (base e)).
Proof.
  split; intros input output res e e' Hwf H.
  - exact (call_grows_table (real_kernel T) taps input output res e e' Hwf H).
  - exact (call_grows_table (complex_kernel T) taps input output res e e' Hwf H).
Qed.

Lemma path_table_only_grows_witness :
  length (paths (base (snd (RealResampler_resample t_short
                              (repeat 1 15) (repeat 0 10) demo_real))))
  = Nat.max (length (paths (base demo_real))) (length (repeat 0 10))
  /\ firstn (length (paths (base demo_real)))
       (paths (base (snd (RealResampler_resample t_short
                            (repeat 1 15) (repeat 0 10) demo_real))))
     = paths (base demo_real).
Proof.
  apply (proj1 (path_table_only_grows t_short 2) (repeat 1 15) (repeat 0 10)
           [2; 0; 0; 0; 0; 0; 0; 0; 0; 0] demo_real _ demo_real_well_formed).
  vm_compute. reflexivity.
Defined.

Lemma same_stream_call {S : Type} (kernel : list double -> list S -> outcome S)
    (taps : Z) (input output : list S) (e1 e2 : Engine S) :
  well_formed taps e1 -> well_formed taps e2 -> same_stream e1 e2 ->
  fst (resample_with kernel input output e1) = fst (resample_with kernel input output e2)
  /\ same_stream (snd (resample_with kernel input output e1))
       (snd (resample_with kernel input output e2)).
Proof.
  intros Hwf1 Hwf2 [Ep [EP [EQ Eh]]].
  rewrite (resample_with_turns kernel input output e1)
    by (pose proof (wf_P Hwf1); pose proof (wf_Q Hwf1); try lia; exact (wf_table Hwf1)).
  rewrite (resample_with_turns kernel input output e2)
    by (pose proof (wf_P Hwf2); pose proof (wf_Q Hwf2); try lia; exact (wf_table Hwf2)).
  assert (Ha : accepts e1 input output = accepts e2 input output).
  { unfold accepts. now rewrite EP, EQ, Eh. }
  assert (Ht : turns kernel e1 input (length output) = turns kernel e2 input (length output)).
  { unfold turns. now rewrite Ep, EP, EQ, Eh. }
  rewrite Ha, Ht. destruct (accepts e2 input output); cbn [fst snd].
  - split; [reflexivity |]. unfold same_stream. cbn [after_call base history].
    destruct (grow_fields (length output) (base e1)) as [-> [-> ->]].
    destruct (grow_fields (length output) (base e2)) as [-> [-> ->]].
    now rewrite Eh.
  - split; [reflexivity |]. unfold same_stream. auto.
Qed.

(** The path table is only a cache.  Two engines with the same
    partitions, ratio and history, whose tables are filled to different
    lengths, give the same result on every call, and the engines they leave
    again differ at most in the length of the table. *)
Theorem table_length_is_irrelevant (T : elem_type) (taps : Z) :
  (forall (input output : list (carrier T)) (e1 e2 : Engine (carrier T)),
      well_formed taps e1 -> well_formed taps e2 -> same_stream e1 e2 ->
      fst (RealResampler_resample T input output e1)
      = fst (RealResampler_resample T input output e2)
      /\ same_stream (snd (RealResampler_resample T input output e1))
           (snd (RealResampler_resample T input output e2)))
  /\ (forall (input output : list (complex T)) (e1 e2 : Engine (complex T)),
      well_formed taps e1 -> well_formed taps e2 -> same_stream e1 e2 ->
      fst (ComplexResampler_resample T input output e1)
      = fst (ComplexResampler_resample T input output e2)
      /\ same_stream (snd (ComplexResampler_resample T input output e1))
           (snd (ComplexResampler_resample T input output e2))).
Proof.
  split; intros input output e1 e2 H1 H2 Hs.
  - exact (same_stream_call (real_kernel T) taps input output e1 e2 H1 H2 Hs).
  - exact (same_stream_call (complex_kernel T) taps input output e1 e2 H1 H2 Hs).
Qed.

Lemma demo_real_grown_well_formed :
  @well_formed (carrier t_short) 2
    {| base := {| partitions := partitions demo_base; paths := resize_loop 2 3 0 200;
                  P := 2; Q := 3 |};
       history := [7] |}.
Proof.
  split; try (vm_compute; intuition congruence); repeat constructor.
Qed.

Lemma table_length_is_irrelevant_witness :
  fst (RealResampler_resample t_short [1; 2; 3] [0; 0] demo_real)
  = fst (RealResampler_resample t_short [1; 2; 3] [0; 0]
           {| base := {| partitions := partitions demo_base; paths := resize_loop 2 3 0 200;
                         P := 2; Q := 3 |};
              history := [7] |}).
Proof.
  apply (proj1 (table_length_is_irrelevant t_short 2) [1; 2; 3] [0; 0] demo_real _
           demo_real_well_formed demo_real_grown_well_formed).
  repeat split.
Defined.

(** The polyphase period of the path table: below the wrap, the entry
    [P] places after entry [i] has the same partition index and an input
    offset larger by exactly [Q], so every [P] outputs consume [Q] inputs. *)
Theorem path_table_period {S : Type} (taps : Z) (e : Engine S) (i first second : Z) :
  well_formed taps e ->
  0 <= i -> i + P (base e) < size (paths (base e)) ->
  Q (base e) * (i + P (base e)) < 2 ^ 31 ->
  nth_error (paths (base e)) (Z.to_nat i) = Some (first, second) ->
  nth_error (paths (base e)) (Z.to_nat (i + P (base e)))
  = Some (first + Q (base e), second).
Proof.
  intros Hwf Hi Hlen Hrange Hnth.
  pose proof (wf_P Hwf) as HP. pose proof (wf_Q Hwf) as HQ. unfold size in Hlen.
  rewrite (table_entry taps e _ Hwf) in Hnth by lia.
  rewrite (table_entry taps e _ Hwf) by lia.
  rewrite Z2Nat.id in * by lia.
  rewrite path_entry_exact in Hnth
    by (try lia; change (UINT_BITS - 1) with 31; nia).
  rewrite path_entry_exact by (try lia; change (UINT_BITS - 1) with 31; nia).
  injection Hnth as <- <-. f_equal.
  replace (Q (base e) * (i + P (base e)))
    with (Q (base e) * i + Q (base e) * P (base e)) by ring.
  rewrite Z.div_add, Z.mod_add by lia. reflexivity.
Qed.

Lemma path_table_period_witness :
  nth_error (paths (base demo_real)) (Z.to_nat (3 + 2)) = Some (4 + 3, 1).
Proof.
  apply (path_table_period 2 demo_real 3 4 1 demo_real_well_formed);
    vm_compute; intuition congruence.
Defined.

(** The ratio is not reduced.  For the ratio [kP/kQ] the input offset
    of an entry is the one of the ratio [P/Q], and the partition index is
    [k] times the one of [P/Q]: of the [kP] partitions only those whose index
    is a multiple of [k] are ever used. *)
Theorem common_factor_is_kept (k p q i : Z) :
  0 < k -> 0 < p -> 0 <= q -> 0 <= i -> k * q * i < 2 ^ 31 ->
  path_entry (k * p) (k * q) i
  = (fst (path_entry p q i), k * snd (path_entry p q i)).
Proof.
  intros Hk Hp Hq Hi Hrange.
  assert (Hqi : 0 <= q * i) by nia.
  rewrite (@path_entry_exact (k * p) (k * q) i)
    by (try nia; change (UINT_BITS - 1) with 31; nia).
  rewrite (@path_entry_exact p q i)
    by (try lia; change (UINT_BITS - 1) with 31; nia).
  cbn [fst snd]. replace (k * q * i) with (k * (q * i)) by ring.
  rewrite Z.div_mul_cancel_l by lia.
  rewrite Z.mul_mod_distr_l by lia. reflexivity.
Qed.

Lemma common_factor_is_kept_witness :
  path_entry (2 * 2) (2 * 3) 5 = (fst (path_entry 2 3 5), 2 * snd (path_entry 2 3 5)).
Proof.
  apply (common_factor_is_kept 2 2 3 5); vm_compute; intuition congruence.
Defined.

(** ** The empty call *)

Lemma empty_call_with {S : Type} (kernel : list double -> list S -> outcome S)
    (taps : Z) (e : Engine S) :
  well_formed taps e ->
  resample_with kernel [] [] e
  = if taps =? 1 then (Done [], e) else (InvalidArgument, e).
Proof.
  intros Hwf.
  pose proof (wf_P Hwf) as HP. pose proof (wf_Q Hwf) as HQ.
  pose proof (wf_history Hwf) as Hh. pose proof (wf_taps Hwf) as Ht.
  rewrite (resample_with_turns kernel [] [] e) by (try lia; exact (wf_table Hwf)).
  unfold accepts. change (size (@nil S)) with 0.
  rewrite Z.mod_0_l, Z.div_0_l, Z.mod_0_l, Z.div_0_l by lia. rewrite Hh.
  cbn [Z.eqb andb].
  destruct (Z.eqb_spec taps 1) as [-> | Hne].
  - cbn [Z.sub Z.leb Z.compare Z.opp Z.add Z.pos_sub]. cbn.
    unfold after_call, grow. cbn [length].
    assert (Hg : (Z.of_nat 0 >? size (paths (base e))) = false).
    { unfold size. destruct (Z.gtb_spec (Z.of_nat 0) (Z.of_nat (length (paths (base e)))));
        [lia | reflexivity]. }
    rewrite Hg. destruct e as [b h]. cbn [base history] in *. f_equal. f_equal.
    unfold size in Hh. destruct h; [reflexivity | simpl in Hh; lia].
  - destruct (Z.leb_spec (taps - 1) 0); [lia | reflexivity].
Qed.

(** A call with an empty input and an empty output is an error unless
    the filter has a single tap: with [taps > 1] it throws
    [invalid_argument] (zero samples are fewer than the [taps - 1] of the
    history), with [taps = 1] it returns no sample and leaves the engine as
    it was. *)
Theorem empty_call (T : elem_type) (taps : Z) :
  (forall e : Engine (carrier T), well_formed taps e ->
     RealResampler_resample T [] [] e
     = if taps =? 1 then (Done [], e) else (InvalidArgument, e))
  /\ (forall e : Engine (complex T), well_formed taps e ->
     ComplexResampler_resample T [] [] e
     = if taps =? 1 then (Done [], e) else (InvalidArgument, e)).
Proof.
  split; intros e Hwf.
  - exact (empty_call_with (real_kernel T) taps e Hwf).
  - exact (empty_call_with (complex_kernel T) taps e Hwf).
Qed.

Lemma empty_call_witness :
  RealResampler_resample t_short [] [] demo_real = (InvalidArgument, demo_real)
  /\ ComplexResampler_resample t_short [] [] demo_complex = (InvalidArgument, demo_complex).
Proof.
  split.
  - exact (proj1 (empty_call t_short 2) demo_real demo_real_well_formed).
  - exact (proj2 (empty_call t_short 2) demo_complex demo_complex_well_formed).
Defined.

(** ** The complex resampler, componentwise *)

Section Components.

Variable T : elem_type.

(** The component of a complex sample taken by [proj]: [fst] or [snd]. *)
Variable proj : complex T -> carrier T.
Variable proj_acc : double * double -> double.
Hypothesis proj_step : forall (acc : double * double) (hi : double) (xv : complex T),
  proj_acc ((fst acc + hi * to_double T (fst xv))%float,
            (snd acc + hi * to_double T (snd xv))%float)
  = (proj_acc acc + hi * to_double T (proj xv))%float.
Hypothesis proj_zero : proj_acc (0%float, 0%float) = 0%float.
Hypothesis proj_narrow : forall (a b : double) (re im : carrier T),
  of_double T (saturate T a) = Some re -> of_double T (saturate T b) = Some im ->
  of_double T (saturate T (proj_acc (a, b))) = Some (proj (re, im)).

Lemma accumulate_component : forall (h : list double) (xii : list (complex T))
    (acc res : double * double),
  complex_accumulate T h xii acc = Done res ->
  real_accumulate T h (map proj xii) (proj_acc acc) = Done (proj_acc res).
Proof.
  induction h as [| hi h IH]; intros xii acc res H; simpl in H.
  - inversion H. reflexivity.
  - destruct xii as [| xv xii]; [discriminate |]. simpl.
    rewrite <- proj_step. exact (IH xii _ res H).
Qed.

Lemma kernel_component (h : list double) (xi : list (complex T)) (v : complex T) :
  complex_kernel T h xi = Done v ->
  real_kernel T h (map proj xi) = Done (proj v).
Proof.
  unfold complex_kernel, real_kernel. intros H.
  destruct (complex_accumulate T h xi (0%float, 0%float)) as [[a b] | |] eqn:E;
    simpl in H; try discriminate.
  pose proof (accumulate_component h xi _ _ E) as Hreal.
  unfold narrow in *. cbn [fst snd] in H.
  destruct (of_double T (saturate T a)) as [re |] eqn:Ea; simpl in H; try discriminate.
  destruct (of_double T (saturate T b)) as [im |] eqn:Eb; simpl in H; try discriminate.
  inversion H; subst.
  assert (Hz : real_accumulate T h (map proj xi) 0%float = Done (proj_acc (a, b))).
  { rewrite <- Hreal. f_equal. symmetry. exact proj_zero. }
  rewrite Hz. simpl. now rewrite (proj_narrow a b re im Ea Eb).
Qed.

Lemma convolve_component (parts : list (list double)) (x : list (complex T)) :
  forall (output : list (complex T)) (pi : list (Z * Z)) (res : list (complex T)),
  convolve (complex_kernel T) parts x pi output = Done res ->
  convolve (real_kernel T) parts (map proj x) pi (map proj output) = Done (map proj res).
Proof.
  induction output as [| o output IH]; intros pi res H; simpl in H.
  - inversion H. reflexivity.
  - destruct pi as [| [first second] pi']; [discriminate |]. simpl.
    destruct (vec_at parts second) as [h | |]; simpl in *; try discriminate.
    unfold advance in *. unfold size in *. rewrite length_map.
    destruct ((0 <=? first) && (first <=? Z.of_nat (length x))); simpl in *;
      try discriminate.
    rewrite skipn_map.
    destruct (complex_kernel T h (skipn (Z.to_nat first) x)) as [v | |] eqn:Ek;
      simpl in H; try discriminate.
    rewrite (kernel_component _ _ _ Ek). simpl.
    destruct (convolve (complex_kernel T) parts x pi' output) as [rest | |] eqn:Ec;
      simpl in H; try discriminate.
    rewrite (IH pi' rest Ec). simpl. inversion H. reflexivity.
Qed.

Lemma resample_component (input output res : list (complex T)) (e e' : Engine (complex T)) :
  ComplexResampler_resample T input output e = (Done res, e') ->
  RealResampler_resample T (map proj input) (map proj output)
    {| base := base e; history := map proj (history e) |}
  = (Done (map proj res), {| base := base e'; history := map proj (history e') |}).
Proof.
  unfold ComplexResampler_resample, RealResampler_resample. intros H.
  destruct (done_state (complex_kernel T) input output res e e' H) as [HP [HQ [Ha He]]].
  rewrite (resample_with_eq (complex_kernel T) input output e HP HQ), Ha in H.
  injection H as Hc _.
  rewrite (resample_with_eq (real_kernel T)) by assumption.
  assert (Ha' : accepts {| base := base e; history := map proj (history e) |}
                  (map proj input) (map proj output) = true).
  { unfold accepts, size in *. cbn [base history]. now rewrite !length_map. }
  rewrite Ha'. cbn [base history]. rewrite <- map_app, length_map.
  rewrite (convolve_component _ _ _ _ _ Hc). f_equal.
  subst e'. unfold after_call. cbn [base history].
  now rewrite !length_map, skipn_map.
Qed.

End Components.

(** The complex resampler is the real resampler applied to the real
    parts and to the imaginary parts.  When a call of
    [ComplexResampler<T>::resample] succeeds, the real parts of its output
    are what [RealResampler<T>::resample] returns on the real parts of the
    input, from the engine with the same partitions, ratio and path table
    and the real parts of the history; likewise for the imaginary parts. *)
Theorem complex_is_two_reals (T : elem_type)
    (input output res : list (complex T)) (e e' : Engine (complex T)) :
  ComplexResampler_resample T input output e = (Done res, e') ->
  RealResampler_resample T (map fst input) (map fst output) (real_part T e)
  = (Done (map fst res), real_part T e')
  /\ RealResampler_resample T (map snd input) (map snd output) (imag_part T e)
     = (Done (map snd res), imag_part T e').
Proof.
  intros H. split.
  - apply (resample_component T fst fst); [reflexivity | reflexivity | | exact H].
    intros a b re im Ha Hb. exact Ha.
  - apply (resample_component T snd snd); [reflexivity | reflexivity | | exact H].
    intros a b re im Ha Hb. exact Hb.
Qed.

Lemma complex_is_two_reals_witness :
  RealResampler_resample t_short (map fst [(1, 2); (3, 4); (5, 6)])
    (map fst [(0, 0); (0, 0)]) (real_part t_short demo_complex)
  = (Done (map fst [(2, 0); (1, 2)]),
     real_part t_short (snd (ComplexResampler_resample t_short [(1, 2); (3, 4); (5, 6)]
                       [(0, 0); (0, 0)] demo_complex)))
  /\ RealResampler_resample t_short (map snd [(1, 2); (3, 4); (5, 6)])
       (map snd [(0, 0); (0, 0)]) (imag_part t_short demo_complex)
     = (Done (map snd [(2, 0); (1, 2)]),
        imag_part t_short (snd (ComplexResampler_resample t_short [(1, 2); (3, 4); (5, 6)]
                          [(0, 0); (0, 0)] demo_complex))).
Proof.
  apply (complex_is_two_reals t_short [(1, 2); (3, 4); (5, 6)] [(0, 0); (0, 0)]
           [(2, 0); (1, 2)] demo_complex).
  vm_compute. reflexivity.
Defined.

(** ** Silence *)

Lemma zero_term (hi : double) : finite hi = true -> (0 + hi * 0)%float = 0%float.
Proof.
  intros H. apply Prim2SF_inj. rewrite add_spec, mul_spec.
  unfold finite in H. change (Prim2SF 0%float) with (S754_zero false).
  destruct (Prim2SF hi) as [s | s | | s m e]; try discriminate; destruct s; reflexivity.
Qed.

Lemma dot_product_zero : forall h w : list double,
  Forall (fun c => finite c = true) h -> Forall (eq 0%float) w ->
  dot_product h w = 0%float.
Proof.
  unfold dot_product.
  induction h as [| hi h IH]; intros [| v w] Hh Hw; simpl; try reflexivity.
  inversion Hh; subst. inversion Hw; subst.
  rewrite zero_term by assumption. now apply IH.
Qed.

Lemma Forall_skipn {A : Type} (R : A -> Prop) (n : nat) (x : list A) :
  Forall R x -> Forall R (skipn n x).
Proof.
  intros H. rewrite <- (firstn_skipn n x) in H. now apply Forall_app in H.
Qed.

Lemma Forall_firstn {A : Type} (R : A -> Prop) (n : nat) (x : list A) :
  Forall R x -> Forall R (firstn n x).
Proof.
  intros H. rewrite <- (firstn_skipn n x) in H. now apply Forall_app in H.
Qed.

Lemma Forall_window {A : Type} (R : A -> Prop) (x : list A) (offset taps : Z) :
  Forall R x -> Forall R (window x offset taps).
Proof. intros H. unfold window. now apply Forall_firstn, Forall_skipn. Qed.

Lemma skipn_constant {A : Type} (z : A) (hist input : list A) :
  Forall (eq z) hist -> Forall (eq z) input -> (length hist <= length input)%nat ->
  skipn (length input - length hist) input = hist.
Proof.
  intros Hh Hi Hle.
  rewrite (Forall_eq_repeat Hh) at 2.
  rewrite (Forall_eq_repeat (Forall_skipn (eq z) (length input - length hist) input Hi)).
  rewrite length_skipn. f_equal. lia.
Qed.

Lemma silent_call {S : Type} (sample : list double -> list S -> option S)
    (kernel : list double -> list S -> outcome S) (taps : Z)
    (e : Engine S) (input output : list S) (z : S) :
  kernel_of sample kernel ->
  well_formed taps e -> preconditions taps e input output ->
  Q (base e) * size output <= 2 ^ 31 ->
  (forall h w, In h (partitions (base e)) -> Forall (eq z) w -> sample h w = Some z) ->
  Forall (eq z) (history e) -> Forall (eq z) input ->
  exists e',
    resample_with kernel input output e = (Done (repeat z (length output)), e')
    /\ history e' = history e.
Proof.
  intros Hk Hwf Hpre Hrange Hsample Hh Hi.
  pose proof (wf_P Hwf) as HP. pose proof (wf_Q Hwf) as HQ.
  assert (Ha : accepts e input output = true)
    by (apply (accepts_iff taps e input output (wf_history Hwf)); exact Hpre).
  exists (after_call e input output). split.
  - rewrite (resample_with_turns kernel input output e) by (try lia; exact (wf_table Hwf)).
    rewrite Ha. f_equal. apply collect_all_Done.
    replace (repeat z (length output))
      with (map (fun _ : nat => z) (seq 0 (length output)))
      by (now rewrite map_const, length_seq).
    rewrite map_map. unfold turns. apply map_ext_in.
    intros k Hin. apply seq_bound in Hin.
    assert (Hki : 0 <= Z.of_nat k < size output) by (unfold size; lia).
    assert (Hr : Q (base e) * Z.of_nat k < 2 ^ (UINT_BITS - 1)).
    { change (UINT_BITS - 1) with 31. nia. }
    destruct (turn_in_range sample kernel Hk taps e input output (Z.of_nat k)
                Hwf Ha Hki Hr) as [h [Hnth [_ [_ ->]]]].
    rewrite (Hsample h); [reflexivity | exact (nth_error_In _ _ Hnth) |].
    apply Forall_window. apply Forall_app. split; assumption.
  - cbn [after_call history]. apply (skipn_constant z); try assumption.
    destruct Hpre as [_ [_ [_ Hlen]]]. pose proof (wf_history Hwf) as Hs.
    unfold size in *. lia.
Qed.

Lemma zero_sample (T : elem_type) :
  In T element_types ->
  to_double T (value_init T) = 0%float
  /\ of_double T (saturate T 0%float) = Some (value_init T).
Proof.
  unfold element_types. simpl.
  intros [<- | [<- | [<- | [<- | [<- | [<- | []]]]]]]; split; vm_compute; reflexivity.
Qed.

(** Silence in, silence out.  For each of the six element types, on an
    engine whose coefficients are finite and whose history is all zero, an
    accepted call on an all-zero input (below the wrap of the path table)
    returns all zeros and leaves an all-zero history: no rounding, clamping
    or conversion turns silence into a signal. *)
Theorem silence_in_silence_out (T : elem_type) (taps : Z) :
  In T element_types ->
  (forall (e : Engine (carrier T)) (n : nat) (output : list (carrier T)),
      well_formed taps e ->
      Forall (Forall (fun c => finite c = true)) (partitions (base e)) ->
      history e = repeat (value_init T) (length (history e)) ->
      preconditions taps e (repeat (value_init T) n) output ->
      Q (base e) * size output <= 2 ^ 31 ->
      exists e',
        RealResampler_resample T (repeat (value_init T) n) output e
        = (Done (repeat (value_init T) (length output)), e')
        /\ history e' = history e)
  /\ (forall (e : Engine (complex T)) (n : nat) (output : list (complex T)),
      well_formed taps e ->
      Forall (Forall (fun c => finite c = true)) (partitions (base e)) ->
      history e = repeat (value_init T, value_init T) (length (history e)) ->
      preconditions taps e (repeat (value_init T, value_init T) n) output ->
      Q (base e) * size output <= 2 ^ 31 ->
      exists e',
        ComplexResampler_resample T (repeat (value_init T, value_init T) n) output e
        = (Done (repeat (value_init T, value_init T) (length output)), e')
        /\ history e' = history e).
Proof.
  intros HT. destruct (zero_sample T HT) as [Hto Hof].
  split; intros e n output Hwf Hfin Hhist Hpre Hrange.
  - apply (silent_call (real_sample T) (real_kernel T) taps e _ output (value_init T)
             (real_kernel_of T) Hwf Hpre Hrange).
    + intros h w Hin Hw. unfold real_sample.
      rewrite dot_product_zero; [exact Hof | |].
      * rewrite Forall_forall in Hfin. exact (Hfin h Hin).
      * apply Forall_forall. intros v Hv. apply in_map_iff in Hv.
        destruct Hv as [s [<- Hs]]. rewrite Forall_forall in Hw.
        rewrite <- (Hw s Hs). symmetry. exact Hto.
    + rewrite Hhist. apply Forall_forall. intros a Ha. symmetry.
      exact (repeat_spec _ _ _ Ha).
    + apply Forall_forall. intros a Ha. symmetry. exact (repeat_spec _ _ _ Ha).
  - apply (silent_call (complex_sample T) (complex_kernel T) taps e _ output
             (value_init T, value_init T) (@complex_kernel_of T) Hwf Hpre Hrange).
    + intros h w Hin Hw. unfold complex_sample.
      rewrite !dot_product_zero; [rewrite Hof; reflexivity | | | |].
      * rewrite Forall_forall in Hfin. exact (Hfin h Hin).
      * apply Forall_forall. intros v Hv. apply in_map_iff in Hv.
        destruct Hv as [s [<- Hs]]. rewrite Forall_forall in Hw.
        rewrite <- (Hw s Hs). symmetry. exact Hto.
      * rewrite Forall_forall in Hfin. exact (Hfin h Hin).
      * apply Forall_forall. intros v Hv. apply in_map_iff in Hv.
        destruct Hv as [s [<- Hs]]. rewrite Forall_forall in Hw.
        rewrite <- (Hw s Hs). symmetry. exact Hto.
    + rewrite Hhist. apply Forall_forall. intros a Ha. symmetry.
      exact (repeat_spec _ _ _ Ha).
    + apply Forall_forall. intros a Ha. symmetry. exact (repeat_spec _ _ _ Ha).
Qed.

Lemma demo_long_well_formed : @well_formed (carrier t_short) 5 demo_long.
Proof. split; try (vm_compute; intuition congruence); repeat constructor. Qed.

Lemma silence_in_silence_out_witness :
  exists e',
    RealResampler_resample t_short (repeat 0 6) [9; 9; 9; 9] demo_long
    = (Done (repeat 0 (length [9; 9; 9; 9])), e')
    /\ history e' = history demo_long.
Proof.
  assert (HT : In t_short element_types) by (simpl; auto 10).
  apply (proj1 (silence_in_silence_out t_short 5 HT) demo_long 6%nat [9; 9; 9; 9]
           demo_long_well_formed).
  - repeat constructor.
  - reflexivity.
  - vm_compute. intuition congruence.
  - vm_compute. discriminate.
Defined.

(** ** The front end: one turn of the read loop *)

Lemma vector_resize_size {A : Type} (n : Z) (a : A) (v : list A) :
  0 <= n -> size (Main.vector_resize n a v) = n.
Proof.
  intros Hn. unfold Main.vector_resize, size.
  rewrite length_app, length_firstn, repeat_length. lia.
Qed.

Lemma blk_sz_exact (type_sz q : Z) :
  0 <= type_sz * q < 2 ^ 31 -> Main.blk_sz type_sz q = type_sz * q.
Proof.
  intros H. unfold Main.blk_sz.
  rewrite wrap_unsigned_small by (change UINT_BITS with 32; lia).
  apply to_int_small. change (UINT_BITS - 1) with 31. lia.
Qed.

Lemma int_mul_exact (a b : Z) :
  0 <= a * b < 2 ^ 31 -> Main.int_mul a b = Done (a * b).
Proof.
  intros H. unfold Main.int_mul, in_int_range, int_min, int_max.
  change (2 ^ (32 - 1)) with (2 ^ 31).
  destruct (Z.leb_spec (- 2 ^ 31) (a * b)); [| lia].
  destruct (Z.leb_spec (a * b) (2 ^ 31 - 1)); [reflexivity | lia].
Qed.

Lemma size_app {A : Type} (a b : list A) : size (a ++ b) = size a + size b.
Proof. unfold size. rewrite length_app. lia. Qed.

Lemma firstn_plus {A : Type} (a b : nat) : forall l : list A,
  firstn (a + b) l = firstn a l ++ firstn b (skipn a l).
Proof.
  induction a as [| a IH]; intros l; [reflexivity |].
  destruct l as [| x l]; simpl.
  - now rewrite firstn_nil.
  - now rewrite IH.
Qed.

Section Loop.

Context {S : Type}.
Variable sample : list double -> list S -> option S.
Variable kernel : list double -> list S -> outcome S.
Hypothesis kernel_sample : kernel_of sample kernel.
Variable decode : list Byte.byte -> list S.
Variable zero : S.
Variables type_sz p q taps N : Z.

Hypothesis type_sz_pos : 0 < type_sz.
Hypothesis p_pos : 0 < p.
Hypothesis q_pos : 0 < q.
Hypothesis N_pos : 1 <= N.
Hypothesis block_fits : N * (type_sz * q) < 2 ^ 31.
Hypothesis decode_size : forall bs, size (decode bs) = size bs / type_sz.

Lemma call_rejected (m : Z) (s2 : Main.Run S) :
  well_formed taps (Main.resampler s2) ->
  Q (base (Main.resampler s2)) = q ->
  size (Main.input s2) = m * (type_sz * q) -> 0 <= m -> m * q < taps - 1 ->
  exists s',
    Main.resample_and_write kernel decode s2 = (InvalidArgument, s')
    /\ Main.n_wr s' = Main.n_wr s2 /\ Main.ostr s' = Main.ostr s2.
Proof.
  intros Hwf HQ Hin Hm Hshort. unfold Main.resample_and_write.
  assert (Hsize : size (decode (Main.input s2)) = m * q).
  { rewrite decode_size, Hin.
    replace (m * (type_sz * q)) with (m * q * type_sz) by ring.
    apply Z.div_mul. lia. }
  assert (Hthrow : fst (resample_with kernel (decode (Main.input s2)) (Main.output s2)
                          (Main.resampler s2)) = InvalidArgument).
  { apply (thrown_iff sample kernel kernel_sample taps _ _ _ Hwf).
    intros [_ [_ [_ Hlen]]]. lia. }
  destruct (resample_with kernel (decode (Main.input s2)) (Main.output s2)
              (Main.resampler s2)) as [o e].
  cbn [fst] in Hthrow. subst o. eexists. split; [reflexivity |]. split; reflexivity.
Qed.

Hypothesis sample_total : forall h w, exists v, sample h w = Some v.

Lemma call_accepted (m : Z) (s2 : Main.Run S) :
  well_formed taps (Main.resampler s2) ->
  P (base (Main.resampler s2)) = p -> Q (base (Main.resampler s2)) = q ->
  size (Main.input s2) = m * (type_sz * q) -> size (Main.output s2) = m * p ->
  0 <= m -> taps - 1 <= m * q -> q * (m * p) <= 2 ^ 31 ->
  exists s',
    Main.resample_and_write kernel decode s2 = (Done true, s')
    /\ Main.istr s' = Main.istr s2 /\ Main.n_blks s' = Main.n_blks s2
    /\ Main.input s' = Main.input s2
    /\ size (Main.output s') = m * p
    /\ well_formed taps (Main.resampler s')
    /\ P (base (Main.resampler s')) = p /\ Q (base (Main.resampler s')) = q
    /\ Main.n_wr s' = Main.n_wr s2 + m * p
    /\ size (Main.ostr s') = size (Main.ostr s2) + m * p
    /\ exists res,
         resample_with kernel (decode (Main.input s2)) (Main.output s2) (Main.resampler s2)
         = (Done res, Main.resampler s')
         /\ Main.ostr s' = Main.ostr s2 ++ res.
Proof.
  intros Hwf HP HQ Hin Hout Hm Hlong Hrange. unfold Main.resample_and_write.
  assert (Hsize : size (decode (Main.input s2)) = m * q).
  { rewrite decode_size, Hin.
    replace (m * (type_sz * q)) with (m * q * type_sz) by ring.
    apply Z.div_mul. lia. }
  assert (Hpre : preconditions taps (Main.resampler s2) (decode (Main.input s2))
                   (Main.output s2)).
  { unfold preconditions. rewrite HP, HQ, Hsize, Hout.
    rewrite !Z.mod_mul, !Z.div_mul by lia. auto. }
  assert (Hr : Q (base (Main.resampler s2)) * size (Main.output s2) <= 2 ^ (UINT_BITS - 1)).
  { rewrite HQ, Hout. exact Hrange. }
  destruct (resample_succeeds sample kernel taps (Main.resampler s2) _ _
              kernel_sample sample_total Hwf Hpre Hr) as [res [e' [Hcall Hlen]]].
  rewrite Hcall.
  destruct (call_keeps_invariant kernel taps _ _ res _ e' Hwf Hcall)
    as [Hwf' [_ [HP' [HQ' _]]]].
  assert (Hres : size res = m * p) by (unfold size in *; lia).
  eexists. split; [reflexivity |].
  cbn [Main.istr Main.ostr Main.n_wr Main.n_blks Main.resampler Main.input Main.output].
  split; [reflexivity |]. split; [reflexivity |]. split; [reflexivity |].
  split; [exact Hres |]. split; [exact Hwf' |].
  split; [congruence |]. split; [congruence |]. split; [| split].
  - now rewrite Hres.
  - unfold size in *. rewrite length_app. lia.
  - exists res. split; reflexivity.
Qed.

Lemma block_bounds :
  0 < type_sz * q /\ type_sz * q < 2 ^ 31 /\ q <= type_sz * q
  /\ Main.blk_sz type_sz q = type_sz * q.
Proof.
  assert (H1 : 0 < type_sz * q) by nia.
  assert (H2 : type_sz * q < 2 ^ 31) by nia.
  assert (H3 : q <= type_sz * q) by nia.
  repeat split; try assumption. apply blk_sz_exact. lia.
Qed.

(** A turn that reads [N] whole blocks. *)
Lemma body_full (s : Main.Run S) :
  at_head taps type_sz p q N s ->
  N * (type_sz * q) <= size (Main.unread (Main.istr s)) ->
  exists s1,
    Main.loop_body kernel decode zero type_sz p q s
    = Main.resample_and_write kernel decode s1
    /\ Main.istr s1
       = {| Main.unread := skipn (Z.to_nat (N * (type_sz * q))) (Main.unread (Main.istr s));
            Main.eofbit := false |}
    /\ Main.ostr s1 = Main.ostr s /\ Main.n_wr s1 = Main.n_wr s
    /\ Main.n_blks s1 = N /\ Main.resampler s1 = Main.resampler s
    /\ size (Main.input s1) = N * (type_sz * q)
    /\ Main.output s1 = Main.output s
    /\ Main.input s1
       = firstn (Z.to_nat (N * (type_sz * q))) (Main.unread (Main.istr s)).
Proof.
  intros Hhead Hfull.
  destruct block_bounds as [HB0 [HB1 [HqB Hblk]]].
  pose proof (head_input Hhead) as Hin. pose proof (head_blks Hhead) as Hblks.
  pose proof (head_eof Hhead) as Heof.
  assert (Hgot : size (firstn (Z.to_nat (N * (type_sz * q))) (Main.unread (Main.istr s)))
                 = N * (type_sz * q)).
  { unfold size in *. rewrite length_firstn. lia. }
  unfold Main.loop_body, Main.read. rewrite Hin, Hblk.
  cbn [Main.n_blks Main.istr Main.ostr Main.n_wr Main.resampler Main.input Main.output].
  rewrite Hblks, (int_mul_exact N (type_sz * q)) by nia.
  rewrite Hgot, Z.eqb_refl. cbn [negb].
  eexists. split; [reflexivity |].
  cbn [Main.n_blks Main.istr Main.ostr Main.n_wr Main.resampler Main.input Main.output].
  rewrite Heof, Z.ltb_irrefl. cbn [orb].
  repeat split.
  - unfold size in *. rewrite length_app, length_skipn, length_firstn. lia.
  - rewrite skipn_all2 by (unfold size in *; rewrite length_firstn; lia).
    apply app_nil_r.
Qed.

(** A turn that meets the end of the file before one block is read. *)
Lemma body_break (s : Main.Run S) :
  at_head taps type_sz p q N s ->
  size (Main.unread (Main.istr s)) < type_sz * q ->
  exists s1,
    Main.loop_body kernel decode zero type_sz p q s = (Done false, s1)
    /\ Main.ostr s1 = Main.ostr s /\ Main.n_wr s1 = Main.n_wr s
    /\ Main.resampler s1 = Main.resampler s.
Proof.
  intros Hhead Hshort.
  destruct block_bounds as [HB0 [HB1 [HqB Hblk]]].
  pose proof (head_input Hhead) as Hin. pose proof (head_blks Hhead) as Hblks.
  assert (Hr : 0 <= size (Main.unread (Main.istr s))) by (unfold size; lia).
  assert (Hgot : size (firstn (Z.to_nat (N * (type_sz * q))) (Main.unread (Main.istr s)))
                 = size (Main.unread (Main.istr s))).
  { unfold size in *. rewrite length_firstn. nia. }
  unfold Main.loop_body, Main.read. rewrite Hin, Hblk.
  cbn [Main.n_blks Main.istr Main.ostr Main.n_wr Main.resampler Main.input Main.output].
  rewrite Hblks, (int_mul_exact N (type_sz * q)) by nia.
  rewrite Hgot.
  destruct (Z.eqb_spec (size (Main.unread (Main.istr s))) (N * (type_sz * q))) as [E | _];
    [nia |].
  cbn [negb].
  destruct (Z.ltb_spec (size (Main.unread (Main.istr s))) (type_sz * q)); [| lia].
  eexists. split; [reflexivity |]. repeat split.
Qed.

(** A turn that meets the end of the file after [t] whole blocks, fewer
    than [N]. *)
Lemma body_tail (s : Main.Run S) :
  at_head taps type_sz p q N s ->
  type_sz * q <= size (Main.unread (Main.istr s)) ->
  size (Main.unread (Main.istr s)) < N * (type_sz * q) ->
  exists s2,
    Main.loop_body kernel decode zero type_sz p q s
    = Main.resample_and_write kernel decode s2
    /\ Main.eofbit (Main.istr s2) = true
    /\ Main.ostr s2 = Main.ostr s /\ Main.n_wr s2 = Main.n_wr s
    /\ Main.resampler s2 = Main.resampler s
    /\ size (Main.input s2)
       = size (Main.unread (Main.istr s)) / (type_sz * q) * (type_sz * q)
    /\ size (Main.output s2)
       = wrap_unsigned (size (Main.unread (Main.istr s)) / (type_sz * q) * p)
    /\ Main.input s2
       = firstn (Z.to_nat (size (Main.unread (Main.istr s)) / (type_sz * q)
                           * (type_sz * q)))
           (Main.unread (Main.istr s))
    /\ Main.output s2
       = Main.vector_resize
           (wrap_unsigned (size (Main.unread (Main.istr s)) / (type_sz * q) * p))
           zero (Main.output s).
Proof.
  intros Hhead Hlow Hhigh.
  destruct block_bounds as [HB0 [HB1 [HqB Hblk]]].
  pose proof (head_input Hhead) as Hin. pose proof (head_blks Hhead) as Hblks.
  set (r := size (Main.unread (Main.istr s))) in *.
  assert (Hgot : size (firstn (Z.to_nat (N * (type_sz * q))) (Main.unread (Main.istr s)))
                 = r).
  { unfold r, size in *. rewrite length_firstn. nia. }
  assert (Ht : 1 <= r / (type_sz * q) < N).
  { split; [apply Z.div_le_lower_bound; lia | apply Z.div_lt_upper_bound; nia]. }
  set (t := r / (type_sz * q)) in *.
  assert (Htq : 0 <= t * q < 2 ^ 31) by nia.
  unfold Main.loop_body, Main.read. rewrite Hin, Hblk.
  cbn [Main.n_blks Main.istr Main.ostr Main.n_wr Main.resampler Main.input Main.output].
  rewrite Hblks, (int_mul_exact N (type_sz * q)) by nia.
  rewrite Hgot.
  destruct (Z.eqb_spec r (N * (type_sz * q))) as [E | _]; [lia |].
  cbn [negb].
  destruct (Z.ltb_spec r (type_sz * q)); [lia |].
  unfold Main.int_div.
  destruct (Z.eqb_spec (type_sz * q) 0) as [E | _]; [lia |].
  rewrite Z.quot_div_nonneg by lia. fold t.
  rewrite (@wrap_unsigned_small t) by (change UINT_BITS with 32; lia).
  rewrite (@to_int_small t) by (change (UINT_BITS - 1) with 31; lia).
  rewrite (@wrap_unsigned_small (t * q)) by (change UINT_BITS with 32; lia).
  eexists. split; [reflexivity |].
  cbn [Main.n_blks Main.istr Main.ostr Main.n_wr Main.resampler Main.input Main.output
       Main.eofbit].
  split.
  { destruct (Z.ltb_spec r (N * (type_sz * q))); [apply orb_true_r | lia]. }
  split; [reflexivity |]. split; [reflexivity |]. split; [reflexivity |].
  split; [rewrite vector_resize_size by nia; ring |].
  split; [apply vector_resize_size; apply wrap_unsigned_range |].
  split; [| reflexivity].
  assert (Hlen : length (Main.unread (Main.istr s)) = Z.to_nat r) by (unfold r, size; lia).
  assert (Hilen : length (Main.input s) = Z.to_nat (N * (type_sz * q)))
    by (unfold size in Hin; lia).
  assert (Htr : 0 <= t * q * type_sz <= r).
  { pose proof (Z.mul_div_le r (type_sz * q) HB0) as Hle. fold t in Hle. nia. }
  rewrite (firstn_all2 (n := Z.to_nat (N * (type_sz * q)))) by lia.
  unfold Main.vector_resize.
  rewrite length_app, length_skipn.
  replace (Z.to_nat (t * q * type_sz)
           - (length (Main.unread (Main.istr s))
              + (length (Main.input s) - length (Main.unread (Main.istr s)))))%nat
    with 0%nat by lia.
  cbn [repeat]. rewrite app_nil_r, firstn_app.
  replace (Z.to_nat (t * q * type_sz) - length (Main.unread (Main.istr s)))%nat
    with 0%nat by lia.
  rewrite firstn_O, app_nil_r. f_equal. f_equal. ring.
Qed.

(** Blocks too short for the history: the first call of [resample] throws. *)
Lemma run_short_blocks (fuel : nat) (s : Main.Run S) :
  at_head taps type_sz p q N s -> N * q < taps - 1 -> (0 < fuel)%nat ->
  exists s',
    Main.run_resampler kernel decode zero type_sz p q fuel s
    = Some (if size (Main.unread (Main.istr s)) <? type_sz * q
            then Done tt else InvalidArgument, s')
    /\ Main.n_wr s' = Main.n_wr s /\ Main.ostr s' = Main.ostr s.
Proof.
  intros Hhead Hshort Hfuel.
  destruct block_bounds as [HB0 [HB1 [HqB Hblk]]].
  destruct fuel as [| fuel]; [lia |]. cbn [Main.run_resampler].
  rewrite (head_eof Hhead).
  set (r := size (Main.unread (Main.istr s))).
  destruct (Z.ltb_spec r (type_sz * q)) as [Hlt | Hge].
  - destruct (body_break s Hhead Hlt) as [s1 [-> [Ho [Hn _]]]]. exists s1. auto.
  - destruct (Z.lt_ge_cases r (N * (type_sz * q))) as [Htail | Hfull].
    + destruct (body_tail s Hhead Hge Htail) as [s2 [-> [_ [Ho [Hn [He [Hin _]]]]]]].
      fold r in Hin.
      assert (Ht : 1 <= r / (type_sz * q) < N).
      { split; [apply Z.div_le_lower_bound; lia | apply Z.div_lt_upper_bound; nia]. }
      destruct (call_rejected (r / (type_sz * q)) s2) as [s' [-> [Hn' Ho']]].
      * rewrite He. exact (head_engine Hhead).
      * rewrite He. exact (head_Q Hhead).
      * exact Hin.
      * lia.
      * nia.
      * exists s'. split; [reflexivity |]. split; congruence.
    + destruct (body_full s Hhead Hfull) as [s1 [-> [_ [Ho [Hn [_ [He [Hin _]]]]]]]].
      destruct (call_rejected N s1) as [s' [-> [Hn' Ho']]].
      * rewrite He. exact (head_engine Hhead).
      * rewrite He. exact (head_Q Hhead).
      * exact Hin.
      * lia.
      * exact Hshort.
      * exists s'. split; [reflexivity |]. split; congruence.
Qed.

Hypothesis blocks_long : taps - 1 <= N * q.
Hypothesis output_fits : N * p < 2 ^ 32.
Hypothesis below_wrap : q * (N * p) <= 2 ^ 31.

(** Blocks long enough: every read of [N] blocks is resampled; what a run
    writes depends on the [t] whole blocks left at the end of the file. *)
Lemma run_counts : forall (fuel : nat) (s : Main.Run S),
  at_head taps type_sz p q N s ->
  (length (Main.unread (Main.istr s)) + 2 <= fuel)%nat ->
  let r := size (Main.unread (Main.istr s)) in
  let t := r mod (N * (type_sz * q)) / (type_sz * q) in
  let rejected := (1 <=? t) && (t * q <? taps - 1) in
  let count := if rejected then p * (N * (r / (N * (type_sz * q))))
               else p * (r / (type_sz * q)) in
  exists s',
    Main.run_resampler kernel decode zero type_sz p q fuel s
    = Some (if rejected then InvalidArgument else Done tt, s')
    /\ Main.n_wr s' = Main.n_wr s + count
    /\ size (Main.ostr s') = size (Main.ostr s) + count.
Proof.
  destruct block_bounds as [HB0 [HB1 [HqB Hblk]]].
  assert (HNB : 0 < N * (type_sz * q)) by nia.
  induction fuel as [| fuel IH]; intros s Hhead Hfuel; [lia |].
  cbn zeta. cbn [Main.run_resampler]. rewrite (head_eof Hhead).
  set (r := size (Main.unread (Main.istr s))).
  assert (Hr0 : 0 <= r) by (unfold r, size; lia).
  destruct (Z.lt_ge_cases r (N * (type_sz * q))) as [Hlast | Hfull].
  - (* the end of the file is met *)
    rewrite (Z.mod_small r) by lia. rewrite (Z.div_small r (N * (type_sz * q))) by lia.
    destruct (Z.lt_ge_cases r (type_sz * q)) as [Hlt | Hge].
    + destruct (body_break s Hhead Hlt) as [s1 [-> [Ho [Hn _]]]].
      rewrite (Z.div_small r (type_sz * q)) by lia. cbn [Z.leb Z.compare andb].
      exists s1. split; [reflexivity |]. rewrite Hn, Ho. split; lia.
    + destruct (body_tail s Hhead Hge Hlast) as [s2 [-> [Heof [Ho [Hn [He [Hin [Hout _]]]]]]]].
      fold r in Hin, Hout.
      assert (Ht : 1 <= r / (type_sz * q) < N).
      { split; [apply Z.div_le_lower_bound; lia | apply Z.div_lt_upper_bound; nia]. }
      set (t := r / (type_sz * q)) in *.
      destruct (Z.leb_spec 1 t); [| lia]. cbn [andb].
      destruct (Z.ltb_spec (t * q) (taps - 1)) as [Hrej | Hacc].
      * destruct (call_rejected t s2) as [s' [-> [Hn' Ho']]].
        -- rewrite He. exact (head_engine Hhead).
        -- rewrite He. exact (head_Q Hhead).
        -- exact Hin.
        -- lia.
        -- exact Hrej.
        -- exists s'. split; [reflexivity |]. rewrite Hn', Ho', Hn, Ho. split; lia.
      * destruct (call_accepted t s2) as [s' [-> [Hi [_ [_ [_ [_ [_ [_ [Hn' [Ho' _]]]]]]]]]]].
        -- rewrite He. exact (head_engine Hhead).
        -- rewrite He. exact (head_P Hhead).
        -- rewrite He. exact (head_Q Hhead).
        -- exact Hin.
        -- rewrite Hout. apply wrap_unsigned_small. change UINT_BITS with 32. nia.
        -- lia.
        -- exact Hacc.
        -- nia.
        -- destruct fuel as [| fuel]; [lia |]. cbn [Main.run_resampler].
           rewrite Hi, Heof. exists s'. split; [reflexivity |].
           rewrite Hn', Ho', Hn, Ho. split; lia.
  - (* [N] whole blocks are read and resampled *)
    destruct (body_full s Hhead Hfull) as [s1 [-> [Hi [Ho [Hn [Hb [He [Hin [Hout _]]]]]]]]].
    destruct (call_accepted N s1) as [s' [-> [Hi' [Hb' [Hin' [Hout' [Hwf' [HP' [HQ' [Hn' [Ho' _]]]]]]]]]]].
    + rewrite He. exact (head_engine Hhead).
    + rewrite He. exact (head_P Hhead).
    + rewrite He. exact (head_Q Hhead).
    + exact Hin.
    + rewrite Hout, (head_output Hhead). apply wrap_unsigned_small.
      change UINT_BITS with 32. nia.
    + lia.
    + exact blocks_long.
    + exact below_wrap.
    + assert (Hhead' : at_head taps type_sz p q N s').
      { split; try assumption.
        - rewrite Hi', Hi. reflexivity.
        - congruence.
        - congruence.
        - rewrite Hout'. symmetry. apply wrap_unsigned_small.
          change UINT_BITS with 32. nia. }
      assert (Hunread : Main.unread (Main.istr s')
                        = skipn (Z.to_nat (N * (type_sz * q))) (Main.unread (Main.istr s))).
      { rewrite Hi', Hi. reflexivity. }
      assert (Hr' : size (Main.unread (Main.istr s')) = r - N * (type_sz * q)).
      { rewrite Hunread. unfold r, size in *. rewrite length_skipn. lia. }
      destruct (IH s' Hhead') as [s'' [Hrun [Hn'' Ho'']]].
      { rewrite Hunread, length_skipn. unfold r, size in *. lia. }
      rewrite Hr' in Hrun, Hn'', Ho''.
      replace (r - N * (type_sz * q)) with (r + (-1) * (N * (type_sz * q))) in * by ring.
      rewrite Z.mod_add in * by lia.
      rewrite (Z.div_add r (-1) (N * (type_sz * q))) in * by lia.
      replace (r + -1 * (N * (type_sz * q))) with (r + (- N) * (type_sz * q)) in * by ring.
      rewrite (Z.div_add r (- N) (type_sz * q)) in * by lia.
      exists s''. split; [exact Hrun |].
      rewrite Hn'', Ho'', Hn', Ho', Hn, Ho.
      destruct ((1 <=? r mod (N * (type_sz * q)) / (type_sz * q))
                && (r mod (N * (type_sz * q)) / (type_sz * q) * q <? taps - 1));
        split; ring.
Qed.

Hypothesis decode_app : forall a b : list Byte.byte,
  size a mod type_sz = 0 -> decode (a ++ b) = decode a ++ decode b.

Lemma decode_nil : decode [] = [].
Proof.
  pose proof (decode_size []) as H. change (size (@nil Byte.byte)) with 0 in H.
  rewrite Z.div_0_l in H by lia. unfold size in H.
  destruct (decode []); [reflexivity | simpl in H; lia].
Qed.

(** The calls of a run that ends without an exception, as a block feed. *)
Lemma run_feed : forall (fuel : nat) (s : Main.Run S),
  at_head taps type_sz p q N s ->
  (length (Main.unread (Main.istr s)) + 2 <= fuel)%nat ->
  let r := size (Main.unread (Main.istr s)) in
  let t := r mod (N * (type_sz * q)) / (type_sz * q) in
  (1 <=? t) && (t * q <? taps - 1) = false ->
  exists calls outs s',
    Main.run_resampler kernel decode zero type_sz p q fuel s = Some (Done tt, s')
    /\ Main.ostr s' = Main.ostr s ++ outs
    /\ feed kernel calls (Main.resampler s) = (Done outs, Main.resampler s')
    /\ concat (map fst calls)
       = decode (firstn (Z.to_nat (r / (type_sz * q) * (type_sz * q)))
                   (Main.unread (Main.istr s)))
    /\ size (concat (map snd calls)) = p * (r / (type_sz * q))
    /\ (type_sz * q <= r -> calls <> []).
Proof.
  destruct block_bounds as [HB0 [HB1 [HqB Hblk]]].
  assert (HNB : 0 < N * (type_sz * q)) by nia.
  induction fuel as [| fuel IH]; intros s Hhead Hfuel; [lia |].
  cbn zeta. cbn [Main.run_resampler]. rewrite (head_eof Hhead).
  set (r := size (Main.unread (Main.istr s))).
  assert (Hr0 : 0 <= r) by (unfold r, size; lia).
  destruct (Z.lt_ge_cases r (N * (type_sz * q))) as [Hlast | Hfull].
  - rewrite (Z.mod_small r) by lia. intros Hacc.
    destruct (Z.lt_ge_cases r (type_sz * q)) as [Hlt | Hge].
    + destruct (body_break s Hhead Hlt) as [s1 [-> [Ho [_ He]]]].
      rewrite (Z.div_small r (type_sz * q)) by lia.
      exists [], [], s1. split; [reflexivity |].
      split; [now rewrite Ho, app_nil_r |].
      split; [cbn [feed]; unfold mret; now rewrite He |].
      split; [cbn; symmetry; exact decode_nil |].
      split; [cbn; lia | lia].
    + destruct (body_tail s Hhead Hge Hlast)
        as [s2 [-> [Heof [Ho [_ [He [Hin [Hout [Hcontent _]]]]]]]]].
      fold r in Hin, Hout, Hcontent.
      assert (Ht : 1 <= r / (type_sz * q) < N).
      { split; [apply Z.div_le_lower_bound; lia | apply Z.div_lt_upper_bound; nia]. }
      set (t := r / (type_sz * q)) in *.
      assert (Hlong : taps - 1 <= t * q).
      { destruct (Z.leb_spec 1 t); [| lia]. cbn [andb] in Hacc.
        destruct (Z.ltb_spec (t * q) (taps - 1)); [discriminate | lia]. }
      assert (Hout' : size (Main.output s2) = t * p).
      { rewrite Hout. apply wrap_unsigned_small. change UINT_BITS with 32. nia. }
      destruct (call_accepted t s2)
        as [s' [-> [Hi [_ [_ [_ [_ [_ [_ [_ [_ [res [Hcall Hostr]]]]]]]]]]]]].
      * rewrite He. exact (head_engine Hhead).
      * rewrite He. exact (head_P Hhead).
      * rewrite He. exact (head_Q Hhead).
      * exact Hin.
      * exact Hout'.
      * lia.
      * exact Hlong.
      * nia.
      * destruct fuel as [| fuel]; [lia |]. cbn [Main.run_resampler].
        rewrite Hi, Heof.
        exists [(decode (Main.input s2), Main.output s2)], (res ++ []), s'.
        split; [reflexivity |].
        split; [now rewrite Hostr, Ho, app_nil_r |].
        split.
        { cbn [feed]. unfold mbind, mret. rewrite <- He, Hcall. reflexivity. }
        split; [cbn; now rewrite app_nil_r, Hcontent |].
        split; [cbn; rewrite app_nil_r, Hout'; ring | discriminate].
  - destruct (body_full s Hhead Hfull)
      as [s1 [-> [Hi [Ho [_ [Hb [He [Hin [Hout Hcontent]]]]]]]]].
    destruct (call_accepted N s1)
      as [s' [-> [Hi' [Hb' [Hin' [Hout' [Hwf' [HP' [HQ' [_ [_ [res [Hcall Hostr]]]]]]]]]]]]].
    + rewrite He. exact (head_engine Hhead).
    + rewrite He. exact (head_P Hhead).
    + rewrite He. exact (head_Q Hhead).
    + exact Hin.
    + rewrite Hout, (head_output Hhead). apply wrap_unsigned_small.
      change UINT_BITS with 32. nia.
    + lia.
    + exact blocks_long.
    + exact below_wrap.
    + assert (Hhead' : at_head taps type_sz p q N s').
      { split; try assumption.
        - rewrite Hi', Hi. reflexivity.
        - congruence.
        - congruence.
        - rewrite Hout'. symmetry. apply wrap_unsigned_small.
          change UINT_BITS with 32. nia. }
      assert (Hunread : Main.unread (Main.istr s')
                        = skipn (Z.to_nat (N * (type_sz * q))) (Main.unread (Main.istr s))).
      { rewrite Hi', Hi. reflexivity. }
      assert (Hr' : size (Main.unread (Main.istr s')) = r - N * (type_sz * q)).
      { rewrite Hunread. unfold r, size in *. rewrite length_skipn. lia. }
      assert (Hfuel' : (length (Main.unread (Main.istr s')) + 2 <= fuel)%nat).
      { rewrite Hunread, length_skipn. unfold r, size in *. lia. }
      pose proof (IH s' Hhead' Hfuel') as IHs. cbn zeta in IHs.
      rewrite Hr' in IHs.
      replace (r - N * (type_sz * q)) with (r + (-1) * (N * (type_sz * q))) in IHs by ring.
      rewrite Z.mod_add in IHs by lia.
      replace (r + -1 * (N * (type_sz * q))) with (r + (- N) * (type_sz * q)) in IHs by ring.
      rewrite (Z.div_add r (- N) (type_sz * q)) in IHs by lia.
      intros Hacc.
      destruct (IHs Hacc) as [calls [outs [s'' [Hrun [Ho'' [Hfeed [Hcat [Hsize _]]]]]]]].
      assert (Hdiv : N <= r / (type_sz * q)).
      { apply Z.div_le_lower_bound; lia. }
      exists ((decode (Main.input s1), Main.output s1) :: calls), (res ++ outs), s''.
      split; [exact Hrun |].
      split; [now rewrite Ho'', Hostr, Ho, app_assoc |].
      split.
      { cbn [feed]. unfold mbind, mret. rewrite <- He, Hcall, Hfeed. reflexivity. }
      split.
      { cbn [map concat fst]. rewrite Hcat, Hcontent, Hunread.
        rewrite <- decode_app.
        - rewrite <- firstn_plus. f_equal. f_equal. nia.
        - unfold size. rewrite length_firstn.
          replace (Z.of_nat (Nat.min (Z.to_nat (N * (type_sz * q)))
                               (length (Main.unread (Main.istr s)))))
            with (N * q * type_sz) by (unfold r, size in *; lia).
          apply Z.mod_mul. lia. }
      split; [| discriminate].
      cbn [map concat snd]. rewrite size_app, Hsize, Hout, (head_output Hhead).
      rewrite wrap_unsigned_small by (change UINT_BITS with 32; nia). ring.
Qed.

End Loop.

(** ** The front end: a whole run *)

Lemma start_at_head {S : Type} (zero : S) (taps type_sz p q N : Z) (e : Engine S)
    (file : list Byte.byte) :
  well_formed taps e -> P (base e) = p -> Q (base e) = q ->
  0 < type_sz -> 0 < q -> 1 <= N -> N * (type_sz * q) < 2 ^ 31 ->
  at_head taps type_sz p q N (Main.start zero type_sz p q N e file).
Proof.
  intros Hwf HP HQ Hts Hq HN Hfit.
  assert (HNq : 0 <= N * q < 2 ^ UINT_BITS) by (change UINT_BITS with 32; nia).
  split; cbn [Main.start Main.istr Main.eofbit Main.n_blks Main.input Main.output
              Main.resampler]; try assumption; try reflexivity.
  - unfold size. rewrite repeat_length, (wrap_unsigned_small HNq), Z2Nat.id by nia. ring.
  - unfold size. rewrite repeat_length, Z2Nat.id; [reflexivity |].
    apply wrap_unsigned_range.
Qed.

Lemma n_blks_init_value (type_sz q N : Z) :
  0 < type_sz * q < 2 ^ 31 ->
  Main.n_blks_init (Main.blk_sz type_sz q) = Done N ->
  1 <= N /\ N * (type_sz * q) < 2 ^ 31
  /\ (type_sz * q <= 4096 -> N = 4096 / (type_sz * q))
  /\ (4096 < type_sz * q -> N = 1).
Proof.
  intros HB. rewrite blk_sz_exact by lia. unfold Main.n_blks_init, Main.BLOCKSIZE.
  destruct (Z.gtb_spec (type_sz * q) 4096) as [Hbig | Hsmall].
  - intros H. inversion H. subst. repeat split; lia.
  - unfold Main.int_div. destruct (Z.eqb_spec (type_sz * q) 0); [lia |].
    rewrite Z.quot_div_nonneg by lia. intros H. inversion H. subst. clear H.
    assert (H1 : 1 <= 4096 / (type_sz * q)) by (apply Z.div_le_lower_bound; lia).
    assert (H2 : 4096 / (type_sz * q) * (type_sz * q) <= 4096).
    { rewrite Z.mul_comm. apply Z.mul_div_le. lia. }
    repeat split; lia.
Qed.

Lemma complex_run_short_blocks (sin cos : double -> double) (T : elem_type)
    (type_sz p q N : Z) (decode : list Byte.byte -> list (complex T))
    (fuel : nat) (file : list Byte.byte) :
  0 < p < 2 ^ 32 -> 0 < q < 2 ^ 32 -> 0 < type_sz ->
  1 <= N -> N * (type_sz * q) < 2 ^ 31 -> N * q < 383 ->
  (forall bs, size (decode bs) = size bs / type_sz) ->
  (0 < fuel)%nat ->
  Main.RUN_COMPLEX_RESAMPLER sin cos T type_sz p q N decode fuel file
  = Some (Done {| Main.written := []; Main.count_written := 0;
                  Main.message := type_sz * q <=? size file |}).
Proof.
  intros Hp Hq Hts HN Hfit Hshort Hdec Hfuel.
  assert (Htaps : 0 < 384 < 2 ^ 32) by (split; reflexivity).
  destruct (proj2 (constructed_engines sin cos T p q 384 Hp Hq Htaps))
    as [e [He [Hwf [HP [HQ _]]]]].
  unfold Main.RUN_COMPLEX_RESAMPLER. rewrite He.
  assert (Hhead : at_head 384 type_sz p q N
                    (Main.start (S := complex T) (value_init T, value_init T)
                       type_sz p q N e file)).
  { apply start_at_head; try assumption; lia. }
  assert (Hs : N * q < 384 - 1) by lia.
  destruct (run_short_blocks (complex_sample T) (complex_kernel T) (@complex_kernel_of T)
              decode (value_init T, value_init T) type_sz p q 384 N
              Hts (proj1 Hq) HN Hfit Hdec fuel _ Hhead Hs Hfuel) as [s' [-> [Hn Ho]]].
  cbn [Main.start Main.istr Main.unread Main.n_wr Main.ostr] in *.
  rewrite Z.leb_antisym.
  destruct (size file <? type_sz * q); cbn [negb]; rewrite Hn, Ho; reflexivity.
Qed.

Lemma handle_options_accepts (args : Main.resample_args) :
  Main.handle_options args = true -> Main.p args <> 0 /\ Main.q args <> 0.
Proof.
  unfold Main.handle_options.
  destruct (Z.eqb_spec (Main.p args) 0) as [Ep | Ep].
  - rewrite !orb_true_r. cbn [orb]. discriminate.
  - destruct (Z.eqb_spec (Main.q args) 0) as [Eq | Eq].
    + rewrite !orb_true_r. discriminate.
    + auto.
Qed.

(** The front end resamples nothing for the two complex types of 16
    bytes, [fc64] and [sc64], when [q] is at most 382 (and [p] at most
    65536, so that the vectors of the resampler and of the blocks have a
    bounded size).  A read holds at most 4096 bytes, 256 samples, unless one
    block alone is larger, and then it holds [q] samples: fewer than the 383
    samples of the history of a complex resampler (384 taps by default).
    Every call of [resample] throws; [main] reports the exception when the
    file holds at least one block of [16 q] bytes, and writes no sample
    whatever the file holds. *)
Theorem wide_complex_types_write_nothing (sin cos : double -> double)
    (decode : forall T : elem_type, list Byte.byte -> list (carrier T))
    (decode_complex : forall T : elem_type, list Byte.byte -> list (complex T))
    (args : Main.resample_args) (fuel : nat) (file : list Byte.byte) :
  Main.handle_options args = true ->
  Main.type args = "fc64"%string \/ Main.type args = "sc64"%string ->
  0 <= Main.p args <= 65536 -> 0 <= Main.q args <= 382 ->
  (forall bs, size (decode_complex t_double bs) = size bs / 16) ->
  (forall bs, size (decode_complex t_long bs) = size bs / 16) ->
  (0 < fuel)%nat ->
  Main.main sin cos decode decode_complex args fuel file
  = Some (Done (Main.Wrote 0 (16 * Main.q args <=? size file))).
Proof.
  intros Hopt Htype Hp Hq Hd1 Hd2 Hfuel.
  destruct (handle_options_accepts args Hopt) as [Hp0 Hq0].
  assert (HB : 0 < 16 * Main.q args < 2 ^ 31) by lia.
  assert (Hsz : Main.type_size (Main.type args) = 16).
  { destruct Htype as [-> | ->]; reflexivity. }
  unfold Main.main. rewrite Hopt, Hsz. cbn [negb].
  destruct (Main.n_blks_init (Main.blk_sz 16 (Main.q args))) as [N | |] eqn:EN.
  - destruct (n_blks_init_value 16 (Main.q args) N HB EN) as [HN [Hfit [Hsmall Hbig]]].
    assert (Hshort : N * Main.q args < 383).
    { destruct (Z.le_gt_cases (16 * Main.q args) 4096) as [Hle | Hgt].
      - specialize (Hsmall Hle).
        assert (N * (16 * Main.q args) <= 4096).
        { subst N. rewrite Z.mul_comm. apply Z.mul_div_le. lia. }
        lia.
      - rewrite (Hbig Hgt). lia. }
    assert (Hp' : 0 < Main.p args < 2 ^ 32) by lia.
    assert (Hq' : 0 < Main.q args < 2 ^ 32) by lia.
    assert (H16 : 0 < 16) by reflexivity.
    destruct Htype as [Ht | Ht]; rewrite Ht.
    + change (String.eqb "fc64" "fc64") with true. cbv beta iota zeta.
      rewrite (complex_run_short_blocks sin cos t_double 16 (Main.p args) (Main.q args) N
                 (decode_complex t_double) fuel file Hp' Hq' H16 HN Hfit Hshort Hd1 Hfuel).
      reflexivity.
    + change (String.eqb "sc64" "fc64") with false.
      change (String.eqb "sc64" "fc32") with false.
      change (String.eqb "sc64" "sc64") with true. cbv beta iota zeta.
      rewrite (complex_run_short_blocks sin cos t_long 16 (Main.p args) (Main.q args) N
                 (decode_complex t_long) fuel file Hp' Hq' H16 HN Hfit Hshort Hd2 Hfuel).
      reflexivity.
  - exfalso. revert EN. rewrite blk_sz_exact by lia.
    unfold Main.n_blks_init, Main.int_div.
    destruct (16 * Main.q args >? Main.BLOCKSIZE); [discriminate |].
    destruct (16 * Main.q args =? 0); discriminate.
  - exfalso. revert EN. rewrite blk_sz_exact by lia.
    unfold Main.n_blks_init, Main.int_div.
    destruct (16 * Main.q args >? Main.BLOCKSIZE); [discriminate |].
    destruct (Z.eqb_spec (16 * Main.q args) 0); [lia | discriminate].
Qed.

Lemma wide_complex_types_write_nothing_witness :
  Main.main series_sin series_cos (fun T _ => [])
    (fun T bs => repeat (value_init T, value_init T) (Z.to_nat (size bs / 16)))
    {| Main.infile := "in"; Main.outfile := "out"; Main.type := "fc64";
       Main.p := 3; Main.q := 2 |}
    1 (repeat Byte.x00 40)
  = Some (Done (Main.Wrote 0 (16 * 2 <=? size (repeat Byte.x00 40)))).
Proof.
  apply (wide_complex_types_write_nothing series_sin series_cos (fun T _ => [])
           (fun T bs => repeat (value_init T, value_init T) (Z.to_nat (size bs / 16)))
           {| Main.infile := "in"; Main.outfile := "out"; Main.type := "fc64";
              Main.p := 3; Main.q := 2 |}
           1 (repeat Byte.x00 40)).
  - reflexivity.
  - left. reflexivity.
  - simpl. lia.
  - simpl. lia.
  - intros bs. unfold size. rewrite repeat_length, Z2Nat.id; [reflexivity |].
    apply Z.div_pos; lia.
  - intros bs. unfold size. rewrite repeat_length, Z2Nat.id; [reflexivity |].
    apply Z.div_pos; lia.
  - lia.
Defined.

Lemma narrowing_total (T : elem_type) :
  narrowing_defined T ->
  (forall h w, exists v, real_sample T h w = Some v)
  /\ (forall h w, exists v, complex_sample T h w = Some v).
Proof.
  intros Hnarrow. split; intros h w.
  - unfold real_sample. apply Hnarrow.
  - unfold complex_sample.
    destruct (Hnarrow (dot_product h (map (fun s => to_double T (fst s)) w))) as [re ->].
    destruct (Hnarrow (dot_product h (map (fun s => to_double T (snd s)) w))) as [im ->].
    now exists (re, im).
Qed.

Lemma real_reads_are_long (type_sz q N : Z) :
  0 < type_sz <= 8 -> 0 < q -> type_sz * q < 2 ^ 31 ->
  Main.n_blks_init (Main.blk_sz type_sz q) = Done N ->
  127 <= N * q.
Proof.
  intros Hts Hq HB HN.
  assert (HB' : 0 < type_sz * q < 2 ^ 31) by nia.
  destruct (n_blks_init_value type_sz q N HB' HN) as [HN1 [_ [Hsmall Hbig]]].
  destruct (Z.le_gt_cases (type_sz * q) 4096) as [Hle | Hgt].
  - specialize (Hsmall Hle).
    pose proof (Z.mod_pos_bound 4096 (type_sz * q) (proj1 HB')) as Hmod.
    pose proof (Z.div_mod 4096 (type_sz * q)) as Hdiv.
    rewrite <- Hsmall in Hdiv. nia.
  - rewrite (Hbig Hgt). nia.
Qed.

(** The front end resamples whole blocks of [q] samples, [N] blocks a
    read, and drops what follows the last whole block.  For a file of [L]
    bytes, with blocks of [blk = type_sz * q] bytes, the run ends and writes
    [p * floor(L / blk)] samples (for a real type of at most 8 bytes; for a
    complex type, when a read of [N] blocks holds the 383 samples of the
    history);
    unless the last read holds [t >= 1] blocks with fewer than [taps - 1]
    samples: then [resample] throws on them, [main] prints the message, and
    only the [p * N * floor(L / (N * blk))] samples of the full reads are
    written.  (Element types whose narrowing is defined, amounts below the
    wrap of the path table.) *)
Theorem files_are_resampled_in_whole_blocks (sin cos : double -> double) (T : elem_type)
    (type_sz p q N : Z) (fuel : nat) (file : list Byte.byte) :
  narrowing_defined T ->
  0 < type_sz -> 0 < p < 2 ^ 32 -> 0 < q < 2 ^ 32 -> type_sz * q < 2 ^ 31 ->
  Main.n_blks_init (Main.blk_sz type_sz q) = Done N ->
  q * (N * p) <= 2 ^ 31 ->
  (length file + 2 <= fuel)%nat ->
  let blk := type_sz * q in
  let t := size file mod (N * blk) / blk in
  let rejected := fun taps => (1 <=? t) && (t * q <? taps - 1) in
  let count := fun taps =>
    if rejected taps then p * (N * (size file / (N * blk))) else p * (size file / blk) in
  (forall decode : list Byte.byte -> list (carrier T),
      (forall bs, size (decode bs) = size bs / type_sz) -> type_sz <= 8 ->
      exists samples,
        Main.RUN_REAL_RESAMPLER sin cos T type_sz p q N decode fuel file
        = Some (Done {| Main.written := samples; Main.count_written := count 128;
                        Main.message := rejected 128 |})
        /\ size samples = count 128)
  /\ (forall decode : list Byte.byte -> list (complex T),
      (forall bs, size (decode bs) = size bs / type_sz) -> 383 <= N * q ->
      exists samples,
        Main.RUN_COMPLEX_RESAMPLER sin cos T type_sz p q N decode fuel file
        = Some (Done {| Main.written := samples; Main.count_written := count 384;
                        Main.message := rejected 384 |})
        /\ size samples = count 384).
Proof.
  intros Hnarrow Hts Hp Hq HB HN Hwrap Hfuel blk t rejected count.
  assert (HB' : 0 < type_sz * q < 2 ^ 31) by nia.
  destruct (n_blks_init_value type_sz q N HB' HN) as [HN1 [Hfit _]].
  destruct (narrowing_total T Hnarrow) as [Hreal Hcomplex].
  assert (Hout : N * p < 2 ^ 32) by nia.
  split; intros decode Hdec Hlong.
  - assert (Hl0 : 127 <= N * q).
    { apply (real_reads_are_long type_sz q N); try assumption; lia. }
    clear Hlong. rename Hl0 into Hlong.
    assert (Htaps : 0 < 128 < 2 ^ 32) by (split; reflexivity).
    destruct (proj1 (constructed_engines sin cos T p q 128 Hp Hq Htaps))
      as [e [He [Hwf [HP [HQ _]]]]].
    unfold Main.RUN_REAL_RESAMPLER. rewrite He.
    assert (Hhead : at_head 128 type_sz p q N
                      (Main.start (value_init T) type_sz p q N e file)).
    { apply start_at_head; try assumption; lia. }
    assert (Hl : 128 - 1 <= N * q) by lia.
    destruct (run_counts (real_sample T) (real_kernel T) (real_kernel_of T)
                decode (value_init T) type_sz p q 128 N
                Hts (proj1 Hp) (proj1 Hq) HN1 Hfit Hdec Hreal Hl Hout Hwrap fuel _
                Hhead Hfuel) as [s' [Hrun [Hn Ho]]].
    cbn [Main.start Main.istr Main.unread Main.n_wr Main.ostr] in Hrun, Hn, Ho.
    change (size (@nil (carrier T))) with 0 in Ho.
    fold blk in Hrun, Hn, Ho. fold t in Hrun, Hn, Ho. fold (rejected 128) in Hrun, Hn, Ho.
    fold (count 128) in Hn, Ho.
    rewrite Hrun. exists (Main.ostr s'). rewrite Hn, Ho, !Z.add_0_l.
    split; [| reflexivity]. destruct (rejected 128); reflexivity.
  - assert (Htaps : 0 < 384 < 2 ^ 32) by (split; reflexivity).
    destruct (proj2 (constructed_engines sin cos T p q 384 Hp Hq Htaps))
      as [e [He [Hwf [HP [HQ _]]]]].
    unfold Main.RUN_COMPLEX_RESAMPLER. rewrite He.
    assert (Hhead : at_head 384 type_sz p q N
                      (Main.start (S := complex T) (value_init T, value_init T)
                       type_sz p q N e file)).
    { apply start_at_head; try assumption; lia. }
    assert (Hl : 384 - 1 <= N * q) by lia.
    destruct (run_counts (complex_sample T) (complex_kernel T) (@complex_kernel_of T)
                decode (value_init T, value_init T) type_sz p q 384 N
                Hts (proj1 Hp) (proj1 Hq) HN1 Hfit Hdec Hcomplex Hl Hout Hwrap fuel _
                Hhead Hfuel) as [s' [Hrun [Hn Ho]]].
    cbn [Main.start Main.istr Main.unread Main.n_wr Main.ostr] in Hrun, Hn, Ho.
    change (size (@nil (complex T))) with 0 in Ho.
    fold blk in Hrun, Hn, Ho. fold t in Hrun, Hn, Ho. fold (rejected 384) in Hrun, Hn, Ho.
    fold (count 384) in Hn, Ho.
    rewrite Hrun. exists (Main.ostr s'). rewrite Hn, Ho, !Z.add_0_l.
    split; [| reflexivity]. destruct (rejected 384); reflexivity.
Qed.

Lemma decode_char_size (bs : list Byte.byte) : size (decode_char bs) = size bs / 1.
Proof. unfold decode_char, size. now rewrite length_map, Z.div_1_r. Qed.

Lemma files_are_resampled_in_whole_blocks_witness :
  exists samples,
    Main.RUN_REAL_RESAMPLER taylor_sin taylor_cos t_char 1 1 1 4096
      decode_char (Z.to_nat 4198) (repeat Byte.x00 (Z.to_nat 4196))
    = Some (Done {| Main.written := samples; Main.count_written := 4096;
                    Main.message := true |})
    /\ size samples = 4096.
Proof.
  assert (Hp : 0 < 1 < 2 ^ 32) by (split; reflexivity).
  assert (Hfuel : (length (repeat Byte.x00 (Z.to_nat 4196)) + 2 <= Z.to_nat 4198)%nat)
    by (rewrite repeat_length; lia).
  assert (Hts : 1 <= 8) by discriminate.
  exact (proj1 (files_are_resampled_in_whole_blocks taylor_sin taylor_cos t_char
                  1 1 1 4096 (Z.to_nat 4198) (repeat Byte.x00 (Z.to_nat 4196))
                  (proj1 narrowing_defined_types) eq_refl Hp Hp eq_refl eq_refl
                  ltac:(discriminate) Hfuel)
           decode_char decode_char_size Hts).
Defined.

(** [main] divides by zero when the size of a block,
    [type_sz * q] computed on 32 bits, is zero: for an accepted command line
    with, say, [-t fc64 -q 268435456], the test [blk_sz > BLOCKSIZE] fails
    and [BLOCKSIZE / blk_sz] is undefined, before any file is read. *)
Theorem zero_block_size_is_undefined (sin cos : double -> double)
    (decode : forall T : elem_type, list Byte.byte -> list (carrier T))
    (decode_complex : forall T : elem_type, list Byte.byte -> list (complex T))
    (args : Main.resample_args) (fuel : nat) (file : list Byte.byte) :
  Main.handle_options args = true ->
  (Main.type_size (Main.type args) * Main.q args) mod 2 ^ 32 = 0 ->
  Main.main sin cos decode decode_complex args fuel file = Some Undefined.
Proof.
  intros Hopt Hzero. unfold Main.main. rewrite Hopt. cbn [negb].
  unfold Main.blk_sz, wrap_unsigned. change (2 ^ UINT_BITS) with (2 ^ 32).
  rewrite Hzero. reflexivity.
Qed.

Lemma zero_block_size_is_undefined_witness :
  Main.main taylor_sin taylor_cos (fun T _ => []) (fun T _ => [])
    {| Main.infile := "in"; Main.outfile := "out"; Main.type := "fc64";
       Main.p := 1; Main.q := 268435456 |}
    1 []
  = Some Undefined.
Proof.
  apply (zero_block_size_is_undefined taylor_sin taylor_cos (fun T _ => []) (fun T _ => [])
           {| Main.infile := "in"; Main.outfile := "out"; Main.type := "fc64";
              Main.p := 1; Main.q := 268435456 |} 1 []);
    reflexivity.
Defined.

(** ** What an output sample depends on *)

Lemma nth_error_window {A : Type} (x : list A) (offset taps : Z) (k : nat) :
  0 <= offset -> 0 <= taps ->
  nth_error (window x offset taps) k
  = if (Z.of_nat k <? taps) then nth_error x (Z.to_nat offset + k) else None.
Proof.
  intros Ho Ht. unfold window.
  destruct (Z.ltb_spec (Z.of_nat k) taps) as [Hlt | Hge].
  - rewrite nth_error_firstn.
    destruct (Nat.ltb_spec k (Z.to_nat taps)); [| lia].
    apply nth_error_skipn.
  - apply nth_error_None. rewrite length_firstn. lia.
Qed.

Lemma window_ext {A : Type} (x x' : list A) (offset taps : Z) :
  0 <= offset -> 0 <= taps ->
  (forall j, offset <= j < offset + taps ->
     nth_error x (Z.to_nat j) = nth_error x' (Z.to_nat j)) ->
  window x offset taps = window x' offset taps.
Proof.
  intros Ho Ht H. apply nth_error_ext. intros k.
  rewrite !nth_error_window by assumption.
  destruct (Z.ltb_spec (Z.of_nat k) taps) as [Hlt | Hge]; [| reflexivity].
  replace (Z.to_nat offset + k)%nat with (Z.to_nat (offset + Z.of_nat k)) by lia.
  apply H. lia.
Qed.

Lemma same_window_same_sample {S : Type} (sample : list double -> list S -> option S)
    (kernel : list double -> list S -> outcome S) (taps : Z)
    (e e1 e2 : Engine S) (input input' output output' res res' : list S) (i : Z) :
  kernel_of sample kernel -> well_formed taps e ->
  resample_with kernel input output e = (Done res, e1) ->
  resample_with kernel input' output' e = (Done res', e2) ->
  0 <= i < size output -> 0 <= i < size output' -> Q (base e) * i < 2 ^ 31 ->
  (forall k, Q (base e) * i / P (base e) - (taps - 1) <= k <= Q (base e) * i / P (base e) ->
     0 <= k -> nth_error input (Z.to_nat k) = nth_error input' (Z.to_nat k)) ->
  nth_error res (Z.to_nat i) = nth_error res' (Z.to_nat i).
Proof.
  intros Hk Hwf H1 H2 Hi Hi' Hrange Hsame.
  pose proof (wf_P Hwf) as HP. pose proof (wf_Q Hwf) as HQ.
  pose proof (wf_taps Hwf) as Ht. pose proof (wf_history Hwf) as Hh.
  assert (Hr : Q (base e) * i < 2 ^ (UINT_BITS - 1)) by exact Hrange.
  destruct (output_sample sample kernel Hk taps e e1 input output res i Hwf H1 Hi Hr)
    as [h [v [Hh1 [_ [_ [Hv1 Hn1]]]]]].
  destruct (output_sample sample kernel Hk taps e e2 input' output' res' i Hwf H2 Hi' Hr)
    as [h' [v' [Hh2 [_ [_ [Hv2 Hn2]]]]]].
  rewrite Hh1 in Hh2. injection Hh2 as <-.
  assert (Hoff : 0 <= Q (base e) * i / P (base e)) by (apply Z.div_pos; nia).
  assert (Hw : window (history e ++ input) (Q (base e) * i / P (base e)) taps
               = window (history e ++ input') (Q (base e) * i / P (base e)) taps).
  { apply window_ext; [exact Hoff | lia |]. intros j Hj. unfold size in Hh.
    destruct (Z.lt_ge_cases j (taps - 1)) as [Hhist | Hin].
    - rewrite !nth_error_app1 by lia. reflexivity.
    - rewrite !nth_error_app2 by lia.
      replace (Z.to_nat j - length (history e))%nat with (Z.to_nat (j - (taps - 1))) by lia.
      apply Hsame; lia. }
  rewrite Hw in Hv1. rewrite Hn1, Hn2. congruence.
Qed.

(** An output sample depends on [taps] samples only, and on none that comes
    later.  Below the wrap, output [i] of a successful call is the same for
    two inputs that agree at the input indices from [floor(Q i / P) - (taps - 1)]
    to [floor(Q i / P)] (the indices below 0 being those of the history):
    the filter is causal and looks [taps - 1] samples back. *)
Theorem output_depends_on_its_window (T : elem_type) (taps : Z) :
  (forall (e e1 e2 : Engine (carrier T))
          (input input' output output' res res' : list (carrier T)) (i : Z),
      well_formed taps e ->
      RealResampler_resample T input output e = (Done res, e1) ->
      RealResampler_resample T input' output' e = (Done res', e2) ->
      0 <= i < size output -> 0 <= i < size output' -> Q (base e) * i < 2 ^ 31 ->
      (forall k, Q (base e) * i / P (base e) - (taps - 1) <= k <= Q (base e) * i / P (base e) ->
         0 <= k -> nth_error input (Z.to_nat k) = nth_error input' (Z.to_nat k)) ->
      nth_error res (Z.to_nat i) = nth_error res' (Z.to_nat i))
  /\ (forall (e e1 e2 : Engine (complex T))
          (input input' output output' res res' : list (complex T)) (i : Z),
      well_formed taps e ->
      ComplexResampler_resample T input output e = (Done res, e1) ->
      ComplexResampler_resample T input' output' e = (Done res', e2) ->
      0 <= i < size output -> 0 <= i < size output' -> Q (base e) * i < 2 ^ 31 ->
      (forall k, Q (base e) * i / P (base e) - (taps - 1) <= k <= Q (base e) * i / P (base e) ->
         0 <= k -> nth_error input (Z.to_nat k) = nth_error input' (Z.to_nat k)) ->
      nth_error res (Z.to_nat i) = nth_error res' (Z.to_nat i)).
Proof.
  split; intros e e1 e2 input input' output output' res res' i Hwf H1 H2 Hi Hi' Hr Hsame.
  - exact (same_window_same_sample (real_sample T) (real_kernel T) taps e e1 e2
             input input' output output' res res' i (real_kernel_of T)
             Hwf H1 H2 Hi Hi' Hr Hsame).
  - exact (same_window_same_sample (complex_sample T) (complex_kernel T) taps e e1 e2
             input input' output output' res res' i (@complex_kernel_of T)
             Hwf H1 H2 Hi Hi' Hr Hsame).
Qed.

Lemma output_depends_on_its_window_witness :
  nth_error [2; 1; 2; 3] (Z.to_nat 1) = nth_error [2; 1; 27; 36] (Z.to_nat 1).
Proof.
  apply (proj1 (output_depends_on_its_window t_short 2) demo_real
           (snd (RealResampler_resample t_short [1; 2; 3; 4; 5; 6] [0; 0; 0; 0] demo_real))
           (snd (RealResampler_resample t_short [1; 2; 30; 40; 50; 60] [0; 0; 0; 0] demo_real))
           [1; 2; 3; 4; 5; 6] [1; 2; 30; 40; 50; 60] [0; 0; 0; 0] [0; 0; 0; 0]
           [2; 1; 2; 3] [2; 1; 27; 36] 1 demo_real_well_formed).
  - vm_compute. reflexivity.
  - vm_compute. reflexivity.
  - vm_compute. intuition congruence.
  - vm_compute. intuition congruence.
  - vm_compute. reflexivity.
  - intros k Hk Hk0. change (Q (base demo_real) * 1 / P (base demo_real)) with 1 in Hk.
    assert (Hc : k = 0 \/ k = 1) by lia. destruct Hc as [-> | ->]; reflexivity.
Defined.

(** For [double] samples the output is the dot product itself: nothing is
    clamped and the conversion is the identity, so below the wrap output [i]
    of a successful call of [RealResampler<double>::resample] is the dot
    product of partition [(Q i) mod P] with the window at [floor(Q i / P)],
    accumulated from 0.0, first tap first. *)
Theorem double_output_is_the_dot_product (taps : Z)
    (e e' : Engine (carrier t_double)) (input output res : list (carrier t_double)) (i : Z) :
  well_formed taps e ->
  RealResampler_resample t_double input output e = (Done res, e') ->
  0 <= i < size output -> Q (base e) * i < 2 ^ 31 ->
  exists h : list double,
    nth_error (partitions (base e)) (Z.to_nat ((Q (base e) * i) mod P (base e))) = Some h
    /\ nth_error res (Z.to_nat i)
       = Some (dot_product h
                 (window (history e ++ input) (Q (base e) * i / P (base e)) taps)).
Proof.
  intros Hwf H Hi Hr.
  destruct (output_sample (real_sample t_double) (real_kernel t_double)
              (real_kernel_of t_double) taps e e' input output res i Hwf H Hi Hr)
    as [h [v [Hh [_ [_ [Hv Hn]]]]]].
  exists h. split; [exact Hh |]. rewrite Hn.
  unfold real_sample in Hv. cbn [of_double saturate is_integral t_double to_double] in Hv.
  rewrite map_id in Hv. symmetry. exact Hv.
Qed.

Lemma demo_double_well_formed : well_formed 2 demo_double.
Proof. split; try (vm_compute; intuition congruence); repeat constructor. Qed.

Lemma double_output_is_the_dot_product_witness :
  exists h : list double,
    nth_error (partitions (base demo_double)) (Z.to_nat ((3 * 1) mod 2)) = Some h
    /\ nth_error [2.25%float; 1%float] (Z.to_nat 1)
       = Some (dot_product h (window ([7%float] ++ [1%float; 2%float; 3%float]) (3 * 1 / 2) 2)).
Proof.
  apply (double_output_is_the_dot_product 2 demo_double
           (snd (RealResampler_resample t_double [1%float; 2%float; 3%float]
                   [0%float; 0%float] demo_double))
           [1%float; 2%float; 3%float] [0%float; 0%float] [2.25%float; 1%float] 1
           demo_double_well_formed).
  - vm_compute. reflexivity.
  - vm_compute. intuition congruence.
  - vm_compute. reflexivity.
Defined.

(** ** The front end against one call *)

Lemma run_is_one_call {S : Type} (sample : list double -> list S -> option S)
    (kernel : list double -> list S -> outcome S) (decode : list Byte.byte -> list S)
    (zero : S) (type_sz p q taps N : Z) (e : Engine S) (fuel : nat) (file : list Byte.byte) :
  kernel_of sample kernel ->
  (forall h w, exists v, sample h w = Some v) ->
  0 < type_sz -> 0 < p -> 0 < q -> 1 <= N -> N * (type_sz * q) < 2 ^ 31 ->
  (forall bs, size (decode bs) = size bs / type_sz) ->
  (forall a b, size a mod type_sz = 0 -> decode (a ++ b) = decode a ++ decode b) ->
  taps - 1 <= N * q -> q * (N * p) <= 2 ^ 31 ->
  well_formed taps e -> P (base e) = p -> Q (base e) = q ->
  (length file + 2 <= fuel)%nat ->
  1 <= size file / (type_sz * q) ->
  q * (p * (size file / (type_sz * q))) <= 2 ^ 31 ->
  (1 <=? size file mod (N * (type_sz * q)) / (type_sz * q))
  && (size file mod (N * (type_sz * q)) / (type_sz * q) * q <? taps - 1) = false ->
  exists s' samples,
    Main.run_resampler kernel decode zero type_sz p q fuel
      (Main.start zero type_sz p q N e file)
    = Some (Done tt, s')
    /\ Main.ostr s' = samples
    /\ Main.n_wr s' = p * (size file / (type_sz * q))
    /\ forall out : list S, size out = p * (size file / (type_sz * q)) ->
         fst (resample_with kernel
                (decode (firstn (Z.to_nat (size file / (type_sz * q) * (type_sz * q))) file))
                out e)
         = Done samples.
Proof.
  intros Hk Htotal Hts Hp Hq HN Hfit Hdec Happ Hlong Hwrap Hwf HP HQ Hfuel Hwhole Hone Hacc.
  assert (Hout : N * p < 2 ^ 32) by nia.
  assert (Hhead : at_head taps type_sz p q N (Main.start zero type_sz p q N e file)).
  { apply start_at_head; assumption. }
  destruct (run_counts sample kernel Hk decode zero type_sz p q taps N
              Hts Hp Hq HN Hfit Hdec Htotal Hlong Hout Hwrap fuel _ Hhead Hfuel)
    as [s1 [Hrun1 [Hn1 _]]].
  destruct (run_feed sample kernel Hk decode zero type_sz p q taps N
              Hts Hp Hq HN Hfit Hdec Htotal Hlong Hout Hwrap Happ fuel _ Hhead Hfuel Hacc)
    as [calls [outs [s2 [Hrun2 [Ho2 [Hfeed [Hcat [Hsz Hne]]]]]]]].
  cbn [Main.start Main.istr Main.unread Main.n_wr Main.ostr Main.resampler] in *.
  rewrite Hacc in Hrun1, Hn1. rewrite Hrun2 in Hrun1. injection Hrun1 as <-.
  exists s2, outs. split; [exact Hrun2 |]. split; [exact Ho2 |]. split; [lia |].
  intros out Hsize.
  assert (Hblk : type_sz * q <= size file).
  { destruct (Z.lt_ge_cases (size file) (type_sz * q)) as [Hlt | Hge]; [| exact Hge].
    rewrite Z.div_small in Hwhole by (unfold size in *; lia). lia. }
  assert (Hr : Q (base e) * size (concat (map snd calls)) <= 2 ^ (UINT_BITS - 1)).
  { rewrite HQ, Hsz. exact Hone. }
  destruct (feed_one_call sample kernel Hk taps calls e (Main.resampler s2) outs
              Hwf (Hne Hblk) Hfeed Hr) as [e'' [Hcall _]].
  rewrite Hcat in Hcall.
  rewrite (resample_ignores_output kernel _ out (concat (map snd calls)) e).
  - rewrite Hcall. reflexivity.
  - unfold size in *. lia.
Qed.

(** End to end, the front end computes what one call of [resample] on the
    whole file would.  When no read is rejected, the samples a run writes
    for a file that holds [whole >= 1] blocks are the samples one call
    returns, from the engine as constructed, on the first [whole] blocks of
    the file and an output vector of [p * whole] samples: reading by
    blocks, with the history carried from read to read, changes nothing
    (element types whose narrowing is defined; [q * p * whole <= 2^31],
    below the wrap of the path table). *)
Theorem front_end_computes_one_call (sin cos : double -> double) (T : elem_type)
    (type_sz p q N : Z) (fuel : nat) (file : list Byte.byte) :
  narrowing_defined T ->
  0 < type_sz -> 0 < p < 2 ^ 32 -> 0 < q < 2 ^ 32 -> type_sz * q < 2 ^ 31 ->
  Main.n_blks_init (Main.blk_sz type_sz q) = Done N ->
  q * (N * p) <= 2 ^ 31 ->
  (length file + 2 <= fuel)%nat ->
  let blk := type_sz * q in
  let whole := size file / blk in
  let t := size file mod (N * blk) / blk in
  1 <= whole -> q * (p * whole) <= 2 ^ 31 ->
  (forall decode : list Byte.byte -> list (carrier T),
      (forall bs, size (decode bs) = size bs / type_sz) ->
      (forall a b, size a mod type_sz = 0 -> decode (a ++ b) = decode a ++ decode b) ->
      type_sz <= 8 ->
      (1 <=? t) && (t * q <? 128 - 1) = false ->
      exists e samples,
        RealResampler_ctor sin cos T p q 128 = Done e
        /\ Main.RUN_REAL_RESAMPLER sin cos T type_sz p q N decode fuel file
           = Some (Done {| Main.written := samples; Main.count_written := p * whole;
                           Main.message := false |})
        /\ forall out : list (carrier T), size out = p * whole ->
             fst (RealResampler_resample T
                    (decode (firstn (Z.to_nat (whole * blk)) file)) out e)
             = Done samples)
  /\ (forall decode : list Byte.byte -> list (complex T),
      (forall bs, size (decode bs) = size bs / type_sz) ->
      (forall a b, size a mod type_sz = 0 -> decode (a ++ b) = decode a ++ decode b) ->
      383 <= N * q ->
      (1 <=? t) && (t * q <? 384 - 1) = false ->
      exists e samples,
        ComplexResampler_ctor sin cos T p q 384 = Done e
        /\ Main.RUN_COMPLEX_RESAMPLER sin cos T type_sz p q N decode fuel file
           = Some (Done {| Main.written := samples; Main.count_written := p * whole;
                           Main.message := false |})
        /\ forall out : list (complex T), size out = p * whole ->
             fst (ComplexResampler_resample T
                    (decode (firstn (Z.to_nat (whole * blk)) file)) out e)
             = Done samples).
Proof.
  intros Hnarrow Hts Hp Hq HB HN Hwrap Hfuel blk whole t Hwhole Hone.
  assert (HB' : 0 < type_sz * q < 2 ^ 31) by nia.
  destruct (n_blks_init_value type_sz q N HB' HN) as [HN1 [Hfit _]].
  destruct (narrowing_total T Hnarrow) as [Hreal Hcomplex].
  split; intros decode Hdec Happ Hlong Hacc.
  - assert (Hl : 128 - 1 <= N * q).
    { pose proof (real_reads_are_long type_sz q N (conj Hts Hlong) (proj1 Hq) HB HN). lia. }
    assert (Htaps : 0 < 128 < 2 ^ 32) by (split; reflexivity).
    destruct (proj1 (constructed_engines sin cos T p q 128 Hp Hq Htaps))
      as [e [He [Hwf [HP [HQ _]]]]].
    destruct (run_is_one_call (real_sample T) (real_kernel T) decode (value_init T)
                type_sz p q 128 N e fuel file (real_kernel_of T) Hreal
                Hts (proj1 Hp) (proj1 Hq) HN1 Hfit Hdec Happ Hl Hwrap Hwf HP HQ
                Hfuel Hwhole Hone Hacc) as [s' [samples [Hrun [Ho [Hn Hcall]]]]].
    exists e, samples. split; [exact He |]. split; [| exact Hcall].
    unfold Main.RUN_REAL_RESAMPLER. rewrite He, Hrun, Ho, Hn. reflexivity.
  - assert (Hl : 384 - 1 <= N * q) by lia.
    assert (Htaps : 0 < 384 < 2 ^ 32) by (split; reflexivity).
    destruct (proj2 (constructed_engines sin cos T p q 384 Hp Hq Htaps))
      as [e [He [Hwf [HP [HQ _]]]]].
    destruct (run_is_one_call (complex_sample T) (complex_kernel T) decode
                (value_init T, value_init T)
                type_sz p q 384 N e fuel file (@complex_kernel_of T) Hcomplex
                Hts (proj1 Hp) (proj1 Hq) HN1 Hfit Hdec Happ Hl Hwrap Hwf HP HQ
                Hfuel Hwhole Hone Hacc) as [s' [samples [Hrun [Ho [Hn Hcall]]]]].
    exists e, samples. split; [exact He |]. split; [| exact Hcall].
    unfold Main.RUN_COMPLEX_RESAMPLER. rewrite He, Hrun, Ho, Hn. reflexivity.
Qed.

Lemma decode_char_app (a b : list Byte.byte) :
  size a mod 1 = 0 -> decode_char (a ++ b) = decode_char a ++ decode_char b.
Proof. intros _. apply map_app. Qed.

Lemma front_end_computes_one_call_witness :
  exists e samples,
    RealResampler_ctor taylor_sin taylor_cos t_char 1 1 128 = Done e
    /\ Main.RUN_REAL_RESAMPLER taylor_sin taylor_cos t_char 1 1 1 4096 decode_char
         (Z.to_nat 4298) (repeat Byte.x00 (Z.to_nat 4296))
       = Some (Done {| Main.written := samples;
                       Main.count_written
                       := 1 * (size (repeat Byte.x00 (Z.to_nat 4296)) / (1 * 1));
                       Main.message := false |})
    /\ forall out : list (carrier t_char),
         size out = 1 * (size (repeat Byte.x00 (Z.to_nat 4296)) / (1 * 1)) ->
         fst (RealResampler_resample t_char
                (decode_char
                   (firstn (Z.to_nat (size (repeat Byte.x00 (Z.to_nat 4296)) / (1 * 1)
                                      * (1 * 1)))
                      (repeat Byte.x00 (Z.to_nat 4296))))
                out e)
         = Done samples.
Proof.
  assert (Hp : 0 < 1 < 2 ^ 32) by (split; reflexivity).
  assert (Hfuel : (length (repeat Byte.x00 (Z.to_nat 4296)) + 2 <= Z.to_nat 4298)%nat)
    by (rewrite repeat_length; lia).
  assert (Hsize : size (repeat Byte.x00 (Z.to_nat 4296)) = 4296).
  { unfold size. rewrite repeat_length. reflexivity. }
  assert (Hts : 1 <= 8) by discriminate.
  assert (Hwhole : 1 <= size (repeat Byte.x00 (Z.to_nat 4296)) / (1 * 1))
    by (rewrite Hsize; discriminate).
  assert (Hone : 1 * (1 * (size (repeat Byte.x00 (Z.to_nat 4296)) / (1 * 1))) <= 2 ^ 31)
    by (rewrite Hsize; discriminate).
  assert (Hacc : (1 <=? size (repeat Byte.x00 (Z.to_nat 4296)) mod (4096 * (1 * 1)) / (1 * 1))
                 && (size (repeat Byte.x00 (Z.to_nat 4296)) mod (4096 * (1 * 1)) / (1 * 1) * 1
                     <? 128 - 1) = false)
    by (rewrite Hsize; reflexivity).
  exact (proj1 (front_end_computes_one_call taylor_sin taylor_cos t_char
                  1 1 1 4096 (Z.to_nat 4298) (repeat Byte.x00 (Z.to_nat 4296))
                  (proj1 narrowing_defined_types) eq_refl Hp Hp eq_refl eq_refl
                  ltac:(discriminate) Hfuel Hwhole Hone)
           decode_char decode_char_size decode_char_app Hts Hacc).
Defined.

(** ** What [handle_options] guarantees *)

(** The library checks nothing at construction; the front end does.  For a
    command line that [handle_options] accepts, [p] and [q] are not zero and
    the type is one of the twelve of [sample_type_map], so that a sample has
    1, 2, 4, 8 or 16 bytes.  The construction of the resampler (in
    [RUN_REAL_RESAMPLER] with 128 taps, in [RUN_COMPLEX_RESAMPLER] with 384)
    then divides by no zero, and the engine it returns has the ratio [p/q]
    and satisfies the invariant. *)
Theorem accepted_options_construct_an_engine (sin cos : double -> double) (T : elem_type)
    (args : Main.resample_args) :
  Main.handle_options args = true ->
  0 <= Main.p args < 2 ^ 32 -> 0 <= Main.q args < 2 ^ 32 ->
  Main.p args <> 0 /\ Main.q args <> 0
  /\ In (Main.type_size (Main.type args)) [1; 2; 4; 8; 16]
  /\ RealResampler_ctor sin cos T (Main.p args) (Main.q args) 128 <> Undefined
  /\ ComplexResampler_ctor sin cos T (Main.p args) (Main.q args) 384 <> Undefined
  /\ (forall e : Engine (carrier T),
      RealResampler_ctor sin cos T (Main.p args) (Main.q args) 128 = Done e ->
      well_formed 128 e /\ P (base e) = Main.p args /\ Q (base e) = Main.q args)
  /\ (forall e : Engine (complex T),
      ComplexResampler_ctor sin cos T (Main.p args) (Main.q args) 384 = Done e ->
      well_formed 384 e /\ P (base e) = Main.p args /\ Q (base e) = Main.q args).
Proof.
  intros Hopt Hp Hq.
  destruct (handle_options_accepts args Hopt) as [Hp0 Hq0].
  split; [exact Hp0 |]. split; [exact Hq0 |]. split.
  - unfold Main.handle_options in Hopt.
    destruct (String.eqb (Main.infile args) "" || String.eqb (Main.outfile args) ""
              || (Main.p args =? 0) || (Main.q args =? 0)); [discriminate |].
    unfold Main.count in Hopt. apply existsb_exists in Hopt.
    destruct Hopt as [entry [Hin Heq]]. apply String.eqb_eq in Heq.
    rewrite <- Heq. unfold Main.sample_type_map in Hin. simpl in Hin.
    repeat (destruct Hin as [<- | Hin]; [vm_compute; tauto |]). destruct Hin.
  - assert (Hp' : 0 < Main.p args < 2 ^ 32) by lia.
    assert (Hq' : 0 < Main.q args < 2 ^ 32) by lia.
    destruct (proj1 (constructed_engines sin cos T (Main.p args) (Main.q args) 128
                       Hp' Hq' ltac:(split; reflexivity)))
      as [e1 [He1 [Hwf1 [HP1 [HQ1 _]]]]].
    destruct (proj2 (constructed_engines sin cos T (Main.p args) (Main.q args) 384
                       Hp' Hq' ltac:(split; reflexivity)))
      as [e2 [He2 [Hwf2 [HP2 [HQ2 _]]]]].
    rewrite He1, He2.
    split; [discriminate |]. split; [discriminate |].
    split; intros e He; inversion He; subst e; auto.
Qed.

Lemma accepted_options_construct_an_engine_witness :
  3 <> 0 /\ 2 <> 0
  /\ In (Main.type_size "s16") [1; 2; 4; 8; 16]
  /\ RealResampler_ctor series_sin series_cos t_short 3 2 128 <> Undefined
  /\ ComplexResampler_ctor series_sin series_cos t_short 3 2 384 <> Undefined
  /\ (exists e, RealResampler_ctor series_sin series_cos t_short 3 2 128 = Done e
        /\ well_formed 128 e /\ P (base e) = 3 /\ Q (base e) = 2)
  /\ (exists e, ComplexResampler_ctor series_sin series_cos t_short 3 2 384 = Done e
        /\ well_formed 384 e /\ P (base e) = 3 /\ Q (base e) = 2).
Proof.
  assert (Hp : 0 <= 3 < 2 ^ 32) by (split; [discriminate | reflexivity]).
  assert (Hq : 0 <= 2 < 2 ^ 32) by (split; [discriminate | reflexivity]).
  destruct (accepted_options_construct_an_engine series_sin series_cos t_short
              {| Main.infile := "in"; Main.outfile := "out"; Main.type := "s16";
                 Main.p := 3; Main.q := 2 |} eq_refl Hp Hq)
    as [H1 [H2 [H3 [H4 [H5 [H6 H7]]]]]].
  cbn [Main.p Main.q Main.type] in *.
  destruct (RealResampler_ctor series_sin series_cos t_short 3 2 128) as [e1 | |] eqn:E1;
    [| destruct (proj1 (constructed_engines series_sin series_cos t_short 3 2 128
                          ltac:(split; reflexivity) ltac:(split; reflexivity)
                          ltac:(split; reflexivity))) as [e [He _]]; congruence
     | congruence].
  destruct (ComplexResampler_ctor series_sin series_cos t_short 3 2 384) as [e2 | |] eqn:E2;
    [| destruct (proj2 (constructed_engines series_sin series_cos t_short 3 2 384
                          ltac:(split; reflexivity) ltac:(split; reflexivity)
                          ltac:(split; reflexivity))) as [e [He _]]; congruence
     | congruence].
  repeat (split; [assumption |]).
  split; [exists e1; split; [reflexivity | exact (H6 e1 eq_refl)]
         | exists e2; split; [reflexivity | exact (H7 e2 eq_refl)]].
Defined.

(** ** C1 and C7 as stated, on constructed engines *)

(** A call on the ratio 256/256 with one tap. *)

Section Ratio256.

Variable e : Engine (carrier t_double).
Variable c : double.
Hypothesis e_wf : well_formed 1 e.
Hypothesis e_P : P (base e) = 256.
Hypothesis e_Q : Q (base e) = 256.
Hypothesis e_c : nth_error (partitions (base e)) 0 = Some [c].

(** The offset of entry [k] is [k] reduced modulo [2^24]. *)
Lemma ratio_256_entry (k : Z) :
  0 <= k -> path_entry 256 256 k = (k mod 16777216, 0).
Proof.
  intros Hk. unfold path_entry, wrap_unsigned.
  change (2 ^ UINT_BITS) with (256 * 16777216).
  rewrite Z.mul_mod_distr_l by lia.
  rewrite (Z.mul_comm 256 (k mod 16777216)), Z.div_mul, Z.mod_mul by lia.
  pose proof (Z.mod_pos_bound k 16777216 ltac:(lia)) as Hm.
  rewrite !to_int_small; [reflexivity | reflexivity |].
  change (2 ^ (UINT_BITS - 1)) with 2147483648. lia.
Qed.

Lemma ratio_256_history : history e = [].
Proof.
  pose proof (wf_history e_wf) as H. unfold size in H.
  destruct (history e); [reflexivity | simpl in H; lia].
Qed.

Lemma ratio_256_turn (x : list (carrier t_double)) (k : Z) (v : double) :
  0 <= k -> nth_error x (Z.to_nat (k mod 16777216)) = Some v ->
  sample_at (real_kernel t_double) (partitions (base e)) (history e ++ x)
    (path_entry (P (base e)) (Q (base e)) k)
  = Done (0 + c * v)%float.
Proof.
  intros Hk Hv. rewrite e_P, e_Q, ratio_256_entry, ratio_256_history by exact Hk.
  cbn [app].
  pose proof (Z.mod_pos_bound k 16777216 ltac:(lia)) as Hm.
  assert (Hlen : (Z.to_nat (k mod 16777216) < length x)%nat).
  { apply nth_error_Some. rewrite Hv. discriminate. }
  rewrite (@sample_at_window _ (real_sample t_double) (real_kernel t_double)
             (@real_kernel_of t_double) (partitions (base e)) x (k mod 16777216) 0 [c]).
  - change (size [c]) with 1. rewrite (window_one x (k mod 16777216) v Hv). reflexivity.
  - rewrite (wf_partitions e_wf), e_P. lia.
  - exact e_c.
  - lia.
  - change (size [c]) with 1. unfold size. lia.
Qed.

(** The call is accepted for equally long vectors of a multiple of 256
    samples, and output [k] is the coefficient times input [k mod 2^24]. *)
Lemma ratio_256_call (x out : list (carrier t_double)) :
  size out = size x -> size x mod 256 = 0 ->
  RealResampler_resample t_double x out e
  = (Done (map (fun k => (0 + c * nth (Z.to_nat (Z.of_nat k mod 16777216)) x 0)%float)
             (seq 0 (length out))),
     after_call e x out).
Proof.
  intros Hsz Hmod. unfold RealResampler_resample.
  rewrite (resample_with_turns (real_kernel t_double) x out e)
    by (rewrite ?e_P, ?e_Q; try discriminate; exact (wf_table e_wf)).
  assert (Ha : accepts e x out = true).
  { apply (accepts_iff 1 e x out (wf_history e_wf)). unfold preconditions.
    rewrite e_P, e_Q, Hsz. repeat split; try assumption. unfold size. lia. }
  rewrite Ha. f_equal. apply collect_all_Done. unfold turns.
  rewrite map_map. apply map_ext_in. intros k Hk. apply seq_bound in Hk.
  apply ratio_256_turn; [lia |].
  apply nth_error_nth'.
  pose proof (Z.mod_pos_bound (Z.of_nat k) 16777216 ltac:(lia)) as Hm.
  pose proof (Z.mod_le (Z.of_nat k) 16777216 ltac:(lia) ltac:(lia)) as Hle.
  unfold size in Hsz. lia.
Qed.

End Ratio256.

Lemma ones_size : size ones = 16777216.
Proof. unfold size, ones. rewrite repeat_length. apply Z2Nat.id. discriminate. Qed.

Lemma twos_size : size twos = 256.
Proof. unfold size, twos. rewrite repeat_length. apply Z2Nat.id. discriminate. Qed.

Lemma ones_nth (k : Z) : 0 <= k < 16777216 -> nth_error ones (Z.to_nat k) = Some 1%float.
Proof. intros Hk. unfold ones. apply nth_error_repeat. lia. Qed.

Lemma twos_nth (k : Z) : 0 <= k < 256 -> nth_error twos (Z.to_nat k) = Some 2%float.
Proof. intros Hk. unfold twos. apply nth_error_repeat. lia. Qed.

(** The engine of ratio 256/256 with one tap that the constructor
    builds: its first coefficient is positive. *)
Lemma ratio_256_engine :
  exists (e : Engine (carrier t_double)) (c : double),
    RealResampler_ctor series_sin series_cos t_double 256 256 1 = Done e
    /\ well_formed 1 e /\ P (base e) = 256 /\ Q (base e) = 256
    /\ nth_error (partitions (base e)) 0 = Some [c]
    /\ ((0 + c * 1) <? (0 + c * 2))%float = true.
Proof.
  destruct (proj1 (constructed_engines series_sin series_cos t_double 256 256 1
                     ltac:(split; reflexivity) ltac:(split; reflexivity)
                     ltac:(split; reflexivity)))
    as [e [He [Hwf [HP [HQ _]]]]].
  exists e.
  assert (Hc : exists c, nth_error (partitions (base e)) 0 = Some [c]
                 /\ ((0 + c * 1) <? (0 + c * 2))%float = true).
  { assert (Hc : exists c,
              (e' <- RealResampler_ctor series_sin series_cos t_double 256 256 1 ;;
               Done (nth_error (partitions (base e')) 0))%outcome = Done (Some [c])
              /\ ((0 + c * 1) <? (0 + c * 2))%float = true).
    { eexists. split; vm_compute; reflexivity. }
    destruct Hc as [c [Hc Hlt]]. rewrite He in Hc. cbn [obind] in Hc.
    exists c. split; [congruence | exact Hlt]. }
  destruct Hc as [c [Hc Hlt]]. exists c. tauto.
Qed.

Lemma ones_length : length ones = Z.to_nat 16777216.
Proof. apply repeat_length. Qed.

Lemma twos_length : length twos = Z.to_nat 256.
Proof. apply repeat_length. Qed.

Lemma ones_twos_length : length (ones ++ twos) = Z.to_nat (16777216 + 256).
Proof. rewrite length_app, ones_length, twos_length. lia. Qed.

Lemma ones_twos_size : size (ones ++ twos) = 16777216 + 256.
Proof. rewrite size_app, ones_size, twos_size. reflexivity. Qed.

Lemma ones_twos_low (k : Z) :
  0 <= k < 16777216 -> nth_error (ones ++ twos) (Z.to_nat k) = Some 1%float.
Proof.
  intros Hk. rewrite nth_error_app1; [now apply ones_nth |].
  rewrite ones_length. lia.
Qed.

Lemma ones_twos_high (k : Z) :
  0 <= k < 256 -> nth_error (ones ++ twos) (Z.to_nat (16777216 + k)) = Some 2%float.
Proof.
  intros Hk.
  rewrite nth_error_app2 by (rewrite ones_length; lia).
  rewrite ones_length.
  replace (Z.to_nat (16777216 + k) - Z.to_nat 16777216)%nat with (Z.to_nat k) by lia.
  now apply twos_nth.
Qed.

(** One call on the ones followed by the twos: output [2^24], whose product
    [Q * i] is [2^32], is computed from input 0. *)
Lemma ratio_256_one_call (e : Engine (carrier t_double)) (c : double) :
  well_formed 1 e -> P (base e) = 256 -> Q (base e) = 256 ->
  nth_error (partitions (base e)) 0 = Some [c] ->
  exists res,
    RealResampler_resample t_double (ones ++ twos) (ones ++ twos) e
    = (Done res, after_call e (ones ++ twos) (ones ++ twos))
    /\ nth_error res (Z.to_nat 16777216) = Some (0 + c * 1)%float
    /\ dot_product [c]
         (map (to_double t_double)
            (window (history e ++ ones ++ twos) (256 * 16777216 / 256) 1))
       = (0 + c * 2)%float.
Proof.
  intros Hwf HP HQ Hc.
  eexists. split; [| split].
  - apply (ratio_256_call e c Hwf HP HQ Hc); [reflexivity |].
    rewrite ones_twos_size. reflexivity.
  - rewrite nth_error_map, nth_error_seq, ones_twos_length.
    destruct (Nat.ltb_spec (Z.to_nat 16777216) (Z.to_nat (16777216 + 256))) as [_ | Hge];
      [| lia].
    cbn [option_map Nat.add]. rewrite Z2Nat.id by discriminate.
    change (16777216 mod 16777216) with 0.
    rewrite (nth_error_nth _ _ _ (ones_twos_low 0 ltac:(lia))). reflexivity.
  - rewrite (ratio_256_history e Hwf), app_nil_l.
    change (256 * 16777216 / 256) with (16777216 + 0).
    rewrite (window_one _ _ _ (ones_twos_high 0 ltac:(lia))). reflexivity.
Qed.

Lemma after_call_fields {S : Type} (e : Engine S) (x out : list S) :
  partitions (base (after_call e x out)) = partitions (base e)
  /\ P (base (after_call e x out)) = P (base e)
  /\ Q (base (after_call e x out)) = Q (base e).
Proof. cbn [after_call base]. apply grow_fields. Qed.

Lemma feed_two_calls (T : elem_type) (e e1 e2 : Engine (carrier T))
    (a oa o1 b ob o2 : list (carrier T)) :
  RealResampler_resample T a oa e = (Done o1, e1) ->
  RealResampler_resample T b ob e1 = (Done o2, e2) ->
  fst (feed (real_kernel T) [(a, oa); (b, ob)] e) = Done (o1 ++ o2).
Proof.
  unfold RealResampler_resample. intros H1 H2.
  cbn [feed]. unfold mbind, mret. rewrite H1, H2. cbn [fst].
  now rewrite app_nil_r.
Qed.

(** The block-by-block feed of the ones, then the twos: output [2^24] is
    the first output of the second call, computed from its first input. *)
Lemma ratio_256_feed (e : Engine (carrier t_double)) (c : double) :
  well_formed 1 e -> P (base e) = 256 -> Q (base e) = 256 ->
  nth_error (partitions (base e)) 0 = Some [c] ->
  exists outs,
    fst (feed (real_kernel t_double) [(ones, ones); (twos, twos)] e) = Done outs
    /\ nth_error outs (Z.to_nat 16777216) = Some (0 + c * 2)%float.
Proof.
  intros Hwf HP HQ Hc.
  assert (Hm1 : size ones mod 256 = 0) by (rewrite ones_size; reflexivity).
  assert (Hm2 : size twos mod 256 = 0) by (rewrite twos_size; reflexivity).
  pose proof (ratio_256_call e c Hwf HP HQ Hc ones ones eq_refl Hm1) as H1.
  assert (Ha : accepts e ones ones = true).
  { apply (accepts_iff 1 e ones ones (wf_history Hwf)). unfold preconditions.
    rewrite HP, HQ, ones_size. repeat split; discriminate. }
  pose proof (after_call_well_formed 1 ones ones e Hwf Ha) as Hwf1.
  destruct (after_call_fields e ones ones) as [Gp [GP GQ]].
  rewrite HP in GP. rewrite HQ in GQ. rewrite <- Gp in Hc.
  pose proof (ratio_256_call (after_call e ones ones) c Hwf1 GP GQ Hc twos twos eq_refl Hm2)
    as H2.
  eexists. split; [exact (feed_two_calls t_double _ _ _ _ _ _ _ _ _ H1 H2) |].
  rewrite nth_error_app2 by (rewrite length_map, length_seq, ones_length; lia).
  rewrite length_map, length_seq, ones_length, Nat.sub_diag.
  rewrite nth_error_map, nth_error_seq, twos_length.
  destruct (Nat.ltb_spec 0 (Z.to_nat 256)) as [_ | Hge]; [| lia].
  cbn [option_map Nat.add Z.of_nat]. change (0 mod 16777216) with 0.
  rewrite (nth_error_nth _ _ _ (twos_nth 0 ltac:(lia))). reflexivity.
Qed.


(** C7 as stated fails, on engines as the constructor builds them.
    A block shorter than [taps - 1]: with the ratio 1/1 and three taps the
    split of two samples into two blocks of one respects the alignment
    ([1 mod 1 = 0], [1 / 1 = 1 / 1]); one call on the two samples succeeds,
    and the first block call throws, one sample being fewer than
    [taps - 1 = 2].
    A path entry that wraps: with the ratio 256/256 and one tap [c], on
    [2^24] ones followed by 256 twos, the two block calls succeed and write
    [c * 2.0] at output [2^24], where the one call writes [c * 1.0]: its
    product [Q * i = 2^32] has wrapped to 0. *)
Lemma block_feed_is_not_one_call :
  (exists (e : Engine (carrier t_short)),
      RealResampler_ctor series_sin series_cos t_short 1 1 3 = Done e
      /\ fst (RealResampler_resample t_short [100; 200] [0; 0] e) = Done [0; 49]
      /\ (size [100] mod Q (base e) = 0 /\ size [0] mod P (base e) = 0
          /\ size [100] / Q (base e) = size [0] / P (base e))
      /\ fst (RealResampler_resample t_short [100] [0] e) = InvalidArgument
      /\ fst (feed (real_kernel t_short) [([100], [0]); ([200], [0])] e) = InvalidArgument)
  /\ (exists (e : Engine (carrier t_double)) (c : double) (res outs : list double),
      RealResampler_ctor series_sin series_cos t_double 256 256 1 = Done e
      /\ fst (RealResampler_resample t_double (ones ++ twos) (ones ++ twos) e) = Done res
      /\ fst (feed (real_kernel t_double) [(ones, ones); (twos, twos)] e) = Done outs
      /\ nth_error res (Z.to_nat 16777216) = Some (0 + c * 1)%float
      /\ nth_error outs (Z.to_nat 16777216) = Some (0 + c * 2)%float
      /\ ((0 + c * 1) <? (0 + c * 2))%float = true).
Proof.
  split.
  - eexists. split; [vm_compute; reflexivity |].
    repeat split; vm_compute; reflexivity.
  - destruct ratio_256_engine as [e [c [He [Hwf [HP [HQ [Hc Hlt]]]]]]].
    destruct (ratio_256_one_call e c Hwf HP HQ Hc) as [res [Hcall [Hres _]]].
    destruct (ratio_256_feed e c Hwf HP HQ Hc) as [outs [Hfeed Houts]].
    exists e, c, res, outs. rewrite Hcall.
    repeat split; assumption.
Qed.
